(** * MoltBoss: the task marketplace backend

    A shallow embedding of [server/storage.ts] (the Redis repository),
    [server/services/solana.ts] and [server/services/helius.ts] (the
    payment gateway wrappers), [shared/schema.ts] (the zod schemas) and
    [server/routes.ts] (the request handlers), with the properties of the
    application review flow and of the repository proved over it.

    Modelling conventions.
    - A JavaScript [number] that holds money (a reward, an amount, a
      statistic) is kept as the numeral it is written with, an exact
      rational [Q]; integer fields (completion counts, timestamps) are
      [Z].  Where the services compute with such a number (the threshold
      and the amount of [verifyTransfer], the lamports of [sendPayment])
      the numeral is read as the IEEE 754 double it denotes and the
      arithmetic is that of doubles, see [Number].  The statistics, which
      Redis adds up from the decimal text it is sent, are kept as exact
      sums.
    - The Redis keyspace is split by key family: one finite map per
      [task:{id}], [application:{id}], [agent:{id}], ... family and one
      finite set per index set, and Redis itself never fails.  The maps
      hold the records: [JSON.stringify] followed by [JSON.parse] is the
      identity on a record whose numbers are finite, which module [Json]
      shows for the tasks, together with what it does to the one number
      that is not (an infinite reward).
    - Every [await] completes before the next statement runs (requests are
      executed one after the other).
    - What the outside world decides (the uuid drawn, the clock, what the
      chain and the Helius API answer) is read from an environment [Env]
      handed to each request. *)

From Stdlib Require Import QArith Qround ZArith Lia Sorted Floats.SpecFloat.
From stdpp Require Import gmap strings list fin_maps.

Local Open Scope string_scope.

(** ** JavaScript numbers

    A [number] is an IEEE 754 binary64 value; its arithmetic is the one the
    Standard Library specifies for floating-point numbers, at precision 53
    and maximal exponent 1024, rounding to nearest, ties to even. *)

Definition number : Type := spec_float.
Definition prec : Z := 53.
Definition emax : Z := 1024.

(** The number nearest to the quotient of two positive integers, with
    sign [s]. *)
Definition round_quotient (s : bool) (n d : positive) : number :=
  let '(m, e, l) := SFdiv_core_binary prec emax (Zpos n) 0 (Zpos d) 0 in
  binary_round_aux prec emax s m e l.

(** The number a decimal numeral denotes, in the source or in a JSON text:
    the nearest one, an infinity beyond the largest of them. *)
Definition Number (q : Q) : number :=
  match Qnum q with
  | Z0 => S754_zero false
  | Zpos n => round_quotient false n (Qden q)
  | Zneg n => round_quotient true n (Qden q)
  end.

Definition Number_isFinite (x : number) : bool :=
  match x with
  | S754_zero _ | S754_finite _ _ _ => true
  | S754_infinity _ | S754_nan => false
  end.

(** The exact value of a finite number (0 for the others, which have none). *)
Definition value (x : number) : Q :=
  match x with
  | S754_finite s m e =>
    let magnitude :=
      match e with
      | Z0 => inject_Z (Zpos m)
      | Zpos k => inject_Z (Zpos m * 2 ^ Zpos k)
      | Zneg k => Zpos m # 2 ^ k
      end in
    Qred (if s then (- magnitude)%Q else magnitude)
  | _ => 0%Q
  end.

(** [x * y], [x / y], [x >= y] and [x > y]. *)
Definition js_mul (x y : number) : number := SFmul prec emax x y.
Definition js_div (x y : number) : number := SFdiv prec emax x y.
Definition js_ge (x y : number) : bool := SFleb y x.
Definition js_gt (x y : number) : bool := SFltb y x.

(** [Math.floor]: a number with a negative exponent is rounded down to the
    integer below it (itself, when it is one); the others, which are
    integers, zeros, infinities or NaN, are returned as they are. *)
Definition Math_floor (x : number) : number :=
  match x with
  | S754_finite s m (Zneg k) =>
    binary_normalize prec emax
      ((if s then Zneg m else Zpos m) / 2 ^ Zpos k)%Z 0 s
  | _ => x
  end.

(** [BigInt(x)]: the integer a number is, [None] where [BigInt] throws a
    [RangeError] (an infinity, NaN, a number with a fraction). *)
Definition BigInt (x : number) : option Z :=
  match x with
  | S754_zero _ => Some 0%Z
  | S754_finite s m e =>
    let signed := if s then Zneg m else Zpos m in
    match e with
    | Z0 => Some signed
    | Zpos k => Some (signed * 2 ^ Zpos k)%Z
    | Zneg k =>
      if (signed mod 2 ^ Zpos k =? 0)%Z then Some (signed / 2 ^ Zpos k)%Z
      else None
    end
  | S754_infinity _ | S754_nan => None
  end.

(** ** shared/schema.ts *)

Inductive ProofType := tweet_link | image | link | text.
Inductive Difficulty := easy | medium | hard.
Inductive ApplicationStatus := pending | approved | rejected.

#[global] Instance ApplicationStatus_eq_dec : EqDecision ApplicationStatus.
Proof. solve_decision. Defined.

Definition ProofType_string (p : ProofType) : string :=
  match p with
  | tweet_link => "tweet_link"
  | image => "image"
  | link => "link"
  | text => "text"
  end.

Record Task := {
  task_id : string;
  task_title : string;
  task_description : string;
  task_instructions : string;
  task_proofType : ProofType;
  task_reward : Q;
  task_difficulty : Difficulty;
  task_category : string;
  task_active : bool;
  task_totalCompletions : Z;
  task_maxCompletions : option Z;
  task_createdAt : Z
}.

(** [InsertTask]: a [Task] without [id], [totalCompletions], [createdAt]. *)
Record InsertTask := {
  it_title : string;
  it_description : string;
  it_instructions : string;
  it_proofType : ProofType;
  it_reward : Q;
  it_difficulty : Difficulty;
  it_category : string;
  it_active : bool;
  it_maxCompletions : option Z
}.

(** The JSON body handed to [insertTaskSchema.safeParse]: [active] may be
    left out, the schema then fills in [true]. *)
Record TaskBody := {
  tb_title : string;
  tb_description : string;
  tb_instructions : string;
  tb_proofType : ProofType;
  tb_reward : Q;
  tb_difficulty : Difficulty;
  tb_category : string;
  tb_active : option bool;
  tb_maxCompletions : option Z
}.

(** [Partial<Task>]: every key may be absent. *)
Record TaskUpdates := {
  tu_id : option string;
  tu_title : option string;
  tu_description : option string;
  tu_instructions : option string;
  tu_proofType : option ProofType;
  tu_reward : option Q;
  tu_difficulty : option Difficulty;
  tu_category : option string;
  tu_active : option bool;
  tu_totalCompletions : option Z;
  tu_maxCompletions : option Z;
  tu_createdAt : option Z
}.

Record Application := {
  app_id : string;
  app_taskId : string;
  app_taskTitle : string;
  app_walletAddress : string;
  app_proofType : string;
  app_proofContent : string;
  app_status : ApplicationStatus;
  app_submittedAt : Z;
  app_reviewedAt : option Z;
  app_paidAt : option Z;
  app_txSignature : option string
}.

Record InsertApplication := {
  ia_taskId : string;
  ia_walletAddress : string;
  ia_proofContent : string
}.

(** [Partial<Application>]. *)
Record ApplicationUpdates := {
  au_id : option string;
  au_taskId : option string;
  au_taskTitle : option string;
  au_walletAddress : option string;
  au_proofType : option string;
  au_proofContent : option string;
  au_status : option ApplicationStatus;
  au_submittedAt : option Z;
  au_reviewedAt : option Z;
  au_paidAt : option Z;
  au_txSignature : option string
}.

Record Agent := {
  agent_id : string;
  agent_name : string;
  agent_walletAddress : string;
  agent_apiKey : string;
  agent_paymentTxSignature : string;
  agent_paymentAmount : Q;
  agent_createdAt : Z;
  agent_active : bool;
  agent_tasksCreated : Z
}.

Record RegisterAgent := {
  ra_name : string;
  ra_wallet : string;
  ra_txSignature : string
}.

Record Stats := {
  totalTasks : Q;
  totalApplications : Q;
  totalPayouts : Q;
  totalAgents : Q;
  totalCompletedTasks : Q
}.

(** [keyof Stats]. *)
Inductive StatKey :=
  | K_totalTasks | K_totalApplications | K_totalPayouts
  | K_totalAgents | K_totalCompletedTasks.

(** [z.string().min(lo).max(hi)] and [z.string().min(1)]. *)
Definition len_between (lo hi : nat) (s : string) : bool :=
  (lo <=? String.length s)%nat && (String.length s <=? hi)%nat.

Definition nonempty (s : string) : bool := (1 <=? String.length s)%nat.


(** [insertTaskSchema.safeParse]: [None] when [success] is false.  The
    reward is positive as the number its numeral denotes: a numeral too
    small to be one is read as 0 and refused, one too large as Infinity and
    accepted. *)
Definition insertTaskSchema (b : TaskBody) : option InsertTask :=
  if nonempty (tb_title b) && nonempty (tb_description b)
     && nonempty (tb_instructions b)
     && js_gt (Number (tb_reward b)) (Number 0)
     && nonempty (tb_category b)
     && match tb_maxCompletions b with
        | Some m => (0 <? m)%Z
        | None => true
        end
  then Some {| it_title := tb_title b;
               it_description := tb_description b;
               it_instructions := tb_instructions b;
               it_proofType := tb_proofType b;
               it_reward := tb_reward b;
               it_difficulty := tb_difficulty b;
               it_category := tb_category b;
               it_active := default true (tb_active b);
               it_maxCompletions := tb_maxCompletions b |}
  else None.

Definition insertApplicationSchema (b : InsertApplication) : option InsertApplication :=
  if len_between 32 44 (ia_walletAddress b) && nonempty (ia_proofContent b)
  then Some b else None.

Definition registerAgentSchema (b : RegisterAgent) : option RegisterAgent :=
  if nonempty (ra_name b) && len_between 32 44 (ra_wallet b)
     && nonempty (ra_txSignature b)
  then Some b else None.

(** ** The Redis keyspace *)

Record Store := {
  tasks : gmap string Task;                       (* task:{id} *)
  all_tasks : gset string;
  active_tasks : gset string;
  applications : gmap string Application;         (* application:{id} *)
  all_applications : gset string;
  pending_applications : gset string;
  task_applications : gmap string (gset string);  (* task:{taskId}:applications *)
  agents : gmap string Agent;                     (* agent:{id} *)
  agent_apikey : gmap string string;              (* agent:apikey:{apiKey} *)
  agent_wallet : gmap string string;              (* agent:wallet:{wallet} *)
  all_agents : gset string;
  stats : Stats                                   (* the stats hash *)
}.

Definition empty_stats : Stats :=
  {| totalTasks := 0; totalApplications := 0; totalPayouts := 0;
     totalAgents := 0; totalCompletedTasks := 0 |}.

Definition empty_store : Store :=
  {| tasks := ∅; all_tasks := ∅; active_tasks := ∅;
     applications := ∅; all_applications := ∅; pending_applications := ∅;
     task_applications := ∅;
     agents := ∅; agent_apikey := ∅; agent_wallet := ∅; all_agents := ∅;
     stats := empty_stats |}.

Definition set_tasks (s : Store) (m : gmap string Task) (al ac : gset string) : Store :=
  {| tasks := m; all_tasks := al; active_tasks := ac;
     applications := applications s;
     all_applications := all_applications s;
     pending_applications := pending_applications s;
     task_applications := task_applications s;
     agents := agents s; agent_apikey := agent_apikey s;
     agent_wallet := agent_wallet s; all_agents := all_agents s;
     stats := stats s |}.

Definition set_applications (s : Store) (m : gmap string Application)
    (al pe : gset string) (ta : gmap string (gset string)) : Store :=
  {| tasks := tasks s; all_tasks := all_tasks s; active_tasks := active_tasks s;
     applications := m;
     all_applications := al;
     pending_applications := pe;
     task_applications := ta;
     agents := agents s; agent_apikey := agent_apikey s;
     agent_wallet := agent_wallet s; all_agents := all_agents s;
     stats := stats s |}.

Definition set_agents (s : Store) (m : gmap string Agent)
    (ak aw : gmap string string) (al : gset string) : Store :=
  {| tasks := tasks s; all_tasks := all_tasks s; active_tasks := active_tasks s;
     applications := applications s;
     all_applications := all_applications s;
     pending_applications := pending_applications s;
     task_applications := task_applications s;
     agents := m; agent_apikey := ak; agent_wallet := aw; all_agents := al;
     stats := stats s |}.

Definition set_stats (s : Store) (st : Stats) : Store :=
  {| tasks := tasks s; all_tasks := all_tasks s; active_tasks := active_tasks s;
     applications := applications s;
     all_applications := all_applications s;
     pending_applications := pending_applications s;
     task_applications := task_applications s;
     agents := agents s; agent_apikey := agent_apikey s;
     agent_wallet := agent_wallet s; all_agents := all_agents s;
     stats := st |}.

(** ** What each request reads from the outside world *)

Inductive FetchResult (A : Type) :=
  | FetchThrows                 (* fetch or response.json() throws *)
  | FetchNotOk                  (* response.ok is false *)
  | FetchOk (body : A).
Arguments FetchThrows {A}.
Arguments FetchNotOk {A}.
Arguments FetchOk {A} body.

(** [amount] is the numeral of the JSON text, in lamports. *)
Record NativeTransfer := {
  fromUserAccount : string;
  toUserAccount : string;
  amount : Q
}.

Record HeliusTransaction := {
  signature : string;
  timestamp : Z;
  transactionError : option string;
  nativeTransfers : option (list NativeTransfer)
}.

Record Env := {
  uuidv4 : string;
  generateApiKey : string;
  (** the n-th reading of [Date.now()] within the request *)
  Date_now : nat → Z;
  (** POST https://api.helius.xyz/v0/transactions for one signature *)
  helius_transactions : string → FetchResult (list HeliusTransaction);
  (** [getTreasuryKeypair()]: the public key of the treasury, or the message
      of the error thrown (the private key is missing or malformed) *)
  getTreasuryKeypair : string + string;
  (** the message of the error that [new PublicKey(address)] throws at an
      address that is no public key *)
  PublicKey_error : string → string;
  (** the message of the error that [SystemProgram.transfer] throws at a
      number of lamports that is no unsigned 64-bit integer *)
  SystemProgram_transfer_error : number → string;
  (** [sendAndConfirmTransaction] of a transfer of so many lamports from one
      key to another: the signature, or the message of the error thrown *)
  sendAndConfirmTransaction : string → string → Z → string + string
}.

(** ** server/storage.ts: [RedisStorage] *)

(** [Array.prototype.sort((a, b) => key(b) - key(a))]: the stable sort,
    largest key first. *)
Fixpoint insert_desc {A} (key : A → Z) (x : A) (l : list A) : list A :=
  match l with
  | [] => [x]
  | y :: l' => if (key y <=? key x)%Z then x :: y :: l'
               else y :: insert_desc key x l'
  end.

Definition sort_desc {A} (key : A → Z) (l : list A) : list A :=
  foldr (insert_desc key) [] l.

(** [redis.hincrbyfloat('stats', key, amount)]. *)
Definition incrementStat (key : StatKey) (amount : Q) (s : Store) : Store :=
  let st := stats s in
  set_stats s
    match key with
    | K_totalTasks =>
        {| totalTasks := totalTasks st + amount;
           totalApplications := totalApplications st;
           totalPayouts := totalPayouts st;
           totalAgents := totalAgents st;
           totalCompletedTasks := totalCompletedTasks st |}
    | K_totalApplications =>
        {| totalTasks := totalTasks st;
           totalApplications := totalApplications st + amount;
           totalPayouts := totalPayouts st;
           totalAgents := totalAgents st;
           totalCompletedTasks := totalCompletedTasks st |}
    | K_totalPayouts =>
        {| totalTasks := totalTasks st;
           totalApplications := totalApplications st;
           totalPayouts := totalPayouts st + amount;
           totalAgents := totalAgents st;
           totalCompletedTasks := totalCompletedTasks st |}
    | K_totalAgents =>
        {| totalTasks := totalTasks st;
           totalApplications := totalApplications st;
           totalPayouts := totalPayouts st;
           totalAgents := totalAgents st + amount;
           totalCompletedTasks := totalCompletedTasks st |}
    | K_totalCompletedTasks =>
        {| totalTasks := totalTasks st;
           totalApplications := totalApplications st;
           totalPayouts := totalPayouts st;
           totalAgents := totalAgents st;
           totalCompletedTasks := totalCompletedTasks st + amount |}
    end.

Definition getStats (s : Store) : Stats := stats s.

(** *** Tasks *)

(** The record kept under [task:{id}] stands for the object that Redis
    holds there when the reward is a finite number; [Json.createTask]
    follows the text written, also for a reward that is not. *)
Definition createTask (id : string) (now : Z) (insertTask : InsertTask)
    (s : Store) : Task * Store :=
  let task :=
    {| task_id := id;
       task_title := it_title insertTask;
       task_description := it_description insertTask;
       task_instructions := it_instructions insertTask;
       task_proofType := it_proofType insertTask;
       task_reward := it_reward insertTask;
       task_difficulty := it_difficulty insertTask;
       task_category := it_category insertTask;
       task_active := it_active insertTask;
       task_totalCompletions := 0;
       task_maxCompletions := it_maxCompletions insertTask;
       task_createdAt := now |} in
  let s1 :=
    set_tasks s (<[id := task]> (tasks s)) ({[id]} ∪ all_tasks s)
      (if task_active task then {[id]} ∪ active_tasks s else active_tasks s) in
  (task, incrementStat K_totalTasks 1 s1).

Definition getTask (id : string) (s : Store) : option Task := tasks s !! id.

Definition getAllTasks (s : Store) : list Task :=
  let ids := elements (all_tasks s) in
  match ids with
  | [] => []
  | _ => sort_desc task_createdAt (omap (λ id, getTask id s) ids)
  end.

Definition getActiveTasks (s : Store) : list Task :=
  let ids := elements (active_tasks s) in
  match ids with
  | [] => []
  | _ =>
    sort_desc task_createdAt
      (omap (λ id, match getTask id s with
                   | Some task => if task_active task then Some task else None
                   | None => None
                   end) ids)
  end.

(** [{ ...task, ...updates, id }]. *)
Definition merge_task (task : Task) (updates : TaskUpdates) (id : string) : Task :=
  {| task_id := id;
     task_title := default (task_title task) (tu_title updates);
     task_description := default (task_description task) (tu_description updates);
     task_instructions := default (task_instructions task) (tu_instructions updates);
     task_proofType := default (task_proofType task) (tu_proofType updates);
     task_reward := default (task_reward task) (tu_reward updates);
     task_difficulty := default (task_difficulty task) (tu_difficulty updates);
     task_category := default (task_category task) (tu_category updates);
     task_active := default (task_active task) (tu_active updates);
     task_totalCompletions :=
       default (task_totalCompletions task) (tu_totalCompletions updates);
     task_maxCompletions :=
       match tu_maxCompletions updates with
       | Some m => Some m
       | None => task_maxCompletions task
       end;
     task_createdAt := default (task_createdAt task) (tu_createdAt updates) |}.

Definition updateTask (id : string) (updates : TaskUpdates) (s : Store)
    : option Task * Store :=
  match getTask id s with
  | None => (None, s)
  | Some task =>
    let updatedTask := merge_task task updates id in
    (Some updatedTask,
     set_tasks s (<[id := updatedTask]> (tasks s)) (all_tasks s)
       match tu_active updates with
       | Some true => {[id]} ∪ active_tasks s
       | Some false => active_tasks s ∖ {[id]}
       | None => active_tasks s
       end)
  end.

Definition deleteTask (id : string) (s : Store) : bool * Store :=
  match getTask id s with
  | None => (false, s)
  | Some _ =>
    (true, set_tasks s (delete id (tasks s)) (all_tasks s ∖ {[id]})
             (active_tasks s ∖ {[id]}))
  end.

(** [{ totalCompletions: n }]. *)
Definition only_totalCompletions (n : Z) : TaskUpdates :=
  {| tu_id := None; tu_title := None; tu_description := None;
     tu_instructions := None; tu_proofType := None; tu_reward := None;
     tu_difficulty := None; tu_category := None; tu_active := None;
     tu_totalCompletions := Some n; tu_maxCompletions := None;
     tu_createdAt := None |}.

Definition incrementTaskCompletions (id : string) (s : Store) : Store :=
  match getTask id s with
  | Some task =>
    let s1 := (updateTask id (only_totalCompletions (task_totalCompletions task + 1)) s).2 in
    incrementStat K_totalCompletedTasks 1 s1
  | None => s
  end.

(** *** Applications *)

(** [redis.sadd(`task:${taskId}:applications`, id)]. *)
Definition sadd_task_applications (taskId id : string)
    (m : gmap string (gset string)) : gmap string (gset string) :=
  <[taskId := {[id]} ∪ default ∅ (m !! taskId)]> m.

Definition createApplication (id : string) (now : Z) (app : InsertApplication)
    (taskTitle proofType : string) (s : Store) : Application * Store :=
  let application :=
    {| app_id := id;
       app_taskId := ia_taskId app;
       app_taskTitle := taskTitle;
       app_walletAddress := ia_walletAddress app;
       app_proofType := proofType;
       app_proofContent := ia_proofContent app;
       app_status := pending;
       app_submittedAt := now;
       app_reviewedAt := None;
       app_paidAt := None;
       app_txSignature := None |} in
  let s1 :=
    set_applications s (<[id := application]> (applications s))
      ({[id]} ∪ all_applications s) ({[id]} ∪ pending_applications s)
      (sadd_task_applications (ia_taskId app) id (task_applications s)) in
  (application, incrementStat K_totalApplications 1 s1).

Definition getApplication (id : string) (s : Store) : option Application :=
  applications s !! id.

Definition getAllApplications (s : Store) : list Application :=
  let ids := elements (all_applications s) in
  match ids with
  | [] => []
  | _ => sort_desc app_submittedAt (omap (λ id, getApplication id s) ids)
  end.

Definition getPendingApplications (s : Store) : list Application :=
  let ids := elements (pending_applications s) in
  match ids with
  | [] => []
  | _ =>
    sort_desc app_submittedAt
      (omap (λ id, match getApplication id s with
                   | Some app =>
                     if decide (app_status app = pending) then Some app else None
                   | None => None
                   end) ids)
  end.

Definition getApplicationsByTask (taskId : string) (s : Store) : list Application :=
  let ids := elements (default ∅ (task_applications s !! taskId)) in
  match ids with
  | [] => []
  | _ => sort_desc app_submittedAt (omap (λ id, getApplication id s) ids)
  end.

(** [{ ...app, ...updates, id }]. *)
Definition merge_application (app : Application) (updates : ApplicationUpdates)
    (id : string) : Application :=
  {| app_id := id;
     app_taskId := default (app_taskId app) (au_taskId updates);
     app_taskTitle := default (app_taskTitle app) (au_taskTitle updates);
     app_walletAddress := default (app_walletAddress app) (au_walletAddress updates);
     app_proofType := default (app_proofType app) (au_proofType updates);
     app_proofContent := default (app_proofContent app) (au_proofContent updates);
     app_status := default (app_status app) (au_status updates);
     app_submittedAt := default (app_submittedAt app) (au_submittedAt updates);
     app_reviewedAt :=
       match au_reviewedAt updates with
       | Some x => Some x
       | None => app_reviewedAt app
       end;
     app_paidAt :=
       match au_paidAt updates with
       | Some x => Some x
       | None => app_paidAt app
       end;
     app_txSignature :=
       match au_txSignature updates with
       | Some x => Some x
       | None => app_txSignature app
       end |}.

Definition updateApplication (id : string) (updates : ApplicationUpdates)
    (s : Store) : option Application * Store :=
  match getApplication id s with
  | None => (None, s)
  | Some app =>
    let updatedApp := merge_application app updates id in
    (Some updatedApp,
     set_applications s (<[id := updatedApp]> (applications s))
       (all_applications s)
       match au_status updates with
       | Some st =>
         if decide (st = pending) then pending_applications s
         else pending_applications s ∖ {[id]}
       | None => pending_applications s
       end
       (task_applications s))
  end.

(** *** Agents *)

Definition createAgent (id apiKey : string) (now : Z)
    (name walletAddress txSignature : string) (paymentAmount : Q)
    (s : Store) : Agent * Store :=
  let agent :=
    {| agent_id := id;
       agent_name := name;
       agent_walletAddress := walletAddress;
       agent_apiKey := apiKey;
       agent_paymentTxSignature := txSignature;
       agent_paymentAmount := paymentAmount;
       agent_createdAt := now;
       agent_active := true;
       agent_tasksCreated := 0 |} in
  let s1 :=
    set_agents s (<[id := agent]> (agents s))
      (<[apiKey := id]> (agent_apikey s))
      (<[walletAddress := id]> (agent_wallet s))
      ({[id]} ∪ all_agents s) in
  (agent, incrementStat K_totalAgents 1 s1).

Definition getAgent (id : string) (s : Store) : option Agent := agents s !! id.

(** [if (!agentId) return null]: a missing key and the empty string are
    both falsy. *)
Definition truthy_string (o : option string) : bool :=
  match o with
  | Some x => negb (String.eqb x "")
  | None => false
  end.

Definition getAgentByApiKey (apiKey : string) (s : Store) : option Agent :=
  let agentId := agent_apikey s !! apiKey in
  if truthy_string agentId then getAgent (default "" agentId) s else None.

Definition getAgentByWallet (wallet : string) (s : Store) : option Agent :=
  let agentId := agent_wallet s !! wallet in
  if truthy_string agentId then getAgent (default "" agentId) s else None.

Definition getAllAgents (s : Store) : list Agent :=
  let ids := elements (all_agents s) in
  match ids with
  | [] => []
  | _ => sort_desc agent_createdAt (omap (λ id, getAgent id s) ids)
  end.

Definition incrementAgentTasksCreated (id : string) (s : Store) : Store :=
  match getAgent id s with
  | Some agent =>
    let updated :=
      {| agent_id := agent_id agent;
         agent_name := agent_name agent;
         agent_walletAddress := agent_walletAddress agent;
         agent_apiKey := agent_apiKey agent;
         agent_paymentTxSignature := agent_paymentTxSignature agent;
         agent_paymentAmount := agent_paymentAmount agent;
         agent_createdAt := agent_createdAt agent;
         agent_active := agent_active agent;
         agent_tasksCreated := agent_tasksCreated agent + 1 |} in
    set_agents s (<[id := updated]> (agents s)) (agent_apikey s)
      (agent_wallet s) (all_agents s)
  | None => s
  end.

(** ** server/services/solana.ts and server/services/helius.ts *)

Record PaymentResult := {
  success : bool;
  pr_signature : option string;
  pr_error : option string
}.

Record TransferVerification := {
  valid : bool;
  tv_amount : option Q;
  tv_error : option string
}.

Definition LAMPORTS_PER_SOL : Q := 1000000000.   (* 1e9 *)
Definition REGISTRATION_WALLET : string :=
  "CKpRpJ2JTi7LuvoMRp4wKdzZbW6gZHhY612Rz5fLwpJ8".
Definition REGISTRATION_FEE : Q := 0.1.

(** [minAmount * 1e9], the least number of lamports that [verifyTransfer]
    accepts: a product of numbers. *)
Definition lamports_threshold (minAmount : Q) : number :=
  js_mul (Number minAmount) (Number LAMPORTS_PER_SOL).

(** A transfer passes the test of the loop in [verifyTransfer]. *)
Definition transfer_matches (fromWallet toWallet : string) (minAmount : Q)
    (transfer : NativeTransfer) : bool :=
  String.eqb (fromUserAccount transfer) fromWallet
  && String.eqb (toUserAccount transfer) toWallet
  && js_ge (Number (amount transfer)) (lamports_threshold minAmount).

(** [transfer.amount / 1e9], a quotient of numbers, as the numeral of its
    exact value; where the amount reads as an infinity the quotient is that
    infinity, which the numeral of the amount denotes. *)
Definition amount_SOL (transfer : NativeTransfer) : Q :=
  if Number_isFinite (Number (amount transfer))
  then value (js_div (Number (amount transfer)) (Number LAMPORTS_PER_SOL))
  else amount transfer.

Definition invalid_transfer (reason : string) : TransferVerification :=
  {| valid := false; tv_amount := None; tv_error := Some reason |}.

Definition verifyTransfer (e : Env) (txSignature fromWallet toWallet : string)
    (minAmount : Q) : TransferVerification :=
  match helius_transactions e txSignature with
  | FetchThrows => invalid_transfer "Failed to verify transaction"
  | FetchNotOk => invalid_transfer "Failed to fetch transaction from Helius"
  | FetchOk transactions =>
    match transactions with
    | [] => invalid_transfer "Transaction not found"
    | tx :: _ =>
      if truthy_string (transactionError tx)
      then invalid_transfer "Transaction failed on chain"
      else
        match find (transfer_matches fromWallet toWallet minAmount)
                (default [] (nativeTransfers tx)) with
        | Some transfer =>
          {| valid := true;
             tv_amount := Some (amount_SOL transfer);
             tv_error := None |}
        | None => invalid_transfer "No matching transfer found in transaction"
        end
    end
  end.

Definition verifyRegistrationPayment (e : Env) (txSignature fromWallet : string)
    : TransferVerification :=
  verifyTransfer e txSignature fromWallet REGISTRATION_WALLET REGISTRATION_FEE.

(** ** server/routes.ts *)

Inductive Body :=
  | JError (msg : string)                              (* { error } *)
  | JErrorDetails (msg : string) (details : option string)
  | JInvalidRequest                                    (* zod's error list *)
  | JTask (t : option Task)
  | JTasks (l : list Task)
  | JStats (st : Stats)
  | JApplication (a : option Application)
  | JApplications (l : list Application)
  | JAgents (l : list Agent)
  | JRegistered (id name walletAddress apiKey : string) (createdAt : Z)
  | JDeleted.

Record Response := { status : nat; body : Body }.

(** What the handlers asked of the payment gateway, oldest call last. *)
Inductive GatewayCall :=
  | SendPayment (toWallet : string) (amountSOL : Q) (result : PaymentResult)
  | VerifyTransfer (txSignature fromWallet toWallet : string) (minAmount : Q).

Record World := { store : Store; calls : list GatewayCall }.

Definition empty_world : World := {| store := empty_store; calls := [] |}.

Definition with_store (w : World) (s : Store) : World :=
  {| store := s; calls := calls w |}.

Definition with_call (w : World) (c : GatewayCall) : World :=
  {| store := store w; calls := c :: calls w |}.

Inductive Request :=
  | GET_tasks
  | GET_task (id : string)
  | GET_stats
  | POST_applications (b : InsertApplication)
  | POST_agent_register (b : RegisterAgent)
  | GET_agent_tasks (apiKey : option string)
  | POST_agent_tasks (apiKey : option string) (b : TaskBody)
  | GET_agent_task (apiKey : option string) (id : string)
  | POST_agent_apply (apiKey : option string) (b : InsertApplication)
  | GET_admin_tasks (password : option string)
  | POST_admin_tasks (password : option string) (b : TaskBody)
  | PUT_admin_task (password : option string) (id : string) (b : TaskUpdates)
  | DELETE_admin_task (password : option string) (id : string)
  | GET_admin_applications (password : option string)
  | PUT_admin_application (password : option string) (id : string)
      (status : option string)
  | GET_admin_agents (password : option string).

(** The requests by which the admin edits or deletes a task record. *)
Definition edits_tasks (r : Request) : bool :=
  match r with
  | PUT_admin_task _ _ _ | DELETE_admin_task _ _ => true
  | _ => false
  end.

Section Routes.

(** [process.env.ADMIN_PASSWORD || "Moremore16"]. *)
Variable ADMIN_PASSWORD : string.

(** Whether [new PublicKey(address)] of @solana/web3.js returns rather than
    throws. *)
Variable PublicKey_ok : string → bool.

Definition isValidWalletAddress (address : string) : bool := PublicKey_ok address.

(** [Math.floor(amountSOL * 1e9)]. *)
Definition lamports_of (amountSOL : Q) : number :=
  Math_floor (js_mul (Number amountSOL) (Number LAMPORTS_PER_SOL)).

(** The lamports as [SystemProgram.transfer] encodes them, an unsigned
    64-bit integer made with [BigInt]; [None] where that throws. *)
Definition u64 (lamports : number) : option Z :=
  match BigInt lamports with
  | Some n => if (0 <=? n)%Z && (n <? 2 ^ 64)%Z then Some n else None
  | None => None
  end.

Definition payment_failed (message : string) : PaymentResult :=
  {| success := false; pr_signature := None; pr_error := Some message |}.

(** The [try] block of [sendPayment]: the key pair, the recipient key, the
    lamports, the transfer instruction, the transaction; whatever is thrown
    becomes a failure with its message. *)
Definition sendPayment (e : Env) (toWallet : string) (amountSOL : Q)
    : PaymentResult :=
  match getTreasuryKeypair e with
  | inl keypair =>
    if PublicKey_ok toWallet then
      let lamports := lamports_of amountSOL in
      match u64 lamports with
      | Some n =>
        match sendAndConfirmTransaction e keypair toWallet n with
        | inl sig =>
          {| success := true; pr_signature := Some sig; pr_error := None |}
        | inr message => payment_failed message
        end
      | None => payment_failed (SystemProgram_transfer_error e lamports)
      end
    else payment_failed (PublicKey_error e toWallet)
  | inr message => payment_failed message
  end.

Definition json (code : nat) (b : Body) : Response :=
  {| status := code; body := b |}.

Definition adminAuth (password : option string)
    (next : World → Response * World) (w : World) : Response * World :=
  if decide (password = Some ADMIN_PASSWORD) then next w
  else (json 401 (JError "Unauthorized: Invalid admin password"), w).

Definition agentAuth (apiKey : option string)
    (next : Agent → World → Response * World) (w : World) : Response * World :=
  if negb (truthy_string apiKey)
  then (json 401 (JError "Unauthorized: API key required"), w)
  else
    match getAgentByApiKey (default "" apiKey) (store w) with
    | None => (json 401 (JError "Unauthorized: Invalid API key"), w)
    | Some agent =>
      if negb (agent_active agent)
      then (json 403 (JError "Forbidden: Agent account is inactive"), w)
      else next agent w
    end.

(** POST /api/applications, and the body of POST /api/agent/apply. *)
Definition post_applications (e : Env) (b : InsertApplication) (w : World)
    : Response * World :=
  match insertApplicationSchema b with
  | None => (json 400 JInvalidRequest, w)
  | Some data =>
    if negb (isValidWalletAddress (ia_walletAddress data))
    then (json 400 (JError "Invalid Solana wallet address"), w)
    else
      match getTask (ia_taskId data) (store w) with
      | None => (json 404 (JError "Task not found"), w)
      | Some task =>
        if negb (task_active task)
        then (json 400 (JError "Task is no longer active"), w)
        else if match task_maxCompletions task with
                | Some m => negb (m =? 0)%Z && (m <=? task_totalCompletions task)%Z
                | None => false
                end
        then (json 400 (JError "No slots available for this task"), w)
        else
          let '(application, s) :=
            createApplication (uuidv4 e) (Date_now e 0) data (task_title task)
              (ProofType_string (task_proofType task)) (store w) in
          (json 201 (JApplication (Some application)), with_store w s)
      end
  end.

(** POST /api/agent/register. *)
Definition post_agent_register (e : Env) (b : RegisterAgent) (w : World)
    : Response * World :=
  match registerAgentSchema b with
  | None => (json 400 JInvalidRequest, w)
  | Some data =>
    if negb (isValidWalletAddress (ra_wallet data))
    then (json 400 (JError "Invalid Solana wallet address"), w)
    else
      match getAgentByWallet (ra_wallet data) (store w) with
      | Some _ => (json 400 (JError "Wallet already registered as an agent"), w)
      | None =>
        let verification :=
          verifyRegistrationPayment e (ra_txSignature data) (ra_wallet data) in
        let w1 :=
          with_call w (VerifyTransfer (ra_txSignature data) (ra_wallet data)
                         REGISTRATION_WALLET REGISTRATION_FEE) in
        if negb (valid verification)
        then (json 400 (JErrorDetails "Payment verification failed"
                          (tv_error verification)), w1)
        else
          let '(agent, s) :=
            createAgent (uuidv4 e) (generateApiKey e) (Date_now e 0)
              (ra_name data) (ra_wallet data) (ra_txSignature data)
              (default 0%Q (tv_amount verification)) (store w1) in
          (json 201 (JRegistered (agent_id agent) (agent_name agent)
                       (agent_walletAddress agent) (agent_apiKey agent)
                       (agent_createdAt agent)),
           with_store w1 s)
      end
  end.

(** POST /api/admin/tasks. *)
Definition post_admin_tasks (e : Env) (b : TaskBody) (w : World)
    : Response * World :=
  match insertTaskSchema b with
  | None => (json 400 JInvalidRequest, w)
  | Some data =>
    let '(task, s) := createTask (uuidv4 e) (Date_now e 0) data (store w) in
    (json 201 (JTask (Some task)), with_store w s)
  end.

(** POST /api/agent/tasks, once [agentAuth] has set [req.agent]. *)
Definition post_agent_tasks (e : Env) (b : TaskBody) (agent : Agent) (w : World)
    : Response * World :=
  match insertTaskSchema b with
  | None => (json 400 JInvalidRequest, w)
  | Some data =>
    let '(task, s) := createTask (uuidv4 e) (Date_now e 0) data (store w) in
    (json 201 (JTask (Some task)),
     with_store w (incrementAgentTasksCreated (agent_id agent) s))
  end.

(** PUT /api/admin/tasks/:id. *)
Definition put_admin_task (taskId : string) (b : TaskUpdates) (w : World)
    : Response * World :=
  match getTask taskId (store w) with
  | None => (json 404 (JError "Task not found"), w)
  | Some _ =>
    let '(updatedTask, s) := updateTask taskId b (store w) in
    (json 200 (JTask updatedTask), with_store w s)
  end.

(** DELETE /api/admin/tasks/:id. *)
Definition delete_admin_task (taskId : string) (w : World) : Response * World :=
  let '(deleted, s) := deleteTask taskId (store w) in
  if negb deleted then (json 404 (JError "Task not found"), w)
  else (json 200 JDeleted, with_store w s).

(** The text [Invalid status. Must be "approved" or "rejected"]. *)
Definition invalid_status_message : string :=
  let q := String (Ascii.ascii_of_nat 34) EmptyString in
  "Invalid status. Must be " ++ q ++ "approved" ++ q ++ " or " ++ q
  ++ "rejected" ++ q.

(** [!status || !['approved', 'rejected'].includes(status)]: the status a
    review request may carry. *)
Definition review_status (status : option string) : option ApplicationStatus :=
  match status with
  | Some x =>
    if String.eqb x "approved" then Some approved
    else if String.eqb x "rejected" then Some rejected
    else None
  | None => None
  end.

(** [{ status, reviewedAt: Date.now() }]. *)
Definition review_updates (st : ApplicationStatus) (reviewedAt : Z)
    (txSignature : option string) (paidAt : option Z) : ApplicationUpdates :=
  {| au_id := None; au_taskId := None; au_taskTitle := None;
     au_walletAddress := None; au_proofType := None; au_proofContent := None;
     au_status := Some st; au_submittedAt := None;
     au_reviewedAt := Some reviewedAt;
     au_paidAt := paidAt;
     au_txSignature := txSignature |}.

(** PUT /api/admin/applications/:id. *)
Definition put_admin_application (e : Env) (applicationId : string)
    (status : option string) (w : World) : Response * World :=
  match review_status status with
  | None =>
    (json 400 (JError invalid_status_message), w)
  | Some st =>
    match getApplication applicationId (store w) with
    | None => (json 404 (JError "Application not found"), w)
    | Some application =>
      if negb (bool_decide (app_status application = pending))
      then (json 400 (JError "Application has already been reviewed"), w)
      else
        let reviewedAt := Date_now e 0 in
        if bool_decide (st = approved) then
          match getTask (app_taskId application) (store w) with
          | None => (json 404 (JError "Associated task not found"), w)
          | Some task =>
            let paymentResult :=
              sendPayment e (app_walletAddress application) (task_reward task) in
            let w1 :=
              with_call w (SendPayment (app_walletAddress application)
                             (task_reward task) paymentResult) in
            if negb (success paymentResult)
            then (json 500 (JErrorDetails "Failed to send payment"
                              (pr_error paymentResult)), w1)
            else
              let updates :=
                review_updates st reviewedAt (pr_signature paymentResult)
                  (Some (Date_now e 1)) in
              let s1 := incrementTaskCompletions (app_taskId application) (store w1) in
              let s2 := incrementStat K_totalPayouts (task_reward task) s1 in
              let '(updatedApplication, s3) :=
                updateApplication applicationId updates s2 in
              (json 200 (JApplication updatedApplication), with_store w1 s3)
          end
        else
          let '(updatedApplication, s1) :=
            updateApplication applicationId
              (review_updates st reviewedAt None None) (store w) in
          (json 200 (JApplication updatedApplication), with_store w s1)
    end
  end.

(** [agents.map(agent => ({ ...agent, apiKey: agent.apiKey.substring(0, 10) + '...' }))]. *)
Definition safeAgent (agent : Agent) : Agent :=
  {| agent_id := agent_id agent;
     agent_name := agent_name agent;
     agent_walletAddress := agent_walletAddress agent;
     agent_apiKey := String.substring 0 10 (agent_apiKey agent) ++ "...";
     agent_paymentTxSignature := agent_paymentTxSignature agent;
     agent_paymentAmount := agent_paymentAmount agent;
     agent_createdAt := agent_createdAt agent;
     agent_active := agent_active agent;
     agent_tasksCreated := agent_tasksCreated agent |}.

Definition get_task (taskId : string) (w : World) : Response * World :=
  match getTask taskId (store w) with
  | None => (json 404 (JError "Task not found"), w)
  | Some task => (json 200 (JTask (Some task)), w)
  end.

(** The request surface: one request, handled to completion. *)
Definition handle (e : Env) (r : Request) (w : World) : Response * World :=
  match r with
  | GET_tasks => (json 200 (JTasks (getActiveTasks (store w))), w)
  | GET_task id => get_task id w
  | GET_stats => (json 200 (JStats (getStats (store w))), w)
  | POST_applications b => post_applications e b w
  | POST_agent_register b => post_agent_register e b w
  | GET_agent_tasks k =>
    agentAuth k (λ _ w, (json 200 (JTasks (getActiveTasks (store w))), w)) w
  | POST_agent_tasks k b => agentAuth k (post_agent_tasks e b) w
  | GET_agent_task k id => agentAuth k (λ _, get_task id) w
  | POST_agent_apply k b => agentAuth k (λ _, post_applications e b) w
  | GET_admin_tasks p =>
    adminAuth p (λ w, (json 200 (JTasks (getAllTasks (store w))), w)) w
  | POST_admin_tasks p b => adminAuth p (post_admin_tasks e b) w
  | PUT_admin_task p id b => adminAuth p (put_admin_task id b) w
  | DELETE_admin_task p id => adminAuth p (delete_admin_task id) w
  | GET_admin_applications p =>
    adminAuth p (λ w, (json 200 (JApplications (getAllApplications (store w))), w)) w
  | PUT_admin_application p id st => adminAuth p (put_admin_application e id st) w
  | GET_admin_agents p =>
    adminAuth p (λ w, (json 200 (JAgents (safeAgent <$> getAllAgents (store w))), w)) w
  end.

(** *** What a request can do to the world *)

(** The ways in which the handlers leave the world they were given;
    [handle_effect] shows that there is no other. *)
Inductive effect (e : Env) (r : Request) (w : World) : World → Prop :=
  | effect_none : effect e r w w
  | effect_verify_failed (txSignature fromWallet : string) :
      effect e r w
        (with_call w (VerifyTransfer txSignature fromWallet
                        REGISTRATION_WALLET REGISTRATION_FEE))
  | effect_payment_failed (toWallet : string) (amountSOL : Q)
      (result : PaymentResult) :
      success result = false →
      effect e r w (with_call w (SendPayment toWallet amountSOL result))
  | effect_task_created (b : TaskBody) (data : InsertTask) :
      insertTaskSchema b = Some data →
      effect e r w
        (with_store w (createTask (uuidv4 e) (Date_now e 0) data (store w)).2)
  | effect_agent_task_created (b : TaskBody) (data : InsertTask) (agentId : string) :
      insertTaskSchema b = Some data →
      effect e r w
        (with_store w
           (incrementAgentTasksCreated agentId
              (createTask (uuidv4 e) (Date_now e 0) data (store w)).2))
  | effect_task_updated (p : option string) (id : string) (b : TaskUpdates) :
      r = PUT_admin_task p id b →
      effect e r w (with_store w (updateTask id b (store w)).2)
  | effect_task_deleted (p : option string) (id : string) :
      r = DELETE_admin_task p id →
      effect e r w (with_store w (deleteTask id (store w)).2)
  | effect_application_created (data : InsertApplication) (task : Task) :
      getTask (ia_taskId data) (store w) = Some task →
      effect e r w
        (with_store w
           (createApplication (uuidv4 e) (Date_now e 0) data (task_title task)
              (ProofType_string (task_proofType task)) (store w)).2)
  | effect_agent_created (data : RegisterAgent) (paymentAmount : Q) :
      effect e r w
        (with_store
           (with_call w (VerifyTransfer (ra_txSignature data) (ra_wallet data)
                           REGISTRATION_WALLET REGISTRATION_FEE))
           (createAgent (uuidv4 e) (generateApiKey e) (Date_now e 0)
              (ra_name data) (ra_wallet data) (ra_txSignature data)
              paymentAmount (store w)).2)
  | effect_rejected (p : option string) (id : string) (st : option string)
      (a : Application) :
      r = PUT_admin_application p id st →
      review_status st = Some rejected →
      getApplication id (store w) = Some a →
      app_status a = pending →
      effect e r w
        (with_store w
           (updateApplication id
              (review_updates rejected (Date_now e 0) None None) (store w)).2)
  | effect_approved (p : option string) (id : string) (st : option string)
      (a : Application) (task : Task) (sig : string) :
      r = PUT_admin_application p id st →
      review_status st = Some approved →
      getApplication id (store w) = Some a →
      app_status a = pending →
      getTask (app_taskId a) (store w) = Some task →
      sendPayment e (app_walletAddress a) (task_reward task)
      = {| success := true; pr_signature := Some sig; pr_error := None |} →
      effect e r w
        (with_store
           (with_call w
              (SendPayment (app_walletAddress a) (task_reward task)
                 (sendPayment e (app_walletAddress a) (task_reward task))))
           (updateApplication id
              (review_updates approved (Date_now e 0) (Some sig)
                 (Some (Date_now e 1)))
              (incrementStat K_totalPayouts (task_reward task)
                 (incrementTaskCompletions (app_taskId a) (store w)))).2).

(** *** Sequential executions *)

(** The uuid the request draws names no record yet. *)
Definition fresh (e : Env) (w : World) : Prop :=
  tasks (store w) !! uuidv4 e = None
  ∧ applications (store w) !! uuidv4 e = None
  ∧ agents (store w) !! uuidv4 e = None.

(** The states the public operations lead to from the empty store, one
    request after the other. *)
Inductive reachable : World → Prop :=
  | reachable_empty : reachable empty_world
  | reachable_handle (e : Env) (r : Request) (w : World) :
      reachable w → fresh e w → reachable (handle e r w).2.

(** The same, when the admin never edits or deletes a task. *)
Inductive reachable_unedited : World → Prop :=
  | unedited_empty : reachable_unedited empty_world
  | unedited_handle (e : Env) (r : Request) (w : World) :
      reachable_unedited w → edits_tasks r = false → fresh e w →
      reachable_unedited (handle e r w).2.

Fixpoint run (trace : list (Env * Request)) (w : World) : World :=
  match trace with
  | [] => w
  | (e, r) :: trace' => run trace' (handle e r w).2
  end.

Fixpoint fresh_run (trace : list (Env * Request)) (w : World) : Prop :=
  match trace with
  | [] => True
  | (e, r) :: trace' => fresh e w ∧ fresh_run trace' (handle e r w).2
  end.

End Routes.

(** ** Measures of a state *)

(** What the [pending], [approved] and [rejected] records look like. *)
Definition app_wf (a : Application) : Prop :=
  match app_status a with
  | pending =>
    app_reviewedAt a = None ∧ app_paidAt a = None ∧ app_txSignature a = None
  | approved =>
    is_Some (app_reviewedAt a) ∧ is_Some (app_paidAt a)
    ∧ is_Some (app_txSignature a)
  | rejected =>
    is_Some (app_reviewedAt a) ∧ app_paidAt a = None ∧ app_txSignature a = None
  end.

Definition is_approved (kv : string * Application) : Prop :=
  app_status kv.2 = approved.

#[global] Instance is_approved_dec kv : Decision (is_approved kv).
Proof. unfold is_approved. apply _. Defined.

(** The number of approved applications. *)
Definition approved_count (s : Store) : nat :=
  size (filter is_approved (applications s)).

(** The SOL sent by the payments that succeeded, in the order sent. *)
Fixpoint paid_out (cs : list GatewayCall) : Q :=
  match cs with
  | [] => 0
  | SendPayment _ amountSOL result :: cs' =>
    if success result then paid_out cs' + amountSOL else paid_out cs'
  | VerifyTransfer _ _ _ _ :: cs' => paid_out cs'
  end.

(** The number of payments that succeeded. *)
Fixpoint payments_made (cs : list GatewayCall) : nat :=
  match cs with
  | [] => 0
  | SendPayment _ _ result :: cs' =>
    if success result then S (payments_made cs') else payments_made cs'
  | VerifyTransfer _ _ _ _ :: cs' => payments_made cs'
  end.

(** The reward of the task an application is for, as the task stands now;
    nothing when the task is gone. *)
Definition current_reward (s : Store) (a : Application) : Q :=
  match getTask (app_taskId a) s with
  | Some task => task_reward task
  | None => 0
  end.

(** The sum of [reward] over the approved applications of [m]. *)
Definition rewards_sum (reward : Application → Q) (m : gmap string Application) : Q :=
  map_fold (λ _ a acc, if decide (app_status a = approved)
                       then (acc + reward a)%Q else acc)
    0%Q m.

(** The sum, over the approved applications, of the current reward of their
    task. *)
Definition approved_rewards (s : Store) : Q :=
  rewards_sum (current_reward s) (applications s).

(** Every application is for a task that is stored. *)
Definition tasks_present (s : Store) : Prop :=
  ∀ id a, getApplication id s = Some a → is_Some (getTask (app_taskId a) s).

(** Every task that declares [maxCompletions] is within it. *)
Definition within_capacity (s : Store) : Prop :=
  ∀ id task m,
    getTask id s = Some task → task_maxCompletions task = Some m →
    (task_totalCompletions task <= m)%Z.

(** Every stored application looks like its status says. *)
Definition applications_wf (s : Store) : Prop :=
  ∀ id a, getApplication id s = Some a → app_wf a.

(** The counters of the approval flow agree with the applications and with
    the payments sent. *)
Definition accounts_balanced (w : World) : Prop :=
  (totalCompletedTasks (stats (store w))
   == inject_Z (Z.of_nat (approved_count (store w))))%Q
  ∧ totalPayouts (stats (store w)) = paid_out (calls w)
  ∧ payments_made (calls w) = approved_count (store w).

(** The requests that edit a task record on behalf of the admin, and the
    reviews that ask for an approval. *)
Definition is_task_update (r : Request) : bool :=
  match r with
  | PUT_admin_task _ _ _ => true
  | _ => false
  end.

Definition is_approval (r : Request) : bool :=
  match r with
  | PUT_admin_application _ _ st => bool_decide (review_status st = Some approved)
  | _ => false
  end.

(** ** A concrete world for the examples *)

(** [bs58.decode] followed by the length test of [new PublicKey]: the
    address is base58 and decodes to 32 bytes. *)
Definition bs58_alphabet : string :=
  "123456789ABCDEFGHJKLMNPQRSTUVWXYZabcdefghijkmnopqrstuvwxyz".

Fixpoint bs58_index (c : Ascii.ascii) (s : string) (i : N) : option N :=
  match s with
  | EmptyString => None
  | String d s' => if Ascii.eqb c d then Some i else bs58_index c s' (i + 1)%N
  end.

Fixpoint bs58_digits (s : string) : option (list N) :=
  match s with
  | EmptyString => Some []
  | String c s' =>
    match bs58_index c bs58_alphabet 0, bs58_digits s' with
    | Some d, Some l => Some (d :: l)
    | _, _ => None
    end
  end.

Fixpoint leading_zeros (l : list N) : N :=
  match l with
  | 0%N :: l' => (1 + leading_zeros l')%N
  | _ => 0%N
  end.

Definition byte_length (n : N) : N :=
  if (n =? 0)%N then 0%N else (N.log2 n / 8 + 1)%N.

Definition bs58_PublicKey_ok (s : string) : bool :=
  match bs58_digits s with
  | Some l =>
    (leading_zeros l + byte_length (fold_left (λ n d, n * 58 + d)%N l 0%N) =? 32)%N
  | None => false
  end.

Definition default_password : string := "Moremore16".

(** A worker's wallet (a valid address: the wrapped SOL mint). *)
Definition worker_wallet : string := "So11111111111111111111111111111111111111112".

(** An environment in which the chain accepts every transfer and Helius
    knows of one transaction, paying [lamports] from [worker_wallet] to the
    registration wallet. *)
Definition env_paying (uuid : string) (now : Z) (lamports : Q) : Env :=
  {| uuidv4 := uuid;
     generateApiKey := "mb_" ++ uuid;
     Date_now := λ n, (now + Z.of_nat n)%Z;
     helius_transactions := λ sig,
       FetchOk [ {| signature := sig; timestamp := now;
                    transactionError := None;
                    nativeTransfers :=
                      Some [ {| fromUserAccount := worker_wallet;
                                toUserAccount := REGISTRATION_WALLET;
                                amount := lamports |} ] |} ];
     getTreasuryKeypair := inl "PXpVKE42sXTnAqRqbKidaTKgCrkgexFrSNQXdxppJZR";
     PublicKey_error := λ _, "Invalid public key input";
     SystemProgram_transfer_error := λ _, "The number is out of range";
     sendAndConfirmTransaction := λ from to lamports, inl ("sig-" ++ uuid) |}.

(** The same, with a chain that refuses every transfer. *)
Definition env_failing (uuid : string) (now : Z) : Env :=
  {| uuidv4 := uuid;
     generateApiKey := "mb_" ++ uuid;
     Date_now := λ n, (now + Z.of_nat n)%Z;
     helius_transactions := λ sig, FetchNotOk;
     getTreasuryKeypair := inl "PXpVKE42sXTnAqRqbKidaTKgCrkgexFrSNQXdxppJZR";
     PublicKey_error := λ _, "Invalid public key input";
     SystemProgram_transfer_error := λ _, "The number is out of range";
     sendAndConfirmTransaction := λ from to lamports, inr "insufficient funds" |}.

(** The same, with a second transfer in the transaction. *)
Definition env_two_transfers (uuid : string) (now : Z) (lamports1 lamports2 : Q)
    : Env :=
  {| uuidv4 := uuid;
     generateApiKey := "mb_" ++ uuid;
     Date_now := λ n, (now + Z.of_nat n)%Z;
     helius_transactions := λ sig,
       FetchOk [ {| signature := sig; timestamp := now;
                    transactionError := None;
                    nativeTransfers :=
                      Some [ {| fromUserAccount := worker_wallet;
                                toUserAccount := REGISTRATION_WALLET;
                                amount := lamports1 |};
                             {| fromUserAccount := worker_wallet;
                                toUserAccount := REGISTRATION_WALLET;
                                amount := lamports2 |} ] |} ];
     getTreasuryKeypair := inl "PXpVKE42sXTnAqRqbKidaTKgCrkgexFrSNQXdxppJZR";
     PublicKey_error := λ _, "Invalid public key input";
     SystemProgram_transfer_error := λ _, "The number is out of range";
     sendAndConfirmTransaction := λ from to lamports, inl ("sig-" ++ uuid) |}.

Definition sample_task (reward : Q) (maxCompletions : option Z) : TaskBody :=
  {| tb_title := "Share on Twitter";
     tb_description := "Share our announcement on Twitter";
     tb_instructions := "Quote tweet and submit the link";
     tb_proofType := tweet_link;
     tb_reward := reward;
     tb_difficulty := easy;
     tb_category := "social";
     tb_active := Some true;
     tb_maxCompletions := maxCompletions |}.

Definition sample_application (taskId : string) : InsertApplication :=
  {| ia_taskId := taskId;
     ia_walletAddress := worker_wallet;
     ia_proofContent := "https://twitter.com/user/status/123456789" |}.

Definition admin : option string := Some default_password.

Definition handle0 := handle default_password bs58_PublicKey_ok.
Definition run0 := run default_password bs58_PublicKey_ok.

(** One task of reward 0.05 SOL and one slot, one application for it. *)
Definition trace_submitted : list (Env * Request) :=
  [ (env_paying "t1" 1000 0, POST_admin_tasks admin (sample_task 0.05 (Some 1%Z)));
    (env_paying "a1" 2000 0, POST_applications (sample_application "t1")) ].

(** ... and a second application, then both approved. *)
Definition trace_two_approved : list (Env * Request) :=
  trace_submitted ++
  [ (env_paying "a2" 3000 0, POST_applications (sample_application "t1"));
    (env_paying "x1" 4000 0, PUT_admin_application admin "a1" (Some "approved"));
    (env_paying "x2" 5000 0, PUT_admin_application admin "a2" (Some "approved")) ].

(** A body that sets the reward of a task to 2 SOL. *)
Definition reward_edit : TaskUpdates :=
  {| tu_id := None; tu_title := None; tu_description := None;
     tu_instructions := None; tu_proofType := None; tu_reward := Some 2%Q;
     tu_difficulty := None; tu_category := None; tu_active := None;
     tu_totalCompletions := None; tu_maxCompletions := None;
     tu_createdAt := None |}.

(** ... the application approved, then the reward of the task edited. *)
Definition trace_reward_edited : list (Env * Request) :=
  trace_submitted ++
  [ (env_paying "x1" 4000 0, PUT_admin_application admin "a1" (Some "approved"));
    (env_paying "x2" 5000 0, PUT_admin_task admin "t1" reward_edit) ].

(** A registration of [worker_wallet], paid in full. *)
Definition sample_registration : RegisterAgent :=
  {| ra_name := "My AI Agent";
     ra_wallet := worker_wallet;
     ra_txSignature := "5VERv8NMvzbJMEkV8xnrLkEaWRtSz9CosKDYjCJjBRnb" |}.

Definition trace_registered : list (Env * Request) :=
  [ (env_paying "g1" 500 100000000, POST_agent_register sample_registration) ].

Definition world_submitted : World := run0 trace_submitted empty_world.
Definition world_two_approved : World := run0 trace_two_approved empty_world.
Definition world_reward_edited : World := run0 trace_reward_edited empty_world.
Definition world_registered : World := run0 trace_registered empty_world.

(** ** The rest of the services and of the schemas *)

(** [String.prototype.charAt]: the empty string out of range. *)
Definition charAt (s : string) (i : Z) : string :=
  if (i <? 0)%Z then ""
  else match String.get (Z.to_nat i) s with
       | Some c => String c EmptyString
       | None => ""
       end.

Definition apiKey_chars : string :=
  "ABCDEFGHIJKLMNOPQRSTUVWXYZabcdefghijklmnopqrstuvwxyz0123456789".

(** The loop of [generateApiKey] from its [i]-th turn on, [n] turns to go;
    [random i] is what [Math.random()] returns in turn [i]. *)
Fixpoint generateApiKey_loop (random : nat → Q) (i n : nat) (result : string)
    : string :=
  match n with
  | O => result
  | S n' =>
    generateApiKey_loop random (S i) n'
      (result ++ charAt apiKey_chars
                   (Qfloor (random i * inject_Z (Z.of_nat (String.length apiKey_chars)))))
  end.

(** [generateApiKey()] of storage.ts. *)
Definition generateApiKey_from (random : nat → Q) : string :=
  generateApiKey_loop random 0 32 "mb_".

(** [Payout] of the schema. *)
Record Payout := {
  payout_signature : string;
  payout_to : string;
  payout_amount : Q;
  payout_timestamp : Z;
  payout_status : string
}.

(** The body of the inner loop of [getOutgoingTransactions]. *)
Definition push_outgoing (walletAddress : string) (tx : HeliusTransaction)
    (outgoing : list Payout) (transfer : NativeTransfer) : list Payout :=
  if String.eqb (fromUserAccount transfer) walletAddress
     && negb (Qle_bool (amount transfer) 0)
  then outgoing ++ [ {| payout_signature := signature tx;
                        payout_to := toUserAccount transfer;
                        payout_amount := (amount transfer / LAMPORTS_PER_SOL)%Q;
                        payout_timestamp := (timestamp tx * 1000)%Z;
                        payout_status := "confirmed" |} ]
  else outgoing.

(** [getOutgoingTransactions], given what the fetch of the address history
    answers. *)
Definition getOutgoingTransactions
    (response : FetchResult (list HeliusTransaction)) (walletAddress : string)
    : list Payout :=
  match response with
  | FetchThrows => []
  | FetchNotOk => []
  | FetchOk transactions =>
    foldl (λ outgoing tx,
             if truthy_string (transactionError tx) then outgoing
             else foldl (push_outgoing walletAddress tx) outgoing
                    (default [] (nativeTransfers tx)))
      [] transactions
  end.




(** ** The tasks through JSON

    [createTask] hands [JSON.stringify(task)] to Redis and [getTask] returns
    what [JSON.parse] makes of it (or the object Upstash has already parsed).
    Every property of a task goes through unchanged but a reward that is no
    finite number, which [JSON.stringify] writes as [null].  The module
    follows the two functions and the schema with the reward as the number
    it is at run time. *)
Module Json.

(** What a property typed as a number holds: a number, or [null] once a
    number that is not finite has been through JSON. *)
Inductive numeric := Num (x : number) | Null.

(** [z.infer<typeof insertTaskSchema>], at run time. *)
Record InsertTask := {
  it_title : string;
  it_description : string;
  it_instructions : string;
  it_proofType : ProofType;
  it_reward : number;
  it_difficulty : Difficulty;
  it_category : string;
  it_active : bool;
  it_maxCompletions : option Z
}.

(** A task object, in memory or read back. *)
Record Task := {
  task_id : string;
  task_title : string;
  task_description : string;
  task_instructions : string;
  task_proofType : ProofType;
  task_reward : numeric;
  task_difficulty : Difficulty;
  task_category : string;
  task_active : bool;
  task_totalCompletions : Z;
  task_maxCompletions : option Z;
  task_createdAt : Z
}.

(** A JSON text, given by the object that [JSON.parse] makes of it. *)
Inductive Text := text (object : Task).

(** [JSON.stringify] at a number: the text of a finite number reads back as
    that number; Infinity and NaN are written [null]. *)
Definition stringify_number (v : numeric) : numeric :=
  match v with
  | Num x => if Number_isFinite x then Num x else Null
  | Null => Null
  end.

(** [JSON.stringify(task)]: strings, booleans and integers are written as
    they are, and a [maxCompletions] that is undefined is left out. *)
Definition JSON_stringify (task : Task) : Text :=
  text {| task_id := task_id task;
          task_title := task_title task;
          task_description := task_description task;
          task_instructions := task_instructions task;
          task_proofType := task_proofType task;
          task_reward := stringify_number (task_reward task);
          task_difficulty := task_difficulty task;
          task_category := task_category task;
          task_active := task_active task;
          task_totalCompletions := task_totalCompletions task;
          task_maxCompletions := task_maxCompletions task;
          task_createdAt := task_createdAt task |}.

Definition JSON_parse (data : Text) : Task :=
  let 'text object := data in object.

(** [insertTaskSchema.safeParse(req.body)], the body being what
    [express.json()] makes of the text: [reward: z.number().positive()]
    tests the number, and passes Infinity. *)
Definition insertTaskSchema (b : TaskBody) : option InsertTask :=
  if nonempty (tb_title b) && nonempty (tb_description b)
     && nonempty (tb_instructions b)
     && js_gt (Number (tb_reward b)) (Number 0)
     && nonempty (tb_category b)
     && match tb_maxCompletions b with
        | Some m => (0 <? m)%Z
        | None => true
        end
  then Some {| it_title := tb_title b;
               it_description := tb_description b;
               it_instructions := tb_instructions b;
               it_proofType := tb_proofType b;
               it_reward := Number (tb_reward b);
               it_difficulty := tb_difficulty b;
               it_category := tb_category b;
               it_active := default true (tb_active b);
               it_maxCompletions := tb_maxCompletions b |}
  else None.

(** The keys of Redis that [createTask] writes. *)
Record Redis := {
  task_key : gmap string Text;                    (* task:{id} *)
  all_tasks : gset string;
  active_tasks : gset string;
  totalTasks : Q                                  (* stats, totalTasks *)
}.

Definition createTask (id : string) (now : Z) (insertTask : InsertTask)
    (r : Redis) : Task * Redis :=
  let task :=
    {| task_id := id;
       task_title := it_title insertTask;
       task_description := it_description insertTask;
       task_instructions := it_instructions insertTask;
       task_proofType := it_proofType insertTask;
       task_reward := Num (it_reward insertTask);
       task_difficulty := it_difficulty insertTask;
       task_category := it_category insertTask;
       task_active := it_active insertTask;
       task_totalCompletions := 0;
       task_maxCompletions := it_maxCompletions insertTask;
       task_createdAt := now |} in
  (task,
   {| task_key := <[id := JSON_stringify task]> (task_key r);
      all_tasks := {[id]} ∪ all_tasks r;
      active_tasks :=
        if task_active task then {[id]} ∪ active_tasks r else active_tasks r;
      totalTasks := (totalTasks r + 1)%Q |}).

Definition getTask (id : string) (r : Redis) : option Task :=
  match task_key r !! id with
  | None => None
  | Some data => Some (JSON_parse data)
  end.

Definition no_keys : Redis :=
  {| task_key := ∅; all_tasks := ∅; active_tasks := ∅; totalTasks := 0 |}.

End Json.

(** The objects that the records of the repository stand for: a reward is
    the number its numeral denotes. *)
Definition insert_object (insertTask : InsertTask) : Json.InsertTask :=
  {| Json.it_title := it_title insertTask;
     Json.it_description := it_description insertTask;
     Json.it_instructions := it_instructions insertTask;
     Json.it_proofType := it_proofType insertTask;
     Json.it_reward := Number (it_reward insertTask);
     Json.it_difficulty := it_difficulty insertTask;
     Json.it_category := it_category insertTask;
     Json.it_active := it_active insertTask;
     Json.it_maxCompletions := it_maxCompletions insertTask |}.

Definition task_object (task : Task) : Json.Task :=
  {| Json.task_id := task_id task;
     Json.task_title := task_title task;
     Json.task_description := task_description task;
     Json.task_instructions := task_instructions task;
     Json.task_proofType := task_proofType task;
     Json.task_reward := Json.Num (Number (task_reward task));
     Json.task_difficulty := task_difficulty task;
     Json.task_category := task_category task;
     Json.task_active := task_active task;
     Json.task_totalCompletions := task_totalCompletions task;
     Json.task_maxCompletions := task_maxCompletions task;
     Json.task_createdAt := task_createdAt task |}.

(** The keys of Redis read as the task records of a store do. *)
Definition tasks_stored (r : Json.Redis) (s : Store) : Prop :=
  (∀ id, Json.getTask id r = task_object <$> getTask id s)
  ∧ Json.all_tasks r = all_tasks s
  ∧ Json.active_tasks r = active_tasks s
  ∧ Json.totalTasks r = totalTasks (stats s).

(** A task body whose reward is the numeral 1e999. *)
Definition infinite_reward : TaskBody := sample_task (inject_Z (10 ^ 999)) None.

(** The order of a listing: [a] may come before [b]. *)
Definition newer_first {A} (key : A → Z) (a b : A) : Prop := (key b <= key a)%Z.

(** ** What the index sets hold *)

(** The index sets of the tasks name the stored and the active tasks, and
    every task is stored under its id. *)
Definition tasks_indexed (s : Store) : Prop :=
  (∀ id, id ∈ all_tasks s ↔ is_Some (tasks s !! id))
  ∧ (∀ id, id ∈ active_tasks s ↔
           ∃ t, tasks s !! id = Some t ∧ task_active t = true)
  ∧ (∀ id t, tasks s !! id = Some t → task_id t = id).

(** The index sets of the applications name the stored and the pending
    applications, and those of each task; every application is stored under
    its id. *)
Definition applications_indexed (s : Store) : Prop :=
  (∀ id, id ∈ all_applications s ↔ is_Some (applications s !! id))
  ∧ (∀ id, id ∈ pending_applications s ↔
           ∃ a, applications s !! id = Some a ∧ app_status a = pending)
  ∧ (∀ taskId id, id ∈ default ∅ (task_applications s !! taskId) ↔
                  ∃ a, applications s !! id = Some a ∧ app_taskId a = taskId)
  ∧ (∀ id a, applications s !! id = Some a → app_id a = id).

(** The index of the agents names the stored ones; every agent is stored
    under its id and the wallet index leads to it. *)
Definition agents_indexed (s : Store) : Prop :=
  (∀ id, id ∈ all_agents s ↔ is_Some (agents s !! id))
  ∧ (∀ id g, agents s !! id = Some g →
             agent_id g = id
             ∧ agent_wallet s !! agent_walletAddress g = Some id).

(** The part of an application that a review leaves alone. *)
Definition submission (a : Application)
    : string * string * string * string * string * Z :=
  (app_taskId a, app_taskTitle a, app_walletAddress a,
   app_proofType a, app_proofContent a, app_submittedAt a).

(** The part of an agent that no request changes. *)
Definition credentials (g : Agent)
    : string * string * string * string * string * Q * Z * bool :=
  (agent_id g, agent_name g, agent_walletAddress g, agent_apiKey g,
   agent_paymentTxSignature g, agent_paymentAmount g, agent_createdAt g,
   agent_active g).

(** [{ ...agent, tasksCreated: agent.tasksCreated + 1 }]. *)
Definition one_more_task (agent : Agent) : Agent :=
  {| agent_id := agent_id agent;
     agent_name := agent_name agent;
     agent_walletAddress := agent_walletAddress agent;
     agent_apiKey := agent_apiKey agent;
     agent_paymentTxSignature := agent_paymentTxSignature agent;
     agent_paymentAmount := agent_paymentAmount agent;
     agent_createdAt := agent_createdAt agent;
     agent_active := agent_active agent;
     agent_tasksCreated := agent_tasksCreated agent + 1 |}.

(** The counters of creation agree with what is stored: applications and
    agents are never removed, tasks may be deleted. *)
Definition counts_balanced (s : Store) : Prop :=
  (totalApplications (stats s) == inject_Z (Z.of_nat (size (applications s))))%Q
  ∧ (totalAgents (stats s) == inject_Z (Z.of_nat (size (agents s))))%Q
  ∧ (inject_Z (Z.of_nat (size (tasks s))) <= totalTasks (stats s))%Q.

(** The requests that only read. *)
Definition is_read (r : Request) : bool :=
  match r with
  | GET_tasks | GET_task _ | GET_stats | GET_agent_tasks _ | GET_agent_task _ _
  | GET_admin_tasks _ | GET_admin_applications _ | GET_admin_agents _ => true
  | _ => false
  end.

(** The password a request to an admin route carries. *)
Definition admin_password (r : Request) : option (option string) :=
  match r with
  | GET_admin_tasks p | POST_admin_tasks p _ | PUT_admin_task p _ _
  | DELETE_admin_task p _ | GET_admin_applications p
  | PUT_admin_application p _ _ | GET_admin_agents p => Some p
  | _ => None
  end.

(** The API key a request to an agent route carries. *)
Definition agent_apiKey_of (r : Request) : option (option string) :=
  match r with
  | GET_agent_tasks k | POST_agent_tasks k _ | GET_agent_task k _
  | POST_agent_apply k _ => Some k
  | _ => None
  end.

(** Math.random() stuck at a half, and a history with one failed and one
    good transaction. *)
Definition random_half : nat → Q := λ _, (1 # 2)%Q.

Definition sample_history : list HeliusTransaction :=
  [ {| signature := "sigA"; timestamp := 10;
       transactionError := Some "InstructionError";
       nativeTransfers :=
         Some [ {| fromUserAccount := worker_wallet;
                   toUserAccount := REGISTRATION_WALLET;
                   amount := 5 |} ] |};
    {| signature := "sigB"; timestamp := 20;
       transactionError := None;
       nativeTransfers :=
         Some [ {| fromUserAccount := worker_wallet;
                   toUserAccount := REGISTRATION_WALLET;
                   amount := 50000000 |};
                {| fromUserAccount := REGISTRATION_WALLET;
                   toUserAccount := worker_wallet;
                   amount := 7 |} ] |} ].

(** * Properties *)

(** ** The list operations of the repository *)

Section sorting.
Context {A : Type} (key : A → Z).

Lemma elem_of_insert_desc (x y : A) (l : list A) :
  y ∈ insert_desc key x l ↔ y = x ∨ y ∈ l.
Proof.
  induction l as [|z l IH]; simpl.
  - rewrite elem_of_cons. set_solver.
  - destruct (key z <=? key x)%Z.
    + rewrite elem_of_cons. reflexivity.
    + rewrite !elem_of_cons, IH. tauto.
Qed.

Lemma elem_of_sort_desc (y : A) (l : list A) : y ∈ sort_desc key l ↔ y ∈ l.
Proof.
  induction l as [|x l IH]; [reflexivity|].
  unfold sort_desc in *; simpl.
  rewrite elem_of_insert_desc, IH, elem_of_cons. reflexivity.
Qed.

(** What every list operation does: look the ids up, drop the misses and
    what the filter refuses, sort. *)
Lemma elem_of_listing (f : string → option A) (ids : list string) (y : A) :
  y ∈ match ids with
      | [] => []
      | _ => sort_desc key (omap f ids)
      end
  ↔ ∃ id, id ∈ ids ∧ f id = Some y.
Proof.
  destruct ids as [|i ids].
  - split; [intros H; inversion H|intros (id & H & _); inversion H].
  - rewrite elem_of_sort_desc. apply list_elem_of_omap.
Qed.
End sorting.

(** C10: a list operation returns exactly the records that an id of its
    index set resolves to, so an id whose record is gone is skipped;
    [getActiveTasks] keeps only the active tasks and
    [getPendingApplications] only the pending applications, whatever the
    index sets hold. *)
Theorem list_operations_return_stored_records (s : Store) :
  (∀ t, t ∈ getAllTasks s ↔ ∃ id, id ∈ all_tasks s ∧ getTask id s = Some t)
  ∧ (∀ t, t ∈ getActiveTasks s ↔
       ∃ id, id ∈ active_tasks s ∧ getTask id s = Some t ∧ task_active t = true)
  ∧ (∀ a, a ∈ getAllApplications s ↔
       ∃ id, id ∈ all_applications s ∧ getApplication id s = Some a)
  ∧ (∀ a, a ∈ getPendingApplications s ↔
       ∃ id, id ∈ pending_applications s ∧ getApplication id s = Some a
             ∧ app_status a = pending)
  ∧ (∀ taskId a, a ∈ getApplicationsByTask taskId s ↔
       ∃ id, id ∈ default ∅ (task_applications s !! taskId)
             ∧ getApplication id s = Some a)
  ∧ (∀ g, g ∈ getAllAgents s ↔ ∃ id, id ∈ all_agents s ∧ getAgent id s = Some g).
Proof.
  repeat split.
  all: try (intros H; apply elem_of_listing in H as (id & Hid & Hf);
            apply elem_of_elements in Hid; exists id).
  all: try (intros (id & Hid & Hf); apply elem_of_listing; exists id;
            rewrite elem_of_elements).
  all: try (split; [assumption|]).
  all: try assumption.
  - destruct (getTask id s) as [t'|]; [|discriminate].
    destruct (task_active t') eqn:Hact; [|discriminate].
    injection Hf as <-. auto.
  - destruct Hf as [-> ->]. reflexivity.
  - destruct (getApplication id s) as [a'|]; [|discriminate].
    destruct (decide (app_status a' = pending)); [|discriminate].
    injection Hf as <-. auto.
  - destruct Hf as [-> Hp]. destruct (decide (app_status a = pending)); [reflexivity|contradiction].
Qed.

(** ** Creating a task and reading it back *)

Lemma incrementAgentTasksCreated_frame (id : string) (s : Store) :
  applications (incrementAgentTasksCreated id s) = applications s
  ∧ stats (incrementAgentTasksCreated id s) = stats s
  ∧ tasks (incrementAgentTasksCreated id s) = tasks s.
Proof. unfold incrementAgentTasksCreated. destruct (getAgent id s); auto. Qed.

(** The schema of the repository and that of the objects accept the same
    bodies. *)
Lemma insertTaskSchema_object (b : TaskBody) :
  Json.insertTaskSchema b = insert_object <$> insertTaskSchema b.
Proof.
  unfold Json.insertTaskSchema, insertTaskSchema.
  destruct (_ && _); reflexivity.
Qed.

(** On a task whose reward is a finite number, [createTask] and [getTask] do
    to the records what they do to the objects through JSON. *)
Lemma createTask_object (id : string) (now : Z) (ins : InsertTask)
    (r : Json.Redis) (s : Store) :
  Number_isFinite (Number (it_reward ins)) = true →
  tasks_stored r s →
  (Json.createTask id now (insert_object ins) r).1
  = task_object (createTask id now ins s).1
  ∧ tasks_stored (Json.createTask id now (insert_object ins) r).2
      (createTask id now ins s).2.
Proof.
  intros Hfinite (Hkey & Hall & Hactive & Htotal).
  split; [reflexivity|]. split; [|cbn; rewrite Hall, Hactive, Htotal; auto].
  intros id'. specialize (Hkey id'). unfold Json.getTask, getTask in *. cbn.
  destruct (decide (id' = id)) as [->|Hother].
  - rewrite !lookup_insert_eq. cbn. unfold task_object; cbn.
    rewrite Hfinite. reflexivity.
  - rewrite !lookup_insert_ne by congruence. exact Hkey.
Qed.

(** C8: a task made of a body that the schema accepts and whose reward is a
    finite number is read back, at once and by the id returned, as it was
    created: with the fields of the body, the id given, [createdAt] the
    clock reading and [totalCompletions] zero.  The schema also accepts the
    reward 1e999, which is the number Infinity: the task is then created
    with that reward, stored with the reward [null], and read back
    different from what was created. *)
Theorem create_task_read_back :
  (∀ (b : TaskBody) (ins : Json.InsertTask) (id : string) (now : Z)
     (r : Json.Redis),
     Json.insertTaskSchema b = Some ins →
     Number_isFinite (Number (tb_reward b)) = true →
     let created := (Json.createTask id now ins r).1 in
     Json.getTask id (Json.createTask id now ins r).2 = Some created
     ∧ created
       = {| Json.task_id := id;
            Json.task_title := tb_title b;
            Json.task_description := tb_description b;
            Json.task_instructions := tb_instructions b;
            Json.task_proofType := tb_proofType b;
            Json.task_reward := Json.Num (Number (tb_reward b));
            Json.task_difficulty := tb_difficulty b;
            Json.task_category := tb_category b;
            Json.task_active := default true (tb_active b);
            Json.task_totalCompletions := 0;
            Json.task_maxCompletions := tb_maxCompletions b;
            Json.task_createdAt := now |})
  ∧ (∃ ins,
       Json.insertTaskSchema infinite_reward = Some ins
       ∧ Json.it_reward ins = S754_infinity false
       ∧ let created := (Json.createTask "t1" 1000 ins Json.no_keys).1 in
         let read :=
           Json.getTask "t1" (Json.createTask "t1" 1000 ins Json.no_keys).2 in
         Json.task_reward created = Json.Num (S754_infinity false)
         ∧ Json.task_reward <$> read = Some Json.Null
         ∧ read ≠ Some created).
Proof.
  split.
  - intros b ins id now r Hparsed Hfinite.
    unfold Json.insertTaskSchema in Hparsed.
    destruct (_ && _); [|discriminate]. injection Hparsed as <-.
    cbv zeta. unfold Json.getTask, Json.createTask. cbn.
    rewrite lookup_insert_eq. cbn. rewrite Hfinite.
    split; reflexivity.
  - eexists. split; [vm_compute; reflexivity|]. split; [reflexivity|].
    cbv zeta. unfold Json.getTask, Json.createTask. cbn.
    rewrite lookup_insert_eq. split; [reflexivity|]. split; [reflexivity|].
    intros Hsame. injection Hsame as Hsame. discriminate Hsame.
Qed.

(** ** Verifying a transfer *)

Lemma transfer_matches_spec (fromWallet toWallet : string) (minAmount : Q)
    (tr : NativeTransfer) :
  transfer_matches fromWallet toWallet minAmount tr = true
  ↔ fromUserAccount tr = fromWallet ∧ toUserAccount tr = toWallet
    ∧ js_ge (Number (amount tr)) (lamports_threshold minAmount) = true.
Proof.
  unfold transfer_matches.
  rewrite !andb_true_iff, !String.eqb_eq. tauto.
Qed.

(** The fee of a registration, 0.1 SOL, is 10^8 lamports exactly: the
    product of the two numbers has no rounding error. *)
Lemma registration_threshold :
  lamports_threshold REGISTRATION_FEE = Number 100000000.
Proof. vm_compute. reflexivity. Qed.

Lemma find_is_Some_iff {A} (p : A → bool) (l : list A) :
  is_Some (find p l) ↔ ∃ x, x ∈ l ∧ p x = true.
Proof.
  induction l as [|y l IH]; simpl.
  - split; [intros [x Hx]; discriminate|intros (x & Hx & _); inversion Hx].
  - destruct (p y) eqn:Hy.
    + split; [intros _; exists y; split; [left|assumption]|intros _; eauto].
    + rewrite IH. split.
      * intros (x & Hx & Hpx). exists x. split; [right|]; assumption.
      * intros (x & Hx & Hpx). apply elem_of_cons in Hx as [->|Hx]; [congruence|eauto].
Qed.

(** [verifyTransfer] answers [valid] exactly when
    Helius returns the transaction, the transaction carries no error, and one
    of its native transfers goes from [fromWallet] to [toWallet] with an
    amount that is, as a number, at least the number [minAmount * 1e9]; any
    other answer is invalid and names a reason. *)
Lemma verifyTransfer_valid_iff (e : Env) (txSignature fromWallet toWallet : string)
    (minAmount : Q) :
  let v := verifyTransfer e txSignature fromWallet toWallet minAmount in
  (valid v = true ↔
     ∃ tx rest,
       helius_transactions e txSignature = FetchOk (tx :: rest)
       ∧ truthy_string (transactionError tx) = false
       ∧ ∃ tr, tr ∈ default [] (nativeTransfers tx)
               ∧ fromUserAccount tr = fromWallet
               ∧ toUserAccount tr = toWallet
               ∧ js_ge (Number (amount tr)) (lamports_threshold minAmount) = true)
  ∧ (valid v = false → ∃ reason, tv_error v = Some reason).
Proof.
  simpl. unfold verifyTransfer.
  destruct (helius_transactions e txSignature) as [| |[|tx rest]]; simpl.
  1-3: split; [split; [discriminate|intros (tx & rest & H & _); discriminate]|eauto].
  destruct (truthy_string (transactionError tx)) eqn:Herr; simpl.
  { split; [split; [discriminate|]|eauto].
    intros (tx' & rest' & H & Hno & _). injection H as <- <-. congruence. }
  pose proof (find_is_Some_iff (transfer_matches fromWallet toWallet minAmount)
                (default [] (nativeTransfers tx))) as Hfind.
  destruct (find _ _) as [tr|]; simpl.
  - split; [split; [intros _|reflexivity]|discriminate].
    destruct Hfind as [Hfind _]. destruct Hfind as (x & Hx & Hm); [eauto|].
    apply transfer_matches_spec in Hm. exists tx, rest. eauto 10.
  - split; [split; [discriminate|]|eauto].
    intros (tx' & rest' & H & _ & tr & Htr & Hm). injection H as <- <-.
    destruct Hfind as [_ Hfind]. destruct Hfind as [? ?]; [|discriminate].
    exists tr. split; [assumption|]. apply transfer_matches_spec. assumption.
Qed.

(** ** Sums over the approved applications *)

Section rewards_sum.
Context (reward : Application → Q).

Let add (_ : string) (a : Application) (acc : Q) : Q :=
  if decide (app_status a = approved) then (acc + reward a)%Q else acc.

Local Instance add_proper (j : string) (a : Application) :
  Proper (Qeq ==> Qeq) (add j a).
Proof.
  intros x y Hxy. unfold add.
  destruct (decide (app_status a = approved)); [rewrite Hxy|]; auto with qarith.
Qed.

Lemma add_comm (j1 j2 : string) (a1 a2 : Application) (y : Q) :
  (add j1 a1 (add j2 a2 y) == add j2 a2 (add j1 a1 y))%Q.
Proof.
  unfold add.
  destruct (decide (app_status a1 = approved)), (decide (app_status a2 = approved));
    try reflexivity.
  ring.
Qed.

Lemma rewards_sum_insert_fresh (m : gmap string Application) (i : string)
    (a : Application) :
  m !! i = None →
  (rewards_sum reward (<[i := a]> m)
   == if decide (app_status a = approved)
      then rewards_sum reward m + reward a else rewards_sum reward m)%Q.
Proof.
  intros Hi. unfold rewards_sum.
  apply (map_fold_insert Qeq add 0%Q i a m); [apply _| |exact Hi].
  intros j1 j2 a1 a2 y _ _ _. apply add_comm.
Qed.

Lemma rewards_sum_delete (m : gmap string Application) (i : string)
    (a : Application) :
  m !! i = Some a → app_status a ≠ approved →
  (rewards_sum reward m == rewards_sum reward (delete i m))%Q.
Proof.
  intros Hi Ha. unfold rewards_sum.
  etransitivity;
    [apply (map_fold_delete Qeq add 0%Q i a m); [apply _| |exact Hi]|].
  - intros j1 j2 a1 a2 y _ _ _. apply add_comm.
  - unfold add at 1. rewrite decide_False by exact Ha. reflexivity.
Qed.

(** Replacing a record that was not approved. *)
Lemma rewards_sum_insert (m : gmap string Application) (i : string)
    (a0 a : Application) :
  m !! i = Some a0 → app_status a0 ≠ approved →
  (rewards_sum reward (<[i := a]> m)
   == if decide (app_status a = approved)
      then rewards_sum reward m + reward a else rewards_sum reward m)%Q.
Proof.
  intros Hi Ha0. rewrite <- (insert_delete_eq m i a).
  rewrite rewards_sum_insert_fresh by apply lookup_delete_eq.
  destruct (decide (app_status a = approved));
    rewrite <- (rewards_sum_delete m i a0 Hi Ha0); reflexivity.
Qed.
End rewards_sum.

Lemma rewards_sum_ext (reward reward' : Application → Q)
    (m : gmap string Application) :
  (∀ id a, m !! id = Some a → reward a = reward' a) →
  rewards_sum reward m = rewards_sum reward' m.
Proof.
  intros Hext. unfold rewards_sum. rewrite !map_fold_foldr.
  assert (∀ ia, ia ∈ map_to_list m → reward ia.2 = reward' ia.2) as Hl.
  { intros [id a] Hin. apply elem_of_map_to_list in Hin. exact (Hext id a Hin). }
  induction (map_to_list m) as [|[id a] l IH]; [reflexivity|]. cbn.
  rewrite IH by (intros ia Hin; apply Hl; right; exact Hin).
  pose proof (Hl (id, a) ltac:(left)) as Ha. cbn in Ha. rewrite Ha. reflexivity.
Qed.

(** ** The request handlers, one request at a time *)

Section route_properties.

Variable ADMIN_PASSWORD : string.
Variable PublicKey_ok : string → bool.

Local Abbreviation handle := (handle ADMIN_PASSWORD PublicKey_ok).
Local Abbreviation reachable := (reachable ADMIN_PASSWORD PublicKey_ok).
Local Abbreviation review e id st :=
  (handle e (PUT_admin_application (Some ADMIN_PASSWORD) id st)).

Lemma adminAuth_ok (next : World → Response * World) (w : World) :
  adminAuth ADMIN_PASSWORD (Some ADMIN_PASSWORD) next w = next w.
Proof. unfold adminAuth. rewrite decide_True; reflexivity. Qed.

Lemma handle_review (e : Env) (id : string) (st : option string) (w : World) :
  review e id st w = put_admin_application PublicKey_ok e id st w.
Proof. apply adminAuth_ok. Qed.

Lemma review_status_cases (st : option string) (s : ApplicationStatus) :
  review_status st = Some s → s = approved ∨ s = rejected.
Proof.
  unfold review_status. destruct st as [x|]; [|discriminate].
  destruct (String.eqb x "approved"); [intros [= <-]; auto|].
  destruct (String.eqb x "rejected"); [intros [= <-]; auto|discriminate].
Qed.

(** A review that answers 200 found the application pending and leaves it
    stored with the status asked for. *)
Lemma review_ok_inv (e : Env) (id : string) (st : option string) (w : World) :
  status (put_admin_application PublicKey_ok e id st w).1 = 200%nat →
  ∃ s a a',
    review_status st = Some s
    ∧ getApplication id (store w) = Some a ∧ app_status a = pending
    ∧ getApplication id (store (put_admin_application PublicKey_ok e id st w).2)
      = Some a'
    ∧ app_status a' = s.
Proof.
  unfold put_admin_application.
  destruct (review_status st) as [s|] eqn:Hst; [|discriminate].
  destruct (getApplication id (store w)) as [a|] eqn:Ha; [|discriminate].
  destruct (bool_decide (app_status a = pending)) eqn:Hp; [|discriminate]; simpl.
  apply bool_decide_eq_true in Hp.
  destruct (bool_decide (s = approved)) eqn:Hs.
  - destruct (getTask (app_taskId a) (store w)) as [task|] eqn:Ht; [|discriminate].
    destruct (success _) eqn:Hpay; [|discriminate]; simpl.
    unfold incrementTaskCompletions, updateApplication, getApplication in *; simpl.
    rewrite Ht; simpl. unfold updateTask. rewrite Ht; simpl. rewrite Ha; simpl.
    intros _. eexists s, a, _. rewrite lookup_insert_eq. auto.
  - unfold updateApplication, getApplication in *. rewrite Ha; simpl.
    intros _. eexists s, a, _. rewrite lookup_insert_eq. auto.
Qed.

Lemma review_ok_not_pending (e : Env) (id : string) (st : option string) (w : World) :
  status (put_admin_application PublicKey_ok e id st w).1 = 200%nat →
  ∃ a, getApplication id (store (put_admin_application PublicKey_ok e id st w).2) = Some a
       ∧ app_status a ≠ pending.
Proof.
  intros Hok. destruct (review_ok_inv _ _ _ _ Hok) as (s & a & a' & Hs & _ & _ & Ha' & Hst).
  exists a'. split; [assumption|].
  destruct (review_status_cases _ _ Hs); subst s; congruence.
Qed.

(** C3: a review request (approve or reject) for an application that is no
    longer pending is answered with the already-reviewed error and changes
    nothing, neither the store nor the list of gateway calls, so nothing is
    paid; and a review that follows a review that succeeded, for the same
    application, is answered so. *)
Theorem reviewed_application_is_final :
  (∀ (e : Env) (id : string) (st : option string) (w : World) (a : Application),
     getApplication id (store w) = Some a →
     app_status a ≠ pending →
     is_Some (review_status st) →
     review e id st w
     = (json 400 (JError "Application has already been reviewed"), w))
  ∧ (∀ (e1 e2 : Env) (id : string) (st1 st2 : option string) (w : World),
       status (review e1 id st1 w).1 = 200%nat →
       is_Some (review_status st2) →
       review e2 id st2 (review e1 id st1 w).2
       = (json 400 (JError "Application has already been reviewed"),
          (review e1 id st1 w).2)).
Proof.
  assert (∀ (e : Env) (id : string) (st : option string) (w : World) (a : Application),
     getApplication id (store w) = Some a →
     app_status a ≠ pending →
     is_Some (review_status st) →
     review e id st w
     = (json 400 (JError "Application has already been reviewed"), w)) as Hfinal.
  { intros e id st w a Ha Hp [s Hs]. rewrite handle_review.
    unfold put_admin_application. rewrite Hs, Ha.
    rewrite bool_decide_eq_false_2 by assumption. reflexivity. }
  split; [exact Hfinal|].
  intros e1 e2 id st1 st2 w Hok Hst2.
  rewrite (handle_review e1) in Hok.
  destruct (review_ok_not_pending _ _ _ _ Hok) as (a & Ha & Hp).
  rewrite <- (handle_review e1) in Ha. eauto.
Qed.

(** C6: a registration for a wallet that [getAgentByWallet] resolves to an
    agent changes nothing: no agent is created and the gateway is not asked
    to verify anything, whatever the transaction named would verify to.  The
    answer is a 400; for a body that passes the schema (the wallet of the
    agent did), with an address [isValidWalletAddress] accepts, it is the
    already-registered error. *)
Theorem register_bound_wallet_rejected (e : Env) (b : RegisterAgent) (w : World)
    (agent : Agent) :
  getAgentByWallet (ra_wallet b) (store w) = Some agent →
  (post_agent_register PublicKey_ok e b w).2 = w
  ∧ status (post_agent_register PublicKey_ok e b w).1 = 400%nat
  ∧ (is_Some (registerAgentSchema b) →
     isValidWalletAddress PublicKey_ok (ra_wallet b) = true →
     (post_agent_register PublicKey_ok e b w).1
     = json 400 (JError "Wallet already registered as an agent")).
Proof.
  intros Hbound. unfold post_agent_register, isValidWalletAddress.
  destruct (registerAgentSchema b) as [data|] eqn:Hschema.
  - assert (data = b) as ->.
    { unfold registerAgentSchema in Hschema.
      destruct (_ && _); congruence. }
    destruct (PublicKey_ok (ra_wallet b)); simpl.
    + rewrite Hbound. auto.
    + split; [reflexivity|]. split; [reflexivity|]. discriminate.
  - split; [reflexivity|]. split; [reflexivity|]. intros [? ?]; discriminate.
Qed.

(** C7: [verifyTransfer] answers [valid] exactly when Helius returns the
    transaction, the transaction carries no error, and one of its native
    transfers goes from [fromWallet] to [toWallet] with an amount that is,
    as a number, at least the product of numbers [minAmount * 1e9]; every
    other answer is invalid and names a reason.  Registration asks for
    0.1 SOL to the registration wallet, a threshold of 10^8 lamports exactly,
    and when the verification is invalid, as it is for a transaction whose
    transfers are all below the fee, no agent is created and the answer is
    a 400. *)
Theorem verifyTransfer_valid_iff_matching_transfer (e : Env)
    (txSignature fromWallet toWallet : string) (minAmount : Q) :
  let v := verifyTransfer e txSignature fromWallet toWallet minAmount in
  (valid v = true ↔
     ∃ tx rest,
       helius_transactions e txSignature = FetchOk (tx :: rest)
       ∧ truthy_string (transactionError tx) = false
       ∧ ∃ tr, tr ∈ default [] (nativeTransfers tx)
               ∧ fromUserAccount tr = fromWallet
               ∧ toUserAccount tr = toWallet
               ∧ js_ge (Number (amount tr))
                   (js_mul (Number minAmount) (Number 1000000000)) = true)
  ∧ (valid v = false → ∃ reason, tv_error v = Some reason)
  ∧ verifyRegistrationPayment e txSignature fromWallet
    = verifyTransfer e txSignature fromWallet REGISTRATION_WALLET (1 # 10)
  ∧ js_mul (Number (1 # 10)) (Number 1000000000) = Number 100000000
  ∧ ((∀ tx rest tr,
        helius_transactions e txSignature = FetchOk (tx :: rest) →
        tr ∈ default [] (nativeTransfers tx) →
        js_ge (Number (amount tr)) (Number 100000000) = false) →
     valid (verifyRegistrationPayment e txSignature fromWallet) = false)
  ∧ (∀ (b : RegisterAgent) (w : World),
       valid (verifyRegistrationPayment e (ra_txSignature b) (ra_wallet b)) = false →
       store (post_agent_register PublicKey_ok e b w).2 = store w
       ∧ status (post_agent_register PublicKey_ok e b w).1 = 400%nat).
Proof.
  simpl.
  destruct (verifyTransfer_valid_iff e txSignature fromWallet toWallet minAmount)
    as [Hiff Hreason].
  split; [exact Hiff|]. split; [exact Hreason|]. split; [reflexivity|].
  split; [exact registration_threshold|]. split.
  - intros Hlow. apply not_true_is_false. intros Hvalid.
    apply (verifyTransfer_valid_iff e txSignature fromWallet REGISTRATION_WALLET
             REGISTRATION_FEE) in Hvalid
      as (tx & rest & Hfetch & _ & tr & Htr & _ & _ & Hamount).
    specialize (Hlow tx rest tr Hfetch Htr).
    rewrite registration_threshold in Hamount. congruence.
  - intros b w Hinvalid. unfold post_agent_register.
    destruct (registerAgentSchema b) as [data|] eqn:Hschema; [|auto].
    assert (data = b) as ->.
    { unfold registerAgentSchema in Hschema. destruct (_ && _); congruence. }
    destruct (negb _); [auto|].
    destruct (getAgentByWallet _ _); [auto|].
    rewrite Hinvalid; simpl. auto.
Qed.

(** ** Every request has one of the listed effects *)

#[local] Arguments createTask : simpl never.
#[local] Arguments updateTask : simpl never.
#[local] Arguments deleteTask : simpl never.
#[local] Arguments createApplication : simpl never.
#[local] Arguments updateApplication : simpl never.
#[local] Arguments createAgent : simpl never.
#[local] Arguments incrementTaskCompletions : simpl never.
#[local] Arguments incrementAgentTasksCreated : simpl never.
#[local] Arguments incrementStat : simpl never.
#[local] Arguments sendPayment : simpl never.
#[local] Arguments verifyRegistrationPayment : simpl never.

Lemma sendPayment_success (e : Env) (toWallet : string) (amountSOL : Q) :
  success (sendPayment PublicKey_ok e toWallet amountSOL) = true →
  ∃ sig, sendPayment PublicKey_ok e toWallet amountSOL
         = {| success := true; pr_signature := Some sig; pr_error := None |}.
Proof.
  unfold sendPayment. destruct (getTreasuryKeypair e); [|discriminate].
  destruct (PublicKey_ok toWallet); [|discriminate].
  destruct (u64 _); [|discriminate].
  destruct (sendAndConfirmTransaction _ _ _ _); [eauto|discriminate].
Qed.

(** Names the store a storage call returns by the call itself. *)
Ltac name_result :=
  match goal with
  | H : ?call = (_, ?s) |- context [?s] =>
    let E := fresh in
    pose proof (f_equal snd H) as E; simpl in E; rewrite <- E; clear E
  end.

Lemma post_applications_effect (e : Env) (r : Request) (b : InsertApplication)
    (w : World) :
  effect PublicKey_ok e r w (post_applications PublicKey_ok e b w).2.
Proof.
  unfold post_applications.
  repeat (case_match; cbn; try apply effect_none).
  all: name_result; eapply effect_application_created; eassumption.
Qed.

Lemma put_admin_application_effect (e : Env) (p : option string) (id : string)
    (st : option string) (w : World) :
  effect PublicKey_ok e (PUT_admin_application p id st) w
    (put_admin_application PublicKey_ok e id st w).2.
Proof.
  unfold put_admin_application.
  destruct (review_status st) as [s|] eqn:Hst; [|apply effect_none].
  destruct (getApplication id (store w)) as [a|] eqn:Ha; [|apply effect_none].
  destruct (bool_decide (app_status a = pending)) eqn:Hp; [|apply effect_none].
  apply bool_decide_eq_true in Hp. cbn.
  destruct (bool_decide (s = approved)) eqn:Hs.
  - apply bool_decide_eq_true in Hs. subst s.
    destruct (getTask (app_taskId a) (store w)) as [task|] eqn:Ht; [|apply effect_none].
    destruct (success _) eqn:Hpay; cbn.
    + destruct (sendPayment_success _ _ _ Hpay) as [sig Hsig].
      destruct (updateApplication _ _ _) as [upd s3] eqn:Hupd. cbn.
      name_result. rewrite Hsig at 2. cbn.
      eapply effect_approved; eauto.
    + apply effect_payment_failed. assumption.
  - apply bool_decide_eq_false in Hs.
    destruct (review_status_cases _ _ Hst) as [->| ->]; [contradiction|].
    destruct (updateApplication _ _ _) as [upd s1] eqn:Hupd. cbn.
    name_result. eapply effect_rejected; eauto.
Qed.

Lemma handle_effect (e : Env) (r : Request) (w : World) :
  effect PublicKey_ok e r w (handle e r w).2.
Proof.
  destruct r; cbn; unfold adminAuth, agentAuth, get_task;
    try apply effect_none;
    repeat (case_match; cbn; try apply effect_none);
    try apply post_applications_effect;
    try apply put_admin_application_effect.
  - (* POST /api/agent/register *)
    unfold post_agent_register.
    repeat (case_match; cbn; try apply effect_none).
    + apply effect_verify_failed.
    + name_result. apply effect_agent_created.
  - (* POST /api/agent/tasks *)
    unfold post_agent_tasks.
    repeat (case_match; cbn; try apply effect_none).
    name_result. eapply effect_agent_task_created; eassumption.
  - (* POST /api/admin/tasks *)
    unfold post_admin_tasks.
    repeat (case_match; cbn; try apply effect_none).
    name_result. eapply effect_task_created; eassumption.
  - (* PUT /api/admin/tasks/:id *)
    unfold put_admin_task.
    repeat (case_match; cbn; try apply effect_none).
    name_result. eapply effect_task_updated; reflexivity.
  - (* DELETE /api/admin/tasks/:id *)
    unfold delete_admin_task.
    repeat (case_match; cbn; try apply effect_none).
    name_result. eapply effect_task_deleted; reflexivity.
Qed.

(** ** What the storage operations leave alone *)

Lemma updateApplication_Some (id : string) (u : ApplicationUpdates) (s : Store)
    (a : Application) :
  getApplication id s = Some a →
  updateApplication id u s
  = (Some (merge_application a u id),
     set_applications s (<[id := merge_application a u id]> (applications s))
       (all_applications s)
       match au_status u with
       | Some st =>
         if decide (st = pending) then pending_applications s
         else pending_applications s ∖ {[id]}
       | None => pending_applications s
       end
       (task_applications s)).
Proof. unfold updateApplication. intros ->. reflexivity. Qed.

Lemma updateTask_Some (id : string) (u : TaskUpdates) (s : Store) (task : Task) :
  getTask id s = Some task →
  updateTask id u s
  = (Some (merge_task task u id),
     set_tasks s (<[id := merge_task task u id]> (tasks s)) (all_tasks s)
       match tu_active u with
       | Some true => {[id]} ∪ active_tasks s
       | Some false => active_tasks s ∖ {[id]}
       | None => active_tasks s
       end).
Proof. unfold updateTask. intros ->. reflexivity. Qed.

Lemma updateTask_None (id : string) (u : TaskUpdates) (s : Store) :
  getTask id s = None → updateTask id u s = (None, s).
Proof. unfold updateTask. intros ->. reflexivity. Qed.

Lemma incrementTaskCompletions_Some (id : string) (s : Store) (task : Task) :
  getTask id s = Some task →
  incrementTaskCompletions id s
  = incrementStat K_totalCompletedTasks 1
      (set_tasks s
         (<[id := merge_task task
                    (only_totalCompletions (task_totalCompletions task + 1)) id]>
            (tasks s))
         (all_tasks s) (active_tasks s)).
Proof.
  intros H. unfold incrementTaskCompletions. rewrite H.
  rewrite (updateTask_Some _ _ _ _ H). reflexivity.
Qed.

Lemma updateTask_frame (id : string) (u : TaskUpdates) (s : Store) :
  applications (updateTask id u s).2 = applications s
  ∧ stats (updateTask id u s).2 = stats s.
Proof. unfold updateTask. destruct (getTask id s); auto. Qed.

Lemma deleteTask_frame (id : string) (s : Store) :
  applications (deleteTask id s).2 = applications s
  ∧ stats (deleteTask id s).2 = stats s.
Proof. unfold deleteTask. destruct (getTask id s); auto. Qed.


(** ** The shape of the application records *)

Lemma effect_applications_wf (e : Env) (r : Request) (w w' : World) :
  effect PublicKey_ok e r w w' →
  applications_wf (store w) → applications_wf (store w').
Proof.
  intros Heff Hwf. unfold applications_wf, getApplication in *.
  destruct Heff as
    [ | txSignature fromWallet | toWallet amountSOL result Hfail
    | b data Hschema | b data agentId Hschema | p tid b Hr | p tid Hr
    | data task Htask | data paymentAmount
    | p aid st a Hr Hst Ha Hp | p aid st a task sig Hr Hst Ha Hp Htask Hpay ];
    cbn; try assumption.
  - rewrite (proj1 (incrementAgentTasksCreated_frame _ _)). assumption.
  - rewrite (proj1 (updateTask_frame _ _ _)). assumption.
  - rewrite (proj1 (deleteTask_frame _ _)). assumption.
  - intros id' a' Hlook. unfold createApplication, incrementStat in Hlook.
    cbn in Hlook.
    apply lookup_insert_Some in Hlook as [[_ <-]|[_ Hlook]]; [|eauto].
    unfold app_wf; cbn. auto.
  - rewrite (updateApplication_Some _ _ _ _ Ha). cbn.
    intros id' a' Hlook.
    apply lookup_insert_Some in Hlook as [[_ <-]|[_ Hlook]]; [|eauto].
    specialize (Hwf _ _ Ha). unfold app_wf in *. rewrite Hp in Hwf. cbn.
    destruct Hwf as (_ & -> & ->). eauto.
  - rewrite (incrementTaskCompletions_Some _ _ _ Htask).
    erewrite updateApplication_Some by exact Ha. unfold incrementStat; cbn.
    intros id' a' Hlook.
    apply lookup_insert_Some in Hlook as [[_ <-]|[_ Hlook]]; [|eauto].
    unfold app_wf; cbn. eauto.
Qed.

Lemma reachable_applications_wf (w : World) :
  reachable w → applications_wf (store w).
Proof.
  induction 1 as [|e r w Hreach IH Hfresh].
  - intros id a H. unfold getApplication in H; cbn in H.
    rewrite lookup_empty in H. discriminate.
  - eapply effect_applications_wf; [apply handle_effect|assumption].
Qed.

(** C5: in every reachable state a stored application carries a transaction
    signature and a payment time exactly when it is approved: a pending one
    (as [createApplication] makes them) has no review time, payment time or
    signature, a rejected one has a review time and neither of the other
    two, an approved one has all three; and a review that answers 200
    stores the application with the status asked for, in that shape. *)
Theorem payment_fields_iff_approved (w : World) (id : string) (a : Application) :
  reachable w →
  getApplication id (store w) = Some a →
  (is_Some (app_txSignature a) ∧ is_Some (app_paidAt a) ↔ app_status a = approved)
  ∧ (app_status a = pending →
     app_reviewedAt a = None ∧ app_paidAt a = None ∧ app_txSignature a = None)
  ∧ (app_status a = rejected →
     is_Some (app_reviewedAt a) ∧ app_paidAt a = None ∧ app_txSignature a = None)
  ∧ (app_status a = approved →
     is_Some (app_reviewedAt a) ∧ is_Some (app_paidAt a)
     ∧ is_Some (app_txSignature a))
  ∧ (∀ (uuid : string) (now : Z) (ins : InsertApplication)
       (title proofType : string),
       let created := (createApplication uuid now ins title proofType (store w)).1 in
       app_status created = pending
       ∧ app_paidAt created = None ∧ app_txSignature created = None)
  ∧ (∀ (e : Env) (st : option string),
       status (review e id st w).1 = 200%nat →
       ∃ s a',
         review_status st = Some s
         ∧ getApplication id (store (review e id st w).2) = Some a'
         ∧ app_status a' = s
         ∧ app_wf a').
Proof.
  intros Hreach Ha.
  pose proof (reachable_applications_wf w Hreach) as Hwf.
  pose proof (Hwf id a Ha) as Hshape. unfold app_wf in Hshape.
  split; [|split; [|split; [|split; [|split]]]].
  - split.
    + intros [[x Hx] [y Hy]].
      destruct (app_status a); [|reflexivity|];
        destruct Hshape as (_ & Hpaid & _); congruence.
    + intros Happ. rewrite Happ in Hshape. tauto.
  - intros Happ. rewrite Happ in Hshape. exact Hshape.
  - intros Happ. rewrite Happ in Hshape. exact Hshape.
  - intros Happ. rewrite Happ in Hshape. exact Hshape.
  - intros uuid now ins title proofType. cbn. auto.
  - intros e st Hok. rewrite handle_review in Hok |- *.
    destruct (review_ok_inv _ _ _ _ Hok) as (s & a0 & a' & Hs & _ & _ & Ha' & Hst).
    exists s, a'. repeat split; try assumption.
    pose proof (put_admin_application_effect e None id st w) as Heff.
    apply (effect_applications_wf _ _ _ _ Heff Hwf id a' Ha').
Qed.

(** C1: approving a pending application whose task is gone, or for which
    [sendPayment] reports a failure, answers with an error (404, or 500 with
    the reason) and leaves the store as it was: the application is still
    the pending record it was, without review time, payment time or
    signature, no task and no counter of the statistics has changed. *)
Theorem failed_approval_commits_nothing (e : Env) (id : string) (w : World)
    (a : Application) :
  reachable w →
  getApplication id (store w) = Some a →
  app_status a = pending →
  (getTask (app_taskId a) (store w) = None
   ∨ ∃ task,
       getTask (app_taskId a) (store w) = Some task
       ∧ success (sendPayment PublicKey_ok e (app_walletAddress a)
                    (task_reward task)) = false) →
  let r := (review e id (Some "approved") w).1 in
  let w' := (review e id (Some "approved") w).2 in
  (r = json 404 (JError "Associated task not found")
   ∨ ∃ details, r = json 500 (JErrorDetails "Failed to send payment" details))
  ∧ store w' = store w
  ∧ getApplication id (store w') = Some a
  ∧ app_reviewedAt a = None ∧ app_paidAt a = None ∧ app_txSignature a = None
  ∧ (∀ taskId, getTask taskId (store w') = getTask taskId (store w))
  ∧ getStats (store w') = getStats (store w).
Proof.
  intros Hreach Ha Hp Hfail.
  pose proof (reachable_applications_wf w Hreach id a Ha) as Hshape.
  unfold app_wf in Hshape. rewrite Hp in Hshape. destruct Hshape as (Hrev & Hpaid & Hsig).
  cbn zeta. rewrite handle_review. unfold put_admin_application.
  change (review_status (Some "approved")) with (Some approved).
  rewrite Ha, Hp.
  rewrite (bool_decide_eq_true_2 (pending = pending)) by reflexivity.
  rewrite (bool_decide_eq_true_2 (approved = approved)) by reflexivity. cbn.
  destruct Hfail as [Hmissing|(task & Htask & Hpay)].
  - rewrite Hmissing; cbn. rewrite Ha.
    split; [left; reflexivity|]. repeat (split; [first [reflexivity|assumption]|]).
    split; reflexivity.
  - rewrite Htask, Hpay; cbn. rewrite Ha.
    split; [right; eexists; reflexivity|].
    repeat (split; [first [reflexivity|assumption]|]).
    split; reflexivity.
Qed.

(** ** The counters of the approval flow *)

Lemma approved_count_insert_unapproved (m : gmap string Application) (id : string)
    (a : Application) :
  app_status a ≠ approved →
  (∀ y, m !! id = Some y → app_status y ≠ approved) →
  size (filter is_approved (<[id := a]> m)) = size (filter is_approved m).
Proof.
  intros Ha Hold. rewrite map_filter_insert_not'; [reflexivity|exact Ha|].
  intros y Hy. exact (Hold y Hy).
Qed.

Lemma approved_count_insert_approved (m : gmap string Application) (id : string)
    (a a0 : Application) :
  m !! id = Some a0 → app_status a0 ≠ approved → app_status a = approved →
  size (filter is_approved (<[id := a]> m)) = S (size (filter is_approved m)).
Proof.
  intros Hlook Hold Ha. rewrite map_filter_insert_True by exact Ha.
  apply map_size_insert_None. apply map_lookup_filter_None_2. right.
  intros y Hy. rewrite Hlook in Hy. injection Hy as <-. exact Hold.
Qed.

Lemma Q_succ (q : Q) (n : nat) :
  (q == inject_Z (Z.of_nat n))%Q → (q + 1 == inject_Z (Z.of_nat (S n)))%Q.
Proof.
  intros ->. rewrite Nat2Z.inj_succ. unfold Z.succ. rewrite inject_Z_plus.
  reflexivity.
Qed.

Lemma effect_accounts_balanced (e : Env) (r : Request) (w w' : World) :
  effect PublicKey_ok e r w w' →
  fresh e w → accounts_balanced w → accounts_balanced w'.
Proof.
  intros Heff (_ & Hfresh & _) (Hdone & Hpaid & Hsent).
  unfold accounts_balanced, approved_count in *.
  destruct Heff as
    [ | txSignature fromWallet | toWallet amountSOL result Hfail
    | b data Hschema | b data agentId Hschema | p tid b Hr | p tid Hr
    | data task Htask | data paymentAmount
    | p aid st a Hr Hst Ha Hp | p aid st a task sig Hr Hst Ha Hp Htask Hpay ].
  - auto.
  - auto.
  - cbn. rewrite Hfail. auto.
  - auto.
  - cbn. destruct (incrementAgentTasksCreated_frame agentId
                     (createTask (uuidv4 e) (Date_now e 0) data (store w)).2)
      as (-> & -> & _). auto.
  - cbn. destruct (updateTask_frame tid b (store w)) as (-> & ->). auto.
  - cbn. destruct (deleteTask_frame tid (store w)) as (-> & ->). auto.
  - unfold createApplication, incrementStat; cbn.
    rewrite approved_count_insert_unapproved; [auto|discriminate|].
    intros y Hy. rewrite Hfresh in Hy. discriminate.
  - auto.
  - rewrite (updateApplication_Some _ _ _ _ Ha). cbn.
    rewrite approved_count_insert_unapproved; [auto|discriminate|].
    intros y Hy. unfold getApplication in Ha. rewrite Ha in Hy.
    injection Hy as <-. rewrite Hp. discriminate.
  - rewrite (incrementTaskCompletions_Some _ _ _ Htask).
    erewrite updateApplication_Some by exact Ha.
    unfold incrementStat; cbn. rewrite Hpay; cbn.
    unfold getApplication in Ha.
    rewrite (approved_count_insert_approved _ _ _ a Ha);
      [|rewrite Hp; discriminate|reflexivity].
    split; [apply Q_succ; exact Hdone|]. split; [rewrite Hpaid; reflexivity|].
    rewrite Hsent. reflexivity.
Qed.

Lemma reachable_accounts_balanced (w : World) :
  reachable w → accounts_balanced w.
Proof.
  induction 1 as [|e r w Hreach IH Hfresh].
  - unfold accounts_balanced, approved_count; cbn.
    rewrite map_filter_empty, map_size_empty. split; [reflexivity|]. auto.
  - eapply effect_accounts_balanced; [apply handle_effect|assumption|assumption].
Qed.

(** An approval that answers 200 asked the gateway once, for the reward of
    the task as it stood, to the wallet of the application. *)
Lemma approval_pays_current_reward (e : Env) (id : string) (st : option string)
    (w : World) :
  review_status st = Some approved →
  status (put_admin_application PublicKey_ok e id st w).1 = 200%nat →
  ∃ a task,
    getApplication id (store w) = Some a
    ∧ getTask (app_taskId a) (store w) = Some task
    ∧ success (sendPayment PublicKey_ok e (app_walletAddress a) (task_reward task))
      = true
    ∧ calls (put_admin_application PublicKey_ok e id st w).2
      = SendPayment (app_walletAddress a) (task_reward task)
          (sendPayment PublicKey_ok e (app_walletAddress a) (task_reward task))
        :: calls w.
Proof.
  intros Hst. unfold put_admin_application. rewrite Hst.
  destruct (getApplication id (store w)) as [a|] eqn:Ha; [|discriminate].
  destruct (bool_decide (app_status a = pending)); [|discriminate]. cbn.
  rewrite (bool_decide_eq_true_2 (approved = approved)) by reflexivity.
  destruct (getTask (app_taskId a) (store w)) as [task|] eqn:Htask; [|discriminate].
  destruct (success _) eqn:Hpay; [|discriminate]. cbn.
  destruct (updateApplication _ _ _) as [upd s3]. cbn.
  intros _. exists a, task. auto.
Qed.

(** ** What a request does to the task records *)

Lemma effect_tasks (e : Env) (r : Request) (w w' : World) :
  effect PublicKey_ok e r w w' →
  tasks (store w') = tasks (store w)
  ∨ (∃ b data,
       insertTaskSchema b = Some data
       ∧ tasks (store w')
         = <[uuidv4 e := (createTask (uuidv4 e) (Date_now e 0) data (store w)).1]>
             (tasks (store w)))
  ∨ (∃ p tid b task,
       r = PUT_admin_task p tid b
       ∧ tasks (store w) !! tid = Some task
       ∧ tasks (store w') = <[tid := merge_task task b tid]> (tasks (store w)))
  ∨ (∃ tid, tasks (store w') = delete tid (tasks (store w)))
  ∨ (∃ p aid st tid task,
       r = PUT_admin_application p aid st
       ∧ review_status st = Some approved
       ∧ tasks (store w) !! tid = Some task
       ∧ tasks (store w')
         = <[tid := merge_task task
                      (only_totalCompletions (task_totalCompletions task + 1)) tid]>
             (tasks (store w))).
Proof.
  intros Heff.
  destruct Heff as
    [ | txSignature fromWallet | toWallet amountSOL result Hfail
    | b data Hschema | b data agentId Hschema | p tid b Hr | p tid Hr
    | data task Htask | data paymentAmount
    | p aid st a Hr Hst Ha Hp | p aid st a task sig Hr Hst Ha Hp Htask Hpay ].
  - auto.
  - auto.
  - auto.
  - right; left. exists b, data. auto.
  - right; left. exists b, data. split; [assumption|]. cbn.
    rewrite (proj2 (proj2 (incrementAgentTasksCreated_frame _ _))). reflexivity.
  - cbn. destruct (getTask tid (store w)) as [task|] eqn:Htask.
    + right; right; left. exists p, tid, b, task.
      rewrite (updateTask_Some _ _ _ _ Htask). auto.
    + rewrite (updateTask_None _ _ _ Htask). auto.
  - cbn. unfold deleteTask. destruct (getTask tid (store w)); [|auto].
    right; right; right; left. exists tid. reflexivity.
  - auto.
  - auto.
  - left. cbn. rewrite (updateApplication_Some _ _ _ _ Ha). reflexivity.
  - right; right; right; right. exists p, aid, st, (app_taskId a), task.
    split; [assumption|]. split; [assumption|]. split; [exact Htask|].
    rewrite (incrementTaskCompletions_Some _ _ _ Htask).
    erewrite updateApplication_Some by exact Ha. reflexivity.
Qed.

(** ** The payouts counter while no task is edited *)

Lemma current_reward_ext (s s' : Store) (a : Application) :
  task_reward <$> tasks s' !! app_taskId a = task_reward <$> tasks s !! app_taskId a →
  current_reward s' a = current_reward s a.
Proof.
  unfold current_reward, getTask.
  destruct (tasks s' !! app_taskId a), (tasks s !! app_taskId a); cbn; congruence.
Qed.

Lemma rewards_sum_tasks_ext (s s' : Store) :
  (∀ tid, is_Some (tasks s !! tid) →
          task_reward <$> tasks s' !! tid = task_reward <$> tasks s !! tid) →
  tasks_present s →
  rewards_sum (current_reward s') (applications s)
  = rewards_sum (current_reward s) (applications s).
Proof.
  intros Hrewards Hpresent. apply rewards_sum_ext. intros id a Ha.
  apply current_reward_ext, Hrewards. exact (Hpresent id a Ha).
Qed.

Lemma payouts_current_frame (s s' : Store) :
  applications s' = applications s →
  (∀ tid, is_Some (tasks s !! tid) →
          task_reward <$> tasks s' !! tid = task_reward <$> tasks s !! tid) →
  totalPayouts (stats s') = totalPayouts (stats s) →
  tasks_present s ∧ (totalPayouts (stats s) == approved_rewards s)%Q →
  tasks_present s' ∧ (totalPayouts (stats s') == approved_rewards s')%Q.
Proof.
  intros Happs Hrewards Hstats [Hpresent Hpaid]. split.
  - intros id a Ha. unfold tasks_present, getApplication, getTask in *.
    rewrite Happs in Ha.
    specialize (Hpresent id a Ha). specialize (Hrewards _ Hpresent).
    destruct (tasks s' !! app_taskId a); [eauto|].
    destruct Hpresent as [t Ht]. rewrite Ht in Hrewards. discriminate.
  - unfold approved_rewards. rewrite Hstats, Happs.
    rewrite (rewards_sum_tasks_ext s s' Hrewards Hpresent). exact Hpaid.
Qed.

Lemma effect_payouts_current (e : Env) (r : Request) (w w' : World) :
  effect PublicKey_ok e r w w' →
  edits_tasks r = false → fresh e w →
  tasks_present (store w)
  ∧ (totalPayouts (stats (store w)) == approved_rewards (store w))%Q →
  tasks_present (store w')
  ∧ (totalPayouts (stats (store w')) == approved_rewards (store w'))%Q.
Proof.
  intros Heff Hedit (Hfresh_task & Hfresh_app & _) Hinv.
  assert (∀ data,
            tasks_present
              (createTask (uuidv4 e) (Date_now e 0) data (store w)).2
            ∧ (totalPayouts
                 (stats (createTask (uuidv4 e) (Date_now e 0) data (store w)).2)
               == approved_rewards
                    (createTask (uuidv4 e) (Date_now e 0) data (store w)).2)%Q)
    as Hcreated.
  { intros data. apply (payouts_current_frame (store w)); try reflexivity; [|exact Hinv].
    intros tid [t Ht]. unfold createTask, incrementStat; cbn.
    rewrite lookup_insert_ne by congruence. reflexivity. }
  destruct Heff as
    [ | txSignature fromWallet | toWallet amountSOL result Hfail
    | b data Hschema | b data agentId Hschema | p tid b Hr | p tid Hr
    | data task Htask | data paymentAmount
    | p aid st a Hr Hst Ha Hp | p aid st a task sig Hr Hst Ha Hp Htask Hpay ].
  - exact Hinv.
  - exact Hinv.
  - exact Hinv.
  - apply Hcreated.
  - cbn. destruct (incrementAgentTasksCreated_frame agentId
                     (createTask (uuidv4 e) (Date_now e 0) data (store w)).2)
      as (Happs & Hstats & Htasks).
    apply (payouts_current_frame
             (createTask (uuidv4 e) (Date_now e 0) data (store w)).2);
      [exact Happs|rewrite Htasks; reflexivity|rewrite Hstats; reflexivity
      |apply Hcreated].
  - subst r. discriminate Hedit.
  - subst r. discriminate Hedit.
  - destruct Hinv as [Hpresent Hpaid]. unfold createApplication, incrementStat.
    cbn. split.
    + intros id' a' Ha'. unfold getApplication, getTask in *; cbn in *.
      apply lookup_insert_Some in Ha' as [[_ <-]|[_ Ha']]; cbn; eauto.
    + unfold approved_rewards; cbn.
      rewrite (rewards_sum_ext _ (current_reward (store w))) by reflexivity.
      rewrite rewards_sum_insert_fresh by exact Hfresh_app. cbn. exact Hpaid.
  - exact Hinv.
  - destruct Hinv as [Hpresent Hpaid].
    rewrite (updateApplication_Some _ _ _ _ Ha). cbn. split.
    + intros id' a' Ha'. unfold getApplication, getTask in *; cbn in *.
      apply lookup_insert_Some in Ha' as [[_ <-]|[_ Ha']]; cbn; eauto.
    + unfold approved_rewards; cbn.
      rewrite (rewards_sum_ext _ (current_reward (store w))) by reflexivity.
      unfold getApplication in Ha.
      rewrite (rewards_sum_insert _ _ _ a) by (rewrite ?Hp; done).
      cbn. exact Hpaid.
  - destruct Hinv as [Hpresent Hpaid].
    rewrite (incrementTaskCompletions_Some _ _ _ Htask).
    erewrite updateApplication_Some by exact Ha.
    unfold incrementStat; cbn. split.
    + intros id' a' Ha'. unfold getApplication, getTask in *; cbn in *.
      apply lookup_insert_is_Some'.
      apply lookup_insert_Some in Ha' as [[_ <-]|[_ Ha']]; cbn; eauto.
    + unfold approved_rewards; cbn. unfold getApplication, getTask in *.
      rewrite (rewards_sum_insert _ _ _ a) by (rewrite ?Hp; done). cbn.
      match goal with |- context [rewards_sum (current_reward ?s') _] =>
        rewrite (rewards_sum_tasks_ext (store w) s') end.
      * rewrite Hpaid. unfold current_reward at 2, getTask; cbn.
        rewrite lookup_insert_eq. cbn. reflexivity.
      * intros tid' [t Ht]. cbn.
        destruct (decide (app_taskId a = tid')) as [<-|Hne].
        -- rewrite lookup_insert_eq, Htask. reflexivity.
        -- rewrite lookup_insert_ne by exact Hne. reflexivity.
      * exact Hpresent.
Qed.

Lemma unedited_reachable (w : World) :
  reachable_unedited ADMIN_PASSWORD PublicKey_ok w → reachable w.
Proof.
  induction 1 as [|e r w _ IH _ Hfresh]; [apply reachable_empty|].
  apply reachable_handle; assumption.
Qed.

Lemma unedited_payouts_current (w : World) :
  reachable_unedited ADMIN_PASSWORD PublicKey_ok w →
  tasks_present (store w)
  ∧ (totalPayouts (stats (store w)) == approved_rewards (store w))%Q.
Proof.
  induction 1 as [|e r w Hreach IH Hedit Hfresh].
  - split; [|reflexivity]. intros id a Ha. unfold getApplication in Ha.
    cbn in Ha. rewrite lookup_empty in Ha. discriminate.
  - eapply effect_payouts_current; [apply handle_effect|assumption..].
Qed.

(** C4: in every reachable state (requests one after the other, each
    drawing an unused uuid) [totalCompletedTasks] is the number of approved
    applications and [totalPayouts] is the sum of the amounts of the
    payments that succeeded, of which there is one per approved
    application; each approval that answers 200 sends one payment, of the
    reward the task has at that moment, to the wallet of the application.
    As long as the admin has not edited or deleted a task, [totalPayouts]
    is the sum, over the approved applications, of the reward of their
    task. *)
Theorem counters_match_approvals_and_payments (w : World) :
  reachable w →
  (totalCompletedTasks (getStats (store w))
   == inject_Z (Z.of_nat (approved_count (store w))))%Q
  ∧ totalPayouts (getStats (store w)) = paid_out (calls w)
  ∧ payments_made (calls w) = approved_count (store w)
  ∧ (∀ (e : Env) (id : string) (st : option string),
       review_status st = Some approved →
       status (review e id st w).1 = 200%nat →
       ∃ a task,
         getApplication id (store w) = Some a
         ∧ getTask (app_taskId a) (store w) = Some task
         ∧ success (sendPayment PublicKey_ok e (app_walletAddress a)
                      (task_reward task)) = true
         ∧ calls (review e id st w).2
           = SendPayment (app_walletAddress a) (task_reward task)
               (sendPayment PublicKey_ok e (app_walletAddress a) (task_reward task))
             :: calls w)
  ∧ (reachable_unedited ADMIN_PASSWORD PublicKey_ok w →
     (totalPayouts (getStats (store w)) == approved_rewards (store w))%Q).
Proof.
  intros Hreach.
  destruct (reachable_accounts_balanced w Hreach) as (Hdone & Hpaid & Hsent).
  repeat (split; [assumption|]).
  split.
  - intros e id st Hst Hok. rewrite handle_review in Hok |- *.
    apply approval_pays_current_reward; assumption.
  - intros Hunedited. apply (unedited_payouts_current w Hunedited).
Qed.

(** C9: the reward of a stored task is changed by the admin task update
    whose body carries a reward, which sets it to that reward, and by
    nothing else: after any other request (one that draws an unused uuid) a
    task that is still stored has the reward it had. *)
Theorem reward_changes_only_by_admin_update (e : Env) (r : Request) (w : World)
    (id : string) (task : Task) :
  fresh e w →
  getTask id (store w) = Some task →
  (∀ task',
     (∀ p tid b, r = PUT_admin_task p tid b → tu_reward b = None) →
     getTask id (store (handle e r w).2) = Some task' →
     task_reward task' = task_reward task)
  ∧ (∀ b reward,
       r = PUT_admin_task (Some ADMIN_PASSWORD) id b →
       tu_reward b = Some reward →
       task_reward <$> getTask id (store (handle e r w).2) = Some reward).
Proof.
  intros (Hfresh & _ & _) Htask. split.
  - intros task' Hr Htask'. unfold getTask in *.
    destruct (effect_tasks e r w _ (handle_effect e r w))
      as [Heq|[(b & data & _ & Heq)|[(p & tid & b & task0 & -> & Hold & Heq)
         |[(tid & Heq)|(p & aid & st & tid & task0 & _ & _ & Hold & Heq)]]]];
      rewrite Heq in Htask'.
    + congruence.
    + rewrite lookup_insert_ne in Htask' by congruence. congruence.
    + apply lookup_insert_Some in Htask' as [[<- <-]|[_ Htask']]; [|congruence].
      cbn. rewrite (Hr _ _ _ eq_refl). cbn. congruence.
    + apply lookup_delete_Some in Htask' as [_ Htask']. congruence.
    + apply lookup_insert_Some in Htask' as [[<- <-]|[_ Htask']]; [|congruence].
      cbn. congruence.
  - intros b reward -> Hb. cbn. rewrite adminAuth_ok. unfold put_admin_task.
    rewrite Htask. rewrite (updateTask_Some _ _ _ _ Htask). cbn.
    unfold getTask; cbn. rewrite lookup_insert_eq. cbn. rewrite Hb. reflexivity.
Qed.

(** C2: the number of completions is checked against [maxCompletions] when
    an application is submitted: a submission for a stored, active task
    whose [maxCompletions] is set (and not zero) and reached is answered
    with the no-slots error and changes nothing; and every request other
    than an approving review and the admin task update keeps every task
    that declares [maxCompletions] within it. *)
Theorem capacity_checked_at_submission :
  (∀ (e : Env) (b : InsertApplication) (w : World) (task : Task) (m : Z),
     is_Some (insertApplicationSchema b) →
     isValidWalletAddress PublicKey_ok (ia_walletAddress b) = true →
     getTask (ia_taskId b) (store w) = Some task →
     task_active task = true →
     task_maxCompletions task = Some m → m ≠ 0%Z →
     (m <= task_totalCompletions task)%Z →
     handle e (POST_applications b) w
     = (json 400 (JError "No slots available for this task"), w))
  ∧ (∀ (e : Env) (r : Request) (w : World),
       is_approval r = false → is_task_update r = false →
       within_capacity (store w) →
       within_capacity (store (handle e r w).2)).
Proof.
  split.
  - intros e b w task m [data Hschema] Hvalid Htask Hactive Hmax Hm Hfull.
    assert (data = b) as ->.
    { unfold insertApplicationSchema in Hschema. destruct (_ && _); congruence. }
    cbn. unfold post_applications, isValidWalletAddress in *.
    rewrite Hschema, Hvalid, Htask, Hactive, Hmax. cbn.
    rewrite (proj2 (Z.eqb_neq m 0) Hm), (proj2 (Z.leb_le _ _) Hfull). reflexivity.
  - intros e r w Happroval Hupdate Hcap id task' m Htask' Hmax.
    unfold within_capacity, getTask in *.
    destruct (effect_tasks e r w _ (handle_effect e r w))
      as [Heq|[(b & data & Hschema & Heq)|[(p & tid & b & task0 & -> & _)
         |[(tid & Heq)|(p & aid & st & tid & task0 & -> & Hst & _)]]]];
      try rewrite Heq in Htask'.
    + eauto.
    + apply lookup_insert_Some in Htask' as [[_ <-]|[_ Htask']]; [|eauto].
      unfold createTask in Hmax |- *. cbn in Hmax |- *.
      unfold insertTaskSchema in Hschema.
      destruct (_ && _) eqn:Hchecks; [|discriminate].
      injection Hschema as <-. cbn in Hmax.
      apply andb_true_iff in Hchecks as [_ Hpos]. rewrite Hmax in Hpos.
      apply Z.ltb_lt in Hpos. lia.
    + discriminate.
    + apply lookup_delete_Some in Htask' as [_ Htask']. eauto.
    + cbn in Happroval. rewrite bool_decide_eq_true_2 in Happroval by assumption.
      discriminate.
Qed.

End route_properties.

(** ** Runs of requests *)

Lemma reachable_run (ADMIN_PASSWORD : string) (PublicKey_ok : string → bool)
    (trace : list (Env * Request)) (w : World) :
  reachable ADMIN_PASSWORD PublicKey_ok w →
  fresh_run ADMIN_PASSWORD PublicKey_ok trace w →
  reachable ADMIN_PASSWORD PublicKey_ok (run ADMIN_PASSWORD PublicKey_ok trace w).
Proof.
  revert w. induction trace as [|[e r] trace IH]; intros w Hreach Hfresh; cbn.
  - exact Hreach.
  - destruct Hfresh as [Hfresh Hrest]. apply IH; [|exact Hrest].
    apply reachable_handle; assumption.
Qed.

Lemma unedited_run (ADMIN_PASSWORD : string) (PublicKey_ok : string → bool)
    (trace : list (Env * Request)) (w : World) :
  reachable_unedited ADMIN_PASSWORD PublicKey_ok w →
  fresh_run ADMIN_PASSWORD PublicKey_ok trace w →
  forallb (λ er, negb (edits_tasks er.2)) trace = true →
  reachable_unedited ADMIN_PASSWORD PublicKey_ok
    (run ADMIN_PASSWORD PublicKey_ok trace w).
Proof.
  revert w. induction trace as [|[e r] trace IH]; intros w Hreach Hfresh Hedit; cbn.
  - exact Hreach.
  - destruct Hfresh as [Hfresh Hrest]. cbn in Hedit.
    apply andb_true_iff in Hedit as [Hr Hedit]. apply negb_true_iff in Hr.
    apply IH; [|exact Hrest|exact Hedit].
    apply unedited_handle; assumption.
Qed.

Lemma unedited_world_two_approved :
  reachable_unedited default_password bs58_PublicKey_ok world_two_approved.
Proof.
  apply unedited_run; [apply unedited_empty| |reflexivity]. vm_compute. tauto.
Qed.

Lemma reachable_world_submitted :
  reachable default_password bs58_PublicKey_ok world_submitted.
Proof.
  apply reachable_run; [apply reachable_empty|]. vm_compute. tauto.
Qed.

Lemma reachable_world_two_approved :
  reachable default_password bs58_PublicKey_ok world_two_approved.
Proof.
  apply reachable_run; [apply reachable_empty|]. vm_compute. tauto.
Qed.

Lemma reachable_world_reward_edited :
  reachable default_password bs58_PublicKey_ok world_reward_edited.
Proof.
  apply reachable_run; [apply reachable_empty|]. vm_compute. tauto.
Qed.

Lemma reachable_world_registered :
  reachable default_password bs58_PublicKey_ok world_registered.
Proof.
  apply reachable_run; [apply reachable_empty|]. vm_compute. tauto.
Qed.

(** ** Examples *)

(** The scenario of the specification: a task of 0.05 SOL with one slot, one
    application, approved. *)
Example scenario_one_slot :
  let w1 := handle0 (env_paying "x1" 4000 0)
              (PUT_admin_application admin "a1" (Some "approved")) world_submitted in
  calls w1.2
  = [ SendPayment worker_wallet 0.05
        {| success := true; pr_signature := Some "sig-x1"; pr_error := None |} ]
  ∧ app_status <$> getApplication "a1" (store w1.2) = Some approved
  ∧ task_totalCompletions <$> getTask "t1" (store w1.2) = Some 1%Z
  ∧ (handle0 (env_paying "a2" 5000 0) (POST_applications (sample_application "t1"))
       w1.2).1
    = json 400 (JError "No slots available for this task").
Proof. vm_compute. auto. Qed.

Lemma register_bound_wallet_rejected_witness :
  (∃ agent, getAgentByWallet worker_wallet (store world_registered) = Some agent)
  ∧ (post_agent_register bs58_PublicKey_ok (env_paying "g2" 600 100000000)
       sample_registration world_registered).2 = world_registered.
Proof.
  assert (∃ agent, getAgentByWallet worker_wallet (store world_registered) = Some agent)
    as [agent Hagent].
  { eexists. vm_compute. reflexivity. }
  split; [exists agent; exact Hagent|].
  exact (proj1 (register_bound_wallet_rejected bs58_PublicKey_ok
                  (env_paying "g2" 600 100000000) sample_registration
                  world_registered agent Hagent)).
Defined.

Lemma payment_fields_iff_approved_witness :
  ∃ a,
    getApplication "a1" (store world_two_approved) = Some a
    ∧ (is_Some (app_txSignature a) ∧ is_Some (app_paidAt a)
       ↔ app_status a = approved).
Proof.
  assert (∃ a, getApplication "a1" (store world_two_approved) = Some a) as [a Ha].
  { eexists. vm_compute. reflexivity. }
  exists a. split; [exact Ha|].
  exact (proj1 (payment_fields_iff_approved default_password bs58_PublicKey_ok
                  world_two_approved "a1" a reachable_world_two_approved Ha)).
Defined.

Lemma failed_approval_commits_nothing_witness :
  store (handle0 (env_failing "x1" 4000)
           (PUT_admin_application admin "a1" (Some "approved")) world_submitted).2
  = store world_submitted.
Proof.
  assert (∃ a, getApplication "a1" (store world_submitted) = Some a
               ∧ app_status a = pending
               ∧ ∃ task, getTask (app_taskId a) (store world_submitted) = Some task
                         ∧ success (sendPayment bs58_PublicKey_ok (env_failing "x1" 4000)
                                      (app_walletAddress a) (task_reward task)) = false)
    as (a & Ha & Hp & Hfail).
  { eexists. split; [vm_compute; reflexivity|]. split; [reflexivity|].
    eexists. split; [vm_compute; reflexivity|]. vm_compute. reflexivity. }
  exact (proj1 (proj2 (failed_approval_commits_nothing default_password
                         bs58_PublicKey_ok (env_failing "x1" 4000) "a1"
                         world_submitted a reachable_world_submitted Ha Hp
                         (or_intror Hfail)))).
Defined.

Lemma counters_match_approvals_and_payments_witness :
  totalPayouts (getStats (store world_two_approved))
  = paid_out (calls world_two_approved)
  ∧ payments_made (calls world_two_approved)
    = approved_count (store world_two_approved)
  ∧ (totalPayouts (getStats (store world_two_approved))
     == approved_rewards (store world_two_approved))%Q.
Proof.
  pose proof (counters_match_approvals_and_payments default_password
                bs58_PublicKey_ok world_two_approved reachable_world_two_approved)
    as (_ & Hpaid & Hsent & _ & Hcurrent).
  exact (conj Hpaid (conj Hsent (Hcurrent unedited_world_two_approved))).
Defined.

Lemma reward_changes_only_by_admin_update_witness :
  task_reward <$>
    getTask "t1"
      (store (handle0 (env_paying "x1" 4000 0)
                (PUT_admin_application admin "a1" (Some "approved"))
                world_submitted).2)
  = Some 0.05%Q.
Proof.
  assert (fresh (env_paying "x1" 4000 0) world_submitted) as Hfresh.
  { vm_compute. tauto. }
  assert (∃ task, getTask "t1" (store world_submitted) = Some task
                  ∧ task_reward task = 0.05%Q) as (task & Htask & Hreward).
  { eexists. split; vm_compute; reflexivity. }
  assert (∃ task',
            getTask "t1"
              (store (handle0 (env_paying "x1" 4000 0)
                        (PUT_admin_application admin "a1" (Some "approved"))
                        world_submitted).2) = Some task') as [task' Htask'].
  { eexists. vm_compute. reflexivity. }
  rewrite Htask'. cbn. f_equal. rewrite <- Hreward.
  refine (proj1 (reward_changes_only_by_admin_update default_password
                   bs58_PublicKey_ok (env_paying "x1" 4000 0) _ world_submitted
                   "t1" task Hfresh Htask) task' _ Htask').
  intros p tid b Hr. discriminate Hr.
Defined.

(** The status guard at work: once approved, the application of the
    scenario cannot be reviewed again, whatever is asked. *)
Lemma reviewed_application_is_final_witness :
  let w1 := (handle0 (env_paying "x1" 4000 0)
               (PUT_admin_application admin "a1" (Some "approved"))
               world_submitted).2 in
  handle0 (env_paying "x2" 5000 0)
    (PUT_admin_application admin "a1" (Some "rejected")) w1
  = (json 400 (JError "Application has already been reviewed"), w1).
Proof.
  refine (proj2 (reviewed_application_is_final default_password bs58_PublicKey_ok)
            (env_paying "x1" 4000 0) (env_paying "x2" 5000 0) "a1"
            (Some "approved") (Some "rejected") world_submitted _ _).
  - vm_compute. reflexivity.
  - eexists. reflexivity.
Defined.

(** A registration paid with 0.09 SOL creates no agent. *)
Lemma verifyTransfer_valid_iff_matching_transfer_witness :
  valid (verifyRegistrationPayment (env_paying "g1" 500 90000000)
           (ra_txSignature sample_registration) worker_wallet) = false
  ∧ store (post_agent_register bs58_PublicKey_ok (env_paying "g1" 500 90000000)
             sample_registration empty_world).2 = store empty_world.
Proof.
  pose proof (verifyTransfer_valid_iff_matching_transfer bs58_PublicKey_ok
                (env_paying "g1" 500 90000000)
                (ra_txSignature sample_registration) worker_wallet
                REGISTRATION_WALLET REGISTRATION_FEE)
    as (_ & _ & _ & _ & Hlow & Hnone).
  assert (valid (verifyRegistrationPayment (env_paying "g1" 500 90000000)
                   (ra_txSignature sample_registration) worker_wallet) = false)
    as Hinvalid.
  { apply Hlow. intros tx rest tr Hfetch Htr. injection Hfetch as <- <-.
    cbn in Htr. apply list_elem_of_singleton in Htr. subst tr.
    vm_compute. reflexivity. }
  split; [exact Hinvalid|].
  exact (proj1 (Hnone sample_registration empty_world Hinvalid)).
Defined.

(** With 1.07 SOL as the minimum, a transfer of 1070000000 lamports, which
    is 1.07 times 10^9, is refused: the product of the numbers 1.07 and 1e9
    is the next number above 1070000000. *)
Lemma verifyTransfer_threshold_rounded_up :
  ¬ (∀ (e : Env) (txSignature fromWallet toWallet : string) (minAmount : Q),
       valid (verifyTransfer e txSignature fromWallet toWallet minAmount) = true
       ↔ ∃ tx rest,
           helius_transactions e txSignature = FetchOk (tx :: rest)
           ∧ truthy_string (transactionError tx) = false
           ∧ ∃ tr, tr ∈ default [] (nativeTransfers tx)
                   ∧ fromUserAccount tr = fromWallet
                   ∧ toUserAccount tr = toWallet
                   ∧ (minAmount * 1000000000 <= amount tr)%Q).
Proof.
  intros Hclaim.
  assert (valid (verifyTransfer (env_paying "g1" 500 1070000000) "sig"
                   worker_wallet REGISTRATION_WALLET 1.07) = true) as Hvalid.
  { apply Hclaim. eexists. eexists. split; [reflexivity|]. split; [reflexivity|].
    eexists. split; [apply list_elem_of_singleton; reflexivity|].
    split; [reflexivity|]. split; [reflexivity|]. cbn. discriminate. }
  vm_compute in Hvalid. discriminate Hvalid.
Qed.

(** With the one slot taken, the next submission is turned away. *)
Lemma capacity_checked_at_submission_witness :
  let w1 := (handle0 (env_paying "x1" 4000 0)
               (PUT_admin_application admin "a1" (Some "approved"))
               world_submitted).2 in
  handle0 (env_paying "a2" 5000 0) (POST_applications (sample_application "t1")) w1
  = (json 400 (JError "No slots available for this task"), w1).
Proof.
  cbv zeta.
  assert (∃ task,
            getTask "t1"
              (store (handle0 (env_paying "x1" 4000 0)
                        (PUT_admin_application admin "a1" (Some "approved"))
                        world_submitted).2) = Some task
            ∧ task_active task = true
            ∧ task_maxCompletions task = Some 1%Z
            ∧ task_totalCompletions task = 1%Z)
    as (task & Htask & Hactive & Hmax & Hdone).
  { eexists. split; [vm_compute; reflexivity|]. split; [reflexivity|].
    split; reflexivity. }
  refine (proj1 (capacity_checked_at_submission default_password bs58_PublicKey_ok)
            (env_paying "a2" 5000 0) (sample_application "t1") _ task 1%Z
            _ _ Htask Hactive Hmax _ _).
  - eexists. reflexivity.
  - vm_compute. reflexivity.
  - discriminate.
  - rewrite Hdone. reflexivity.
Defined.

(** ** Where the code and the specification differ *)

(** Two applications were accepted while the only slot was free; approving
    both takes the task to two completions of one. *)
Lemma capacity_exceeded_by_approvals :
  ¬ (∀ w, reachable default_password bs58_PublicKey_ok w →
          within_capacity (store w)).
Proof.
  intros Hclaim.
  specialize (Hclaim world_two_approved reachable_world_two_approved).
  assert (∃ task, getTask "t1" (store world_two_approved) = Some task
                  ∧ task_maxCompletions task = Some 1%Z
                  ∧ task_totalCompletions task = 2%Z) as (task & Htask & Hmax & Hdone).
  { eexists. split; [vm_compute; reflexivity|]. split; reflexivity. }
  specialize (Hclaim "t1" task 1%Z Htask Hmax). lia.
Qed.

(** The admin update can also set the count itself. *)
Example capacity_exceeded_by_admin_update :
  task_totalCompletions <$>
    getTask "t1"
      (store (handle0 (env_paying "x1" 4000 0)
                (PUT_admin_task admin "t1" (only_totalCompletions 5))
                world_submitted).2)
  = Some 5%Z.
Proof. vm_compute. reflexivity. Qed.

(** The admin sets the reward of a task from 0.05 to 2 SOL. *)
Lemma reward_changed_by_admin_update :
  ¬ (∀ e r w id task task',
       reachable default_password bs58_PublicKey_ok w →
       fresh e w →
       getTask id (store w) = Some task →
       getTask id (store (handle0 e r w).2) = Some task' →
       (task_reward task' == task_reward task)%Q).
Proof.
  intros Hclaim.
  assert (fresh (env_paying "x2" 5000 0) world_submitted) as Hfresh.
  { vm_compute. tauto. }
  assert (∃ task, getTask "t1" (store world_submitted) = Some task
                  ∧ task_reward task = 0.05%Q) as (task & Htask & Hreward).
  { eexists. split; vm_compute; reflexivity. }
  assert (∃ task',
            getTask "t1"
              (store (handle0 (env_paying "x2" 5000 0)
                        (PUT_admin_task admin "t1" reward_edit) world_submitted).2)
            = Some task'
            ∧ task_reward task' = 2%Q) as (task' & Htask' & Hreward').
  { eexists. split; vm_compute; reflexivity. }
  specialize (Hclaim _ _ _ _ _ _ reachable_world_submitted Hfresh Htask Htask').
  rewrite Hreward, Hreward' in Hclaim. discriminate Hclaim.
Qed.

(** After the reward of a task was edited, [totalPayouts] (0.05, what was
    paid) is not the sum of the rewards of the tasks of the approved
    applications (2). *)
Lemma payouts_differ_from_current_rewards :
  ¬ (∀ w, reachable default_password bs58_PublicKey_ok w →
          (totalPayouts (getStats (store w)) == approved_rewards (store w))%Q
          ∧ (totalCompletedTasks (getStats (store w))
             == inject_Z (Z.of_nat (approved_count (store w))))%Q).
Proof.
  intros Hclaim.
  destruct (Hclaim world_reward_edited reachable_world_reward_edited) as [Hpay _].
  vm_compute in Hpay. discriminate Hpay.
Qed.

(** * The rest of the repository and of the services *)

(** ** Newest first *)

Section sorted.
Context {A : Type} (key : A → Z).

Local Abbreviation newer_first := (newer_first key).

Lemma insert_desc_sorted (x : A) (l : list A) :
  StronglySorted newer_first l → StronglySorted newer_first (insert_desc key x l).
Proof.
  induction l as [|y l IH]; intros Hsorted; simpl.
  - repeat constructor.
  - apply StronglySorted_inv in Hsorted as [Hl Hy].
    destruct (key y <=? key x)%Z eqn:Hle.
    + apply Z.leb_le in Hle. constructor; [constructor; assumption|].
      constructor; [exact Hle|].
      eapply Forall_impl; [exact Hy|]. unfold newer_first. intros z Hz. lia.
    + apply Z.leb_gt in Hle. constructor; [apply IH; exact Hl|].
      apply Forall_forall. intros z Hz.
      apply elem_of_insert_desc in Hz as [->|Hz].
      * unfold newer_first. lia.
      * rewrite Forall_forall in Hy. apply Hy. exact Hz.
Qed.

Lemma sort_desc_sorted (l : list A) : StronglySorted newer_first (sort_desc key l).
Proof.
  induction l as [|x l IH]; [constructor|].
  unfold sort_desc in *; simpl. apply insert_desc_sorted. exact IH.
Qed.

Lemma insert_desc_perm (x : A) (l : list A) : insert_desc key x l ≡ₚ x :: l.
Proof.
  induction l as [|y l IH]; simpl; [reflexivity|].
  destruct (key y <=? key x)%Z; [reflexivity|].
  rewrite IH. apply Permutation_swap.
Qed.

Lemma sort_desc_perm (l : list A) : sort_desc key l ≡ₚ l.
Proof.
  induction l as [|x l IH]; [reflexivity|].
  unfold sort_desc in *; simpl. rewrite insert_desc_perm, IH. reflexivity.
Qed.

(** Records of equal age keep the order they were found in. *)
Lemma insert_desc_stable (x : A) (l : list A) :
  Forall (λ y, key y <= key x)%Z l → insert_desc key x l = x :: l.
Proof.
  destruct l as [|y l]; [reflexivity|]. intros Hall. simpl.
  apply Forall_cons in Hall as [Hy _].
  rewrite (proj2 (Z.leb_le _ _) Hy). reflexivity.
Qed.

Lemma listing_sorted (f : string → option A) (ids : list string) :
  StronglySorted newer_first
    match ids with
    | [] => []
    | _ => sort_desc key (omap f ids)
    end.
Proof. destruct ids; [constructor|apply sort_desc_sorted]. Qed.
End sorted.

(** Every list operation of the repository answers newest first: no record is
    followed by one with a larger timestamp, at any distance. *)
Theorem list_operations_newest_first (s : Store) :
  StronglySorted (newer_first task_createdAt) (getAllTasks s)
  ∧ StronglySorted (newer_first task_createdAt) (getActiveTasks s)
  ∧ StronglySorted (newer_first app_submittedAt) (getAllApplications s)
  ∧ StronglySorted (newer_first app_submittedAt) (getPendingApplications s)
  ∧ (∀ taskId,
       StronglySorted (newer_first app_submittedAt) (getApplicationsByTask taskId s))
  ∧ StronglySorted (newer_first agent_createdAt) (getAllAgents s).
Proof.
  repeat split; try intros taskId; apply listing_sorted.
Qed.

(** A list operation returns each record as often as the ids of its index
    set resolve to it: one entry per id that has a record, none more. *)
Theorem list_operations_one_entry_per_id (s : Store) :
  getAllTasks s ≡ₚ omap (λ id, getTask id s) (elements (all_tasks s))
  ∧ getAllApplications s
    ≡ₚ omap (λ id, getApplication id s) (elements (all_applications s))
  ∧ (∀ taskId,
       getApplicationsByTask taskId s
       ≡ₚ omap (λ id, getApplication id s)
            (elements (default ∅ (task_applications s !! taskId))))
  ∧ getAllAgents s ≡ₚ omap (λ id, getAgent id s) (elements (all_agents s))
  ∧ (List.length (getAllTasks s) ≤ size (all_tasks s))%nat
  ∧ (List.length (getAllApplications s) ≤ size (all_applications s))%nat
  ∧ (List.length (getAllAgents s) ≤ size (all_agents s))%nat.
Proof.
  assert (∀ {A} (key : A → Z) (f : string → option A) (ids : list string),
            match ids with
            | [] => []
            | _ => sort_desc key (omap f ids)
            end ≡ₚ omap f ids) as Hperm.
  { intros A key f [|i ids]; [reflexivity|apply sort_desc_perm]. }
  assert (∀ {A} (f : string → option A) (ids : list string),
            (List.length (omap f ids) ≤ List.length ids)%nat) as Hlen.
  { intros A f ids. induction ids as [|i ids IH]; csimpl; [lia|].
    destruct (f i); csimpl; lia. }
  repeat split; try intros taskId; try apply Hperm.
  - unfold getAllTasks, size, set_size; simpl. rewrite Hperm. apply Hlen.
  - unfold getAllApplications, size, set_size; simpl. rewrite Hperm. apply Hlen.
  - unfold getAllAgents, size, set_size; simpl. rewrite Hperm. apply Hlen.
Qed.

(** ** The API key generator *)

Lemma get_in_range (s : string) (n : nat) :
  (n < String.length s)%nat → ∃ c, String.get n s = Some c ∧ c ∈ String.list_ascii_of_string s.
Proof.
  revert n. induction s as [|d s IH]; intros n Hn; simpl in *; [lia|].
  destruct n as [|n].
  - exists d. split; [reflexivity|left].
  - destruct (IH n ltac:(lia)) as (c & Hc & Hin). exists c. split; [exact Hc|].
    right. exact Hin.
Qed.

Lemma append_cons (c : Ascii.ascii) (s1 s2 : string) :
  String c s1 ++ s2 = String c (s1 ++ s2).
Proof. reflexivity. Qed.

Lemma append_empty_r (s : string) : s ++ "" = s.
Proof. induction s as [|c s IH]; [reflexivity|]. rewrite append_cons, IH. reflexivity. Qed.

Lemma append_assoc (s1 s2 s3 : string) : (s1 ++ s2) ++ s3 = s1 ++ (s2 ++ s3).
Proof.
  induction s1 as [|c s1 IH]; [reflexivity|]. rewrite !append_cons, IH. reflexivity.
Qed.

Lemma length_append (s1 s2 : string) :
  String.length (s1 ++ s2) = (String.length s1 + String.length s2)%nat.
Proof.
  induction s1 as [|c s1 IH]; [reflexivity|]. rewrite append_cons. simpl.
  rewrite IH. reflexivity.
Qed.

(** A draw in [0, 1) picks one character of the alphabet. *)
Lemma charAt_random (q : Q) :
  (0 <= q)%Q → (q < 1)%Q →
  ∃ c, charAt apiKey_chars
         (Qfloor (q * inject_Z (Z.of_nat (String.length apiKey_chars))))
       = String c EmptyString
       ∧ c ∈ String.list_ascii_of_string apiKey_chars.
Proof.
  intros Hlo Hhi.
  set (n := Z.of_nat (String.length apiKey_chars)).
  assert (0 < n)%Z as Hn by (vm_compute; reflexivity).
  assert (0 <= Qfloor (q * inject_Z n))%Z as Hfloor_lo.
  { change 0%Z with (Qfloor 0). apply Qfloor_resp_le.
    apply Qmult_le_0_compat; [exact Hlo|]. change 0%Q with (inject_Z 0).
    rewrite <- Zle_Qle. lia. }
  assert (Qfloor (q * inject_Z n) < n)%Z as Hfloor_hi.
  { rewrite Zlt_Qlt. eapply Qle_lt_trans; [apply Qfloor_le|].
    rewrite <- (Qmult_1_l (inject_Z n)) at 2.
    apply Qmult_lt_compat_r; [|exact Hhi].
    change 0%Q with (inject_Z 0). rewrite <- Zlt_Qlt. exact Hn. }
  unfold charAt. rewrite (proj2 (Z.ltb_ge _ _) Hfloor_lo).
  destruct (get_in_range apiKey_chars (Z.to_nat (Qfloor (q * inject_Z n))))
    as (c & Hc & Hin); [unfold n in *; lia|].
  fold n. rewrite Hc. eauto.
Qed.

Lemma generateApiKey_loop_spec (random : nat → Q) (n i : nat) (result : string) :
  (∀ j, (i <= j < i + n)%nat → (0 <= random j)%Q ∧ (random j < 1)%Q) →
  ∃ suffix,
    generateApiKey_loop random i n result = result ++ suffix
    ∧ String.length suffix = n
    ∧ ∀ c, c ∈ String.list_ascii_of_string suffix → c ∈ String.list_ascii_of_string apiKey_chars.
Proof.
  revert i result. induction n as [|n IH]; intros i result Hrandom;
    cbn [generateApiKey_loop].
  - exists "". split; [|split; [reflexivity|]].
    + symmetry. apply append_empty_r.
    + intros c Hc. inversion Hc.
  - destruct (charAt_random (random i)) as (c & Hc & Hin);
      [apply Hrandom; lia..|].
    rewrite Hc.
    destruct (IH (S i) (result ++ String c EmptyString)) as (suffix & Heq & Hlen & Hall).
    { intros j Hj. apply Hrandom. lia. }
    exists (String c suffix). rewrite Heq, append_assoc.
    split; [reflexivity|]. split; [simpl; lia|].
    intros d Hd. apply elem_of_cons in Hd as [->|Hd]; [exact Hin|apply Hall, Hd].
Qed.

(** Whatever [Math.random] draws in [0, 1), [generateApiKey] returns the
    prefix mb_ followed by 32 characters, each a letter or a digit. *)
Theorem generateApiKey_format (random : nat → Q) :
  (∀ j, (j < 32)%nat → (0 <= random j)%Q ∧ (random j < 1)%Q) →
  ∃ suffix,
    generateApiKey_from random = "mb_" ++ suffix
    ∧ String.length suffix = 32%nat
    ∧ String.length (generateApiKey_from random) = 35%nat
    ∧ ∀ c, c ∈ String.list_ascii_of_string suffix → c ∈ String.list_ascii_of_string apiKey_chars.
Proof.
  intros Hrandom.
  destruct (generateApiKey_loop_spec random 32 0 "mb_") as (suffix & Heq & Hlen & Hall).
  { intros j Hj. apply Hrandom. lia. }
  exists suffix. unfold generateApiKey_from. rewrite Heq, length_append, Hlen. auto.
Qed.

Lemma generateApiKey_format_witness :
  String.length (generateApiKey_from random_half) = 35%nat.
Proof.
  destruct (generateApiKey_format random_half) as (suffix & _ & _ & Hlen & _).
  - intros j _. split; [discriminate|reflexivity].
  - exact Hlen.
Defined.

(** ** The payouts listing *)





Example getOutgoingTransactions_sample :
  getOutgoingTransactions (FetchOk sample_history) worker_wallet
  = [ {| payout_signature := "sigB"; payout_to := REGISTRATION_WALLET;
         payout_amount := (50000000 / LAMPORTS_PER_SOL)%Q;
         payout_timestamp := 20000; payout_status := "confirmed" |} ].
Proof. reflexivity. Qed.

(** ** The gateway wrappers *)

Section more_route_properties.

Variable ADMIN_PASSWORD : string.
Variable PublicKey_ok : string → bool.

Local Abbreviation handle := (handle ADMIN_PASSWORD PublicKey_ok).
Local Abbreviation reachable := (reachable ADMIN_PASSWORD PublicKey_ok).
Local Abbreviation review e id st :=
  (handle e (PUT_admin_application (Some ADMIN_PASSWORD) id st)).

(** [sendPayment] succeeds exactly when the treasury key pair loads, the
    recipient is a valid public key, the lamports, which are the number
    [Math.floor(amountSOL * 1e9)], are an unsigned 64-bit integer, and the
    chain confirms their transfer; a success carries the signature and no
    error, a failure an error and no signature, and no transfer is sent for
    lamports that are no unsigned 64-bit integer. *)
Theorem sendPayment_spec (e : Env) (toWallet : string) (amountSOL : Q) :
  let r := sendPayment PublicKey_ok e toWallet amountSOL in
  let lamports :=
    Math_floor (js_mul (Number amountSOL) (Number 1000000000)) in
  (success r = true ↔
     ∃ keypair n sig,
       getTreasuryKeypair e = inl keypair
       ∧ PublicKey_ok toWallet = true
       ∧ BigInt lamports = Some n
       ∧ (0 <= n < 2 ^ 64)%Z
       ∧ sendAndConfirmTransaction e keypair toWallet n = inl sig
       ∧ pr_signature r = Some sig)
  ∧ (success r = true → pr_error r = None)
  ∧ (success r = false → pr_signature r = None ∧ is_Some (pr_error r))
  ∧ (∀ keypair,
       getTreasuryKeypair e = inl keypair →
       PublicKey_ok toWallet = true →
       (∀ n, BigInt lamports = Some n → ¬ (0 <= n < 2 ^ 64)%Z) →
       r = payment_failed (SystemProgram_transfer_error e lamports)).
Proof.
  cbv zeta. unfold sendPayment, u64, lamports_of.
  change (Number LAMPORTS_PER_SOL) with (Number 1000000000).
  set (lamports := Math_floor (js_mul (Number amountSOL) (Number 1000000000))).
  split; [|split; [|split]].
  - destruct (getTreasuryKeypair e) as [keypair|msg]; simpl;
      [|split; [discriminate|intros (k & n & sig & Hk & _); discriminate]].
    destruct (PublicKey_ok toWallet); simpl;
      [|split; [discriminate|intros (k & n & sig & _ & Hok & _); discriminate]].
    destruct (BigInt lamports) as [n|]; simpl;
      [|split; [discriminate|intros (k & n & sig & _ & _ & Hn & _); discriminate]].
    destruct ((0 <=? n)%Z && (n <? 2 ^ 64)%Z) eqn:Hrange; simpl.
    + apply andb_true_iff in Hrange as [Hlow Hhigh].
      apply Z.leb_le in Hlow. apply Z.ltb_lt in Hhigh.
      destruct (sendAndConfirmTransaction e keypair toWallet n) as [sig|msg]
        eqn:Hsend; simpl.
      * split; [intros _|reflexivity]. exists keypair, n, sig. auto 10.
      * split; [discriminate|]. intros (k & n' & sig & Hk & _ & Hn & _ & Hs & _).
        injection Hk as <-. injection Hn as <-. congruence.
    + split; [discriminate|]. intros (k & n' & sig & _ & _ & Hn & Hin & _).
      injection Hn as <-.
      apply andb_false_iff in Hrange as [Hlow|Hhigh];
        [apply Z.leb_gt in Hlow|apply Z.ltb_ge in Hhigh]; lia.
  - destruct (getTreasuryKeypair e); [|discriminate].
    destruct (PublicKey_ok toWallet); [|discriminate].
    destruct (BigInt lamports) as [n|]; [|discriminate].
    destruct (_ && _); [|discriminate].
    destruct (sendAndConfirmTransaction _ _ _ _); [reflexivity|discriminate].
  - destruct (getTreasuryKeypair e); [|unfold payment_failed; eauto].
    destruct (PublicKey_ok toWallet); [|unfold payment_failed; eauto].
    destruct (BigInt lamports) as [n|]; [|unfold payment_failed; eauto].
    destruct (_ && _); [|unfold payment_failed; eauto].
    destruct (sendAndConfirmTransaction _ _ _ _);
      [discriminate|unfold payment_failed; eauto].
  - intros keypair -> -> Hout.
    destruct (BigInt lamports) as [n|]; [|reflexivity].
    destruct ((0 <=? n)%Z && (n <? 2 ^ 64)%Z) eqn:Hrange; [|reflexivity].
    apply andb_true_iff in Hrange as [Hlow Hhigh].
    apply Z.leb_le in Hlow. apply Z.ltb_lt in Hhigh.
    destruct (Hout n eq_refl). lia.
Qed.

(** A verification that is valid reports the amount of the first transfer
    of the transaction that matches, in SOL: the quotient of numbers
    [transfer.amount / 1e9], given by its exact value when the amount is a
    finite number; it reports no error. *)
Theorem verifyTransfer_amount (e : Env) (txSignature fromWallet toWallet : string)
    (minAmount : Q) :
  valid (verifyTransfer e txSignature fromWallet toWallet minAmount) = true →
  ∃ tx rest tr,
    helius_transactions e txSignature = FetchOk (tx :: rest)
    ∧ find (transfer_matches fromWallet toWallet minAmount)
        (default [] (nativeTransfers tx)) = Some tr
    ∧ tv_amount (verifyTransfer e txSignature fromWallet toWallet minAmount)
      = Some (amount_SOL tr)
    ∧ (Number_isFinite (Number (amount tr)) = true →
       amount_SOL tr
       = value (js_div (Number (amount tr)) (Number 1000000000)))
    ∧ tv_error (verifyTransfer e txSignature fromWallet toWallet minAmount) = None.
Proof.
  unfold verifyTransfer.
  destruct (helius_transactions e txSignature) as [| |[|tx rest]]; try discriminate.
  destruct (truthy_string (transactionError tx)); [discriminate|].
  destruct (find _ _) as [tr|] eqn:Hfind; [|discriminate]. intros _.
  exists tx, rest, tr. split; [reflexivity|]. split; [exact Hfind|].
  split; [reflexivity|]. split; [|reflexivity].
  intros Hfinite. unfold amount_SOL. rewrite Hfinite. reflexivity.
Qed.



(** ** What every request respects *)

Ltac split_handlers :=
  unfold adminAuth, agentAuth, get_task, post_applications, post_agent_register,
    post_admin_tasks, post_agent_tasks, put_admin_task, delete_admin_task,
    put_admin_application;
  repeat (case_match; simpl in *; try lia; try reflexivity; try discriminate);
  try (intros; first [lia|reflexivity|discriminate]).

(** Whatever the request, an answer with an error status (400 and above)
    leaves the store exactly as it was. *)
Theorem errors_commit_nothing (e : Env) (r : Request) (w : World) :
  (400 <= status (handle e r w).1)%nat →
  store (handle e r w).2 = store w.
Proof.
  destruct r; simpl; split_handlers.
Qed.

(** The requests that only read (the GET routes) return the world they were
    given, whatever they answer. *)
Theorem reads_change_nothing (e : Env) (r : Request) (w : World) :
  is_read r = true → (handle e r w).2 = w.
Proof.
  destruct r; simpl; try discriminate; intros _; split_handlers.
Qed.

(** A request to an admin route that does not carry the admin password is
    answered 401 and changes nothing; a request to an agent route whose API
    key is missing, unknown or that of an inactive agent is answered 401 or
    403 and changes nothing. *)
Theorem unauthorized_requests_change_nothing (e : Env) (r : Request) (w : World) :
  (∀ p, admin_password r = Some p → p ≠ Some ADMIN_PASSWORD →
        handle e r w
        = (json 401 (JError "Unauthorized: Invalid admin password"), w))
  ∧ (∀ k, agent_apiKey_of r = Some k →
          (∀ g, truthy_string k = true →
                getAgentByApiKey (default "" k) (store w) = Some g →
                agent_active g = false) →
          (handle e r w).2 = w
          ∧ (status (handle e r w).1 = 401%nat ∨ status (handle e r w).1 = 403%nat)).
Proof.
  split.
  - intros p Hr Hp. destruct r; simpl in Hr; try discriminate;
      injection Hr as ->; simpl; unfold adminAuth;
      rewrite decide_False by exact Hp; reflexivity.
  - intros k Hr Hk. destruct r; simpl in Hr; try discriminate;
      injection Hr as ->; simpl; unfold agentAuth;
      (destruct (truthy_string k) eqn:Htruthy; simpl; [|auto]);
      (destruct (getAgentByApiKey _ _) as [g|] eqn:Hg; [|auto]);
      rewrite (Hk g eq_refl eq_refl); simpl; auto.
Qed.

(** ** The index sets of the tasks *)

Lemma tasks_indexed_frame (s s' : Store) :
  tasks s' = tasks s → all_tasks s' = all_tasks s →
  active_tasks s' = active_tasks s →
  tasks_indexed s → tasks_indexed s'.
Proof. unfold tasks_indexed. intros -> -> ->. auto. Qed.

Lemma createTask_indexed (id : string) (now : Z) (data : InsertTask) (s : Store) :
  tasks s !! id = None → tasks_indexed s →
  tasks_indexed (createTask id now data s).2.
Proof.
  clear PublicKey_ok.
  intros Hfresh (Hall & Hact & Hkey). unfold tasks_indexed, createTask, incrementStat.
  cbn. split; [|split].
  - intros i. rewrite elem_of_union, elem_of_singleton, lookup_insert_is_Some', Hall.
    naive_solver.
  - intros i. destruct (decide (i = id)) as [->|Hne].
    + rewrite lookup_insert_eq. destruct (it_active data) eqn:Hactive.
      * split; [eauto|set_solver].
      * split; [|intros (t & [= <-] & Ht); discriminate].
        intros Hin. apply Hact in Hin as (t & Ht & _). congruence.
    + rewrite lookup_insert_ne by congruence. rewrite <- Hact.
      destruct (it_active data); set_solver.
  - intros i t Hlook. apply lookup_insert_Some in Hlook as [[<- <-]|[_ Hlook]]; eauto.
Qed.

Lemma updateTask_indexed (id : string) (u : TaskUpdates) (s : Store) :
  tasks_indexed s → tasks_indexed (updateTask id u s).2.
Proof.
  clear PublicKey_ok.
  intros (Hall & Hact & Hkey). unfold updateTask.
  destruct (getTask id s) as [task|] eqn:Htask; [|exact (conj Hall (conj Hact Hkey))].
  unfold getTask in Htask. unfold tasks_indexed. cbn. split; [|split].
  - intros i. rewrite lookup_insert_is_Some', Hall. naive_solver.
  - intros i. destruct (decide (i = id)) as [->|Hne].
    + rewrite lookup_insert_eq.
      destruct (tu_active u) as [[|]|] eqn:Hu.
      * split; [intros _; eexists; split; [reflexivity|cbn; rewrite Hu; reflexivity]
                |set_solver].
      * split; [set_solver|]. intros (t & [= <-] & Ht). cbn in Ht.
        rewrite Hu in Ht. discriminate.
      * rewrite Hact, Htask. split.
        -- intros (t & [= <-] & Ht). eexists. split; [reflexivity|].
           cbn. rewrite Hu. exact Ht.
        -- intros (t & [= <-] & Ht). cbn in Ht. rewrite Hu in Ht. eauto.
    + rewrite lookup_insert_ne by congruence. rewrite <- Hact.
      destruct (tu_active u) as [[|]|]; set_solver.
  - intros i t Hlook. apply lookup_insert_Some in Hlook as [[<- <-]|[_ Hlook]]; eauto.
Qed.

Lemma deleteTask_indexed (id : string) (s : Store) :
  tasks_indexed s → tasks_indexed (deleteTask id s).2.
Proof.
  clear ADMIN_PASSWORD PublicKey_ok.
  intros (Hall & Hact & Hkey). unfold deleteTask.
  destruct (getTask id s) as [task|] eqn:Htask; [|exact (conj Hall (conj Hact Hkey))].
  unfold tasks_indexed. cbn. split; [|split].
  - intros i. rewrite elem_of_difference, elem_of_singleton, Hall.
    destruct (decide (i = id)) as [->|Hne].
    + rewrite lookup_delete_eq. split; [tauto|intros [? ?]; discriminate].
    + rewrite lookup_delete_ne by congruence. tauto.
  - intros i. rewrite elem_of_difference, elem_of_singleton, Hact.
    destruct (decide (i = id)) as [->|Hne].
    + rewrite lookup_delete_eq. split; [tauto|intros (? & ? & _); discriminate].
    + rewrite lookup_delete_ne by congruence. tauto.
  - intros i t Hlook. apply lookup_delete_Some in Hlook as [_ Hlook]. eauto.
Qed.

Lemma incrementTaskCompletions_indexed (id : string) (s : Store) :
  tasks_indexed s → tasks_indexed (incrementTaskCompletions id s).
Proof.
  clear PublicKey_ok.
  intros Hidx. unfold incrementTaskCompletions.
  destruct (getTask id s) as [task|]; [|exact Hidx].
  eapply tasks_indexed_frame;
    [..|apply (updateTask_indexed id
                 (only_totalCompletions (task_totalCompletions task + 1)) s Hidx)];
    reflexivity.
Qed.

Lemma effect_tasks_indexed (e : Env) (r : Request) (w w' : World) :
  effect PublicKey_ok e r w w' → fresh e w →
  tasks_indexed (store w) → tasks_indexed (store w').
Proof.
  clear ADMIN_PASSWORD.
  intros Heff (Hfresh & _ & _) Hidx.
  destruct Heff as
    [ | txSignature fromWallet | toWallet amountSOL result Hfail
    | b data Hschema | b data agentId Hschema | p tid b Hr | p tid Hr
    | data task Htask | data paymentAmount
    | p aid st a Hr Hst Ha Hp | p aid st a task sig Hr Hst Ha Hp Htask Hpay ];
    try exact Hidx.
  - apply createTask_indexed; assumption.
  - cbn. destruct (incrementAgentTasksCreated_frame agentId
                     (createTask (uuidv4 e) (Date_now e 0) data (store w)).2)
      as (_ & _ & Htasks).
    eapply tasks_indexed_frame; [exact Htasks|..|apply createTask_indexed; eassumption].
    + unfold incrementAgentTasksCreated. destruct (getAgent _ _); reflexivity.
    + unfold incrementAgentTasksCreated. destruct (getAgent _ _); reflexivity.
  - apply updateTask_indexed. exact Hidx.
  - apply deleteTask_indexed. exact Hidx.
  - cbn. rewrite (updateApplication_Some _ _ _ _ Ha). exact Hidx.
  - cbn. rewrite (incrementTaskCompletions_Some _ _ _ Htask).
    erewrite updateApplication_Some by exact Ha.
    eapply tasks_indexed_frame;
      [..|apply (updateTask_indexed (app_taskId a)
                   (only_totalCompletions (task_totalCompletions task + 1))
                   (store w) Hidx)];
      rewrite (updateTask_Some _ _ _ _ Htask); reflexivity.
Qed.

Lemma reachable_tasks_indexed (w : World) :
  reachable w → tasks_indexed (store w).
Proof.
  induction 1 as [|e r w Hreach IH Hfresh].
  - unfold tasks_indexed; cbn. split; [|split].
    + intros id. rewrite lookup_empty. split; [set_solver|intros [? ?]; discriminate].
    + intros id. split; [set_solver|]. intros (t & Ht & _).
      rewrite lookup_empty in Ht. discriminate.
    + intros id t Ht. rewrite lookup_empty in Ht. discriminate.
  - eapply effect_tasks_indexed; [apply handle_effect|assumption..].
Qed.

(** In every reachable state the task listings are complete: [getAllTasks]
    returns exactly the stored tasks and [getActiveTasks] exactly the stored
    tasks that are active, each task being stored under its own id. *)
Theorem task_listings_complete (w : World) :
  reachable w →
  (∀ t, t ∈ getAllTasks (store w) ↔ getTask (task_id t) (store w) = Some t)
  ∧ (∀ t, t ∈ getActiveTasks (store w) ↔
          getTask (task_id t) (store w) = Some t ∧ task_active t = true)
  ∧ (∀ id t, getTask id (store w) = Some t → task_id t = id).
Proof.
  intros Hreach. destruct (reachable_tasks_indexed w Hreach) as (Hall & Hact & Hkey).
  unfold getTask. split; [|split; [|exact Hkey]].
  - intros t. unfold getAllTasks. rewrite elem_of_listing. split.
    + intros (id & _ & Ht). unfold getTask in Ht. rewrite (Hkey id t Ht). exact Ht.
    + intros Ht. exists (task_id t). split; [|exact Ht].
      apply elem_of_elements, Hall. eauto.
  - intros t. unfold getActiveTasks. rewrite elem_of_listing. split.
    + intros (id & _ & Ht). unfold getTask in Ht.
      destruct (tasks (store w) !! id) as [t'|] eqn:Hlook; [|discriminate].
      destruct (task_active t') eqn:Hactive; [|discriminate].
      injection Ht as <-. rewrite (Hkey id t' Hlook). auto.
    + intros [Ht Hactive]. exists (task_id t). split.
      * apply elem_of_elements, Hact. eauto.
      * unfold getTask. rewrite Ht, Hactive. reflexivity.
Qed.

(** ** The index sets of the applications *)

Lemma createApplication_indexed (id : string) (now : Z) (data : InsertApplication)
    (title proofType : string) (s : Store) :
  applications s !! id = None → applications_indexed s →
  applications_indexed (createApplication id now data title proofType s).2.
Proof.
  clear ADMIN_PASSWORD PublicKey_ok.
  intros Hfresh (Hall & Hpend & Hby & Hkey).
  unfold applications_indexed, createApplication, incrementStat. cbn.
  split; [|split; [|split]].
  - intros i. rewrite elem_of_union, elem_of_singleton, lookup_insert_is_Some', Hall.
    naive_solver.
  - intros i. rewrite elem_of_union, elem_of_singleton, Hpend.
    destruct (decide (i = id)) as [->|Hne].
    + rewrite lookup_insert_eq. split; [eauto|auto].
    + rewrite lookup_insert_ne by congruence. tauto.
  - intros taskId i. unfold sadd_task_applications.
    destruct (decide (i = id)) as [->|Hne].
    + rewrite lookup_insert_eq.
      destruct (decide (taskId = ia_taskId data)) as [->|Htid].
      * rewrite lookup_insert_eq. cbn. split; [eauto|set_solver].
      * rewrite lookup_insert_ne by congruence. rewrite Hby. split.
        -- intros (a & Ha & _). congruence.
        -- intros (a & [= <-] & Ha). cbn in Ha. congruence.
    + rewrite (lookup_insert_ne (applications s)) by congruence.
      rewrite <- Hby.
      destruct (decide (taskId = ia_taskId data)) as [->|Htid].
      * rewrite lookup_insert_eq. cbn. set_solver.
      * rewrite lookup_insert_ne by congruence. reflexivity.
  - intros i a Hlook. apply lookup_insert_Some in Hlook as [[<- <-]|[_ Hlook]]; eauto.
Qed.

(** A review: the record is replaced by one of another status. *)
Lemma review_indexed (id : string) (st : ApplicationStatus) (reviewedAt : Z)
    (txSignature : option string) (paidAt : option Z) (s : Store) (a : Application) :
  getApplication id s = Some a → st ≠ pending → applications_indexed s →
  applications_indexed
    (updateApplication id (review_updates st reviewedAt txSignature paidAt) s).2.
Proof.
  clear ADMIN_PASSWORD PublicKey_ok.
  intros Ha Hst (Hall & Hpend & Hby & Hkey).
  rewrite (updateApplication_Some _ _ _ _ Ha). unfold getApplication in Ha.
  unfold applications_indexed. cbn. rewrite decide_False by exact Hst.
  split; [|split; [|split]].
  - intros i. rewrite lookup_insert_is_Some', Hall. naive_solver.
  - intros i. rewrite elem_of_difference, elem_of_singleton, Hpend.
    destruct (decide (i = id)) as [->|Hne].
    + rewrite lookup_insert_eq. split; [tauto|].
      intros (a' & [= <-] & Hstatus). cbn in Hstatus. congruence.
    + rewrite lookup_insert_ne by congruence. tauto.
  - intros taskId i. rewrite Hby.
    destruct (decide (i = id)) as [->|Hne].
    + rewrite lookup_insert_eq, Ha. split.
      * intros (a' & [= <-] & Htid). eauto.
      * intros (a' & [= <-] & Htid). eauto.
    + rewrite lookup_insert_ne by congruence. reflexivity.
  - intros i a' Hlook. apply lookup_insert_Some in Hlook as [[<- <-]|[_ Hlook]]; eauto.
Qed.

Lemma effect_applications_indexed (e : Env) (r : Request) (w w' : World) :
  effect PublicKey_ok e r w w' → fresh e w →
  applications_indexed (store w) → applications_indexed (store w').
Proof.
  clear ADMIN_PASSWORD.
  intros Heff (_ & Hfresh & _) Hidx.
  destruct Heff as
    [ | txSignature fromWallet | toWallet amountSOL result Hfail
    | b data Hschema | b data agentId Hschema | p tid b Hr | p tid Hr
    | data task Htask | data paymentAmount
    | p aid st a Hr Hst Ha Hp | p aid st a task sig Hr Hst Ha Hp Htask Hpay ];
    try exact Hidx.
  - cbn. unfold incrementAgentTasksCreated. destruct (getAgent _ _); exact Hidx.
  - cbn. unfold updateTask. destruct (getTask _ _); exact Hidx.
  - cbn. unfold deleteTask. destruct (getTask _ _); exact Hidx.
  - apply createApplication_indexed; assumption.
  - eapply review_indexed; [exact Ha|discriminate|exact Hidx].
  - cbn. rewrite (incrementTaskCompletions_Some _ _ _ Htask).
    eapply (review_indexed aid approved _ _ _ _ a); [exact Ha|discriminate|exact Hidx].
Qed.

Lemma reachable_applications_indexed (w : World) :
  reachable w → applications_indexed (store w).
Proof.
  induction 1 as [|e r w Hreach IH Hfresh].
  - unfold applications_indexed; cbn. split; [|split; [|split]].
    + intros id. rewrite lookup_empty. split; [set_solver|intros [? ?]; discriminate].
    + intros id. split; [set_solver|]. intros (a & Ha & _).
      rewrite lookup_empty in Ha. discriminate.
    + intros taskId id. rewrite lookup_empty. cbn. split; [set_solver|].
      intros (a & Ha & _). rewrite lookup_empty in Ha. discriminate.
    + intros id a Ha. rewrite lookup_empty in Ha. discriminate.
  - eapply effect_applications_indexed; [apply handle_effect|assumption..].
Qed.

(** In every reachable state the application listings are complete:
    [getAllApplications] returns exactly the stored applications,
    [getPendingApplications] exactly those still pending and
    [getApplicationsByTask] exactly those submitted for the task, each
    application being stored under its own id. *)
Theorem application_listings_complete (w : World) :
  reachable w →
  (∀ a, a ∈ getAllApplications (store w) ↔
        getApplication (app_id a) (store w) = Some a)
  ∧ (∀ a, a ∈ getPendingApplications (store w) ↔
          getApplication (app_id a) (store w) = Some a ∧ app_status a = pending)
  ∧ (∀ taskId a, a ∈ getApplicationsByTask taskId (store w) ↔
                 getApplication (app_id a) (store w) = Some a
                 ∧ app_taskId a = taskId)
  ∧ (∀ id a, getApplication id (store w) = Some a → app_id a = id).
Proof.
  intros Hreach.
  destruct (reachable_applications_indexed w Hreach) as (Hall & Hpend & Hby & Hkey).
  unfold getApplication. split; [|split; [|split; [|exact Hkey]]].
  - intros a. unfold getAllApplications. rewrite elem_of_listing. split.
    + intros (id & _ & Ha). unfold getApplication in Ha.
      rewrite (Hkey id a Ha). exact Ha.
    + intros Ha. exists (app_id a). split; [|exact Ha].
      apply elem_of_elements, Hall. eauto.
  - intros a. unfold getPendingApplications. rewrite elem_of_listing. split.
    + intros (id & _ & Ha). unfold getApplication in Ha.
      destruct (applications (store w) !! id) as [a'|] eqn:Hlook; [|discriminate].
      destruct (decide (app_status a' = pending)) as [Hstatus|]; [|discriminate].
      injection Ha as <-. rewrite (Hkey id a' Hlook). auto.
    + intros [Ha Hstatus]. exists (app_id a). split.
      * apply elem_of_elements, Hpend. eauto.
      * unfold getApplication. rewrite Ha, decide_True by exact Hstatus. reflexivity.
  - intros taskId a. unfold getApplicationsByTask. rewrite elem_of_listing. split.
    + intros (id & Hid & Ha). unfold getApplication in Ha.
      apply elem_of_elements, Hby in Hid as (a' & Ha' & Htid).
      rewrite (Hkey id a Ha). split; [exact Ha|]. congruence.
    + intros [Ha Htid]. exists (app_id a). split; [|exact Ha].
      apply elem_of_elements, Hby. eauto.
Qed.

(** ** The agents *)

Lemma registerAgentSchema_Some (b data : RegisterAgent) :
  registerAgentSchema b = Some data → data = b.
Proof. unfold registerAgentSchema. destruct (_ && _); congruence. Qed.

(** What a request does to the agents: nothing, one more task for one of
    them, or the registration of a new one. *)
Lemma handle_agents (e : Env) (r : Request) (w : World) :
  (agents (store (handle e r w).2) = agents (store w)
   ∧ agent_wallet (store (handle e r w).2) = agent_wallet (store w)
   ∧ agent_apikey (store (handle e r w).2) = agent_apikey (store w)
   ∧ all_agents (store (handle e r w).2) = all_agents (store w))
  ∨ (∃ k b id g,
       r = POST_agent_tasks k b
       ∧ agents (store w) !! id = Some g
       ∧ agents (store (handle e r w).2) = <[id := one_more_task g]> (agents (store w))
       ∧ agent_wallet (store (handle e r w).2) = agent_wallet (store w)
       ∧ agent_apikey (store (handle e r w).2) = agent_apikey (store w)
       ∧ all_agents (store (handle e r w).2) = all_agents (store w))
  ∨ (∃ b,
       r = POST_agent_register b
       ∧ is_Some (registerAgentSchema b)
       ∧ PublicKey_ok (ra_wallet b) = true
       ∧ getAgentByWallet (ra_wallet b) (store w) = None
       ∧ valid (verifyRegistrationPayment e (ra_txSignature b) (ra_wallet b)) = true
       ∧ store (handle e r w).2
         = (createAgent (uuidv4 e) (generateApiKey e) (Date_now e 0)
              (ra_name b) (ra_wallet b) (ra_txSignature b)
              (default 0%Q (tv_amount (verifyRegistrationPayment e
                                         (ra_txSignature b) (ra_wallet b))))
              (store w)).2).
Proof.
  destruct r.
  5: { (* POST /api/agent/register *)
    simpl. unfold post_agent_register, isValidWalletAddress.
    destruct (registerAgentSchema b) as [data|] eqn:Hschema; [|left; auto].
    apply registerAgentSchema_Some in Hschema as Hdata. subst data.
    destruct (PublicKey_ok (ra_wallet b)) eqn:Hok; simpl; [|left; auto].
    destruct (getAgentByWallet _ _) eqn:Hwallet; [left; auto|].
    destruct (valid _) eqn:Hvalid; simpl; [|left; auto].
    right; right. exists b. rewrite Hschema. eauto 10. }
  6: { (* POST /api/agent/tasks *)
    simpl. unfold agentAuth, post_agent_tasks.
    destruct (negb (truthy_string apiKey)); [left; auto|].
    destruct (getAgentByApiKey _ _) as [agent|]; [|left; auto].
    destruct (negb (agent_active agent)); [left; auto|].
    destruct (insertTaskSchema b) as [data|]; [|left; auto]. simpl.
    unfold incrementAgentTasksCreated, getAgent. simpl.
    destruct (agents (store w) !! agent_id agent) as [g|] eqn:Hg; [|left; auto].
    right; left. exists apiKey, b, (agent_id agent), g. simpl. auto 10. }
  all: left; simpl;
    unfold adminAuth, agentAuth, get_task, post_applications, post_admin_tasks,
      put_admin_task, delete_admin_task, put_admin_application,
      incrementTaskCompletions, updateTask, deleteTask, updateApplication;
    repeat (case_match; simplify_eq/=);
    repeat split; reflexivity.
Qed.

(** No request removes an agent or changes its id, name, wallet, API key,
    payment record, creation time or active flag; the only field that moves
    is [tasksCreated], by one, through POST /api/agent/tasks. *)
Theorem agents_keep_their_credentials (e : Env) (r : Request) (w : World)
    (id : string) (g : Agent) :
  fresh e w →
  getAgent id (store w) = Some g →
  ∃ g',
    getAgent id (store (handle e r w).2) = Some g'
    ∧ credentials g' = credentials g
    ∧ (g' = g
       ∨ (∃ k b, r = POST_agent_tasks k b)
         ∧ agent_tasksCreated g' = (agent_tasksCreated g + 1)%Z).
Proof.
  intros (_ & _ & Hfresh) Hg. unfold getAgent in *.
  destruct (handle_agents e r w)
    as [(Hagents & _)|[(k & b & id' & g0 & Hr & Hg0 & Hagents & _)
                      |(b & Hr & _ & _ & _ & _ & Hstore)]].
  - exists g. rewrite Hagents. auto.
  - rewrite Hagents. destruct (decide (id' = id)) as [->|Hne].
    + rewrite lookup_insert_eq. exists (one_more_task g0).
      assert (g0 = g) as -> by congruence.
      split; [reflexivity|]. split; [reflexivity|]. right. eauto.
    + rewrite lookup_insert_ne by exact Hne. exists g. auto.
  - rewrite Hstore. cbn. rewrite lookup_insert_ne by congruence. exists g. auto.
Qed.

Lemma agents_grow (e : Env) (r : Request) (w : World) (id : string) :
  agents (store (handle e r w).2) !! id = None → agents (store w) !! id = None.
Proof.
  destruct (handle_agents e r w)
    as [(Hagents & _)|[(k & b & id' & g0 & Hr & Hg0 & Hagents & _)
                      |(b & Hr & _ & _ & _ & _ & Hstore)]].
  - rewrite Hagents. auto.
  - rewrite Hagents. intros H. apply lookup_insert_None in H as [H _]. exact H.
  - rewrite Hstore. cbn. intros H. apply lookup_insert_None in H as [H _]. exact H.
Qed.

Lemma reachable_agents_indexed (w : World) :
  reachable w → agents (store w) !! "" = None → agents_indexed (store w).
Proof.
  induction 1 as [|e r w Hreach IH Hfresh]; intros Hnamed.
  - unfold agents_indexed; cbn. split.
    + intros id. rewrite lookup_empty. split; [set_solver|intros [? ?]; discriminate].
    + intros id g Hg. rewrite lookup_empty in Hg. discriminate.
  - specialize (IH (agents_grow _ _ _ _ Hnamed)). destruct IH as [Hall Hkey].
    pose proof (agents_grow _ _ _ _ Hnamed) as Hnamed0.
    unfold agents_indexed.
    destruct (handle_agents e r w)
      as [(Hagents & Hwallet & _ & Hset)|[(k & b & id' & g0 & Hr & Hg0 & Hagents & Hwallet & _ & Hset)
                        |(b & Hr & _ & _ & Hunbound & _ & Hstore)]].
    + rewrite Hagents, Hwallet, Hset. auto.
    + rewrite Hagents, Hwallet, Hset. split.
      * intros id. rewrite lookup_insert_is_Some', Hall. naive_solver.
      * intros id g Hg. apply lookup_insert_Some in Hg as [[<- <-]|[_ Hg]]; [|eauto].
        exact (Hkey id' g0 Hg0).
    + rewrite Hstore. cbn. split.
      * intros id. rewrite elem_of_union, elem_of_singleton, lookup_insert_is_Some', Hall.
        naive_solver.
      * intros id g Hg. apply lookup_insert_Some in Hg as [[<- <-]|[Hne Hg]]; cbn.
        -- rewrite lookup_insert_eq. auto.
        -- destruct (Hkey id g Hg) as [Hid Hindex]. split; [exact Hid|].
           rewrite lookup_insert_ne; [exact Hindex|]. intros Heq.
           unfold getAgentByWallet in Hunbound. rewrite Heq, Hindex in Hunbound.
           cbn in Hunbound.
           destruct (String.eqb id "") eqn:Hempty.
           ++ apply String.eqb_eq in Hempty. subst id. congruence.
           ++ cbn in Hunbound. unfold getAgent in Hunbound. congruence.
Qed.

(** In every reachable state in which no agent has the empty id, the agent
    listing returns exactly the stored agents, every stored agent is the one
    [getAgentByWallet] finds for its wallet, and no two agents share a
    wallet. *)
Theorem one_agent_per_wallet (w : World) :
  reachable w →
  getAgent "" (store w) = None →
  (∀ g, g ∈ getAllAgents (store w) ↔ getAgent (agent_id g) (store w) = Some g)
  ∧ (∀ id g, getAgent id (store w) = Some g →
             agent_id g = id
             ∧ getAgentByWallet (agent_walletAddress g) (store w) = Some g)
  ∧ (∀ id1 id2 g1 g2,
       getAgent id1 (store w) = Some g1 → getAgent id2 (store w) = Some g2 →
       agent_walletAddress g1 = agent_walletAddress g2 → id1 = id2).
Proof.
  intros Hreach Hnamed. unfold getAgent in *.
  destruct (reachable_agents_indexed w Hreach Hnamed) as [Hall Hkey].
  split; [|split].
  - intros g. unfold getAllAgents. rewrite elem_of_listing. split.
    + intros (id & _ & Hg). unfold getAgent in Hg.
      rewrite (proj1 (Hkey id g Hg)). exact Hg.
    + intros Hg. exists (agent_id g). split; [|exact Hg].
      apply elem_of_elements, Hall. eauto.
  - intros id g Hg. destruct (Hkey id g Hg) as [Hid Hindex]. split; [exact Hid|].
    unfold getAgentByWallet. rewrite Hindex. cbn.
    destruct (String.eqb id "") eqn:Hempty.
    + apply String.eqb_eq in Hempty. subst id. congruence.
    + exact Hg.
  - intros id1 id2 g1 g2 Hg1 Hg2 Hsame.
    destruct (Hkey id1 g1 Hg1) as [_ H1]. destruct (Hkey id2 g2 Hg2) as [_ H2].
    rewrite Hsame in H1. congruence.
Qed.

(** ** The applications *)

Lemma insertApplicationSchema_Some (b data : InsertApplication) :
  insertApplicationSchema b = Some data →
  data = b
  ∧ len_between 32 44 (ia_walletAddress b) = true
  ∧ nonempty (ia_proofContent b) = true.
Proof.
  clear ADMIN_PASSWORD PublicKey_ok.
  unfold insertApplicationSchema. destruct (_ && _) eqn:Hchecks; [|discriminate].
  apply andb_true_iff in Hchecks. intros [= <-]. tauto.
Qed.

Lemma post_applications_cases (e : Env) (b : InsertApplication) (w : World) :
  (post_applications PublicKey_ok e b w).2 = w
  ∨ (∃ task,
       len_between 32 44 (ia_walletAddress b) = true
       ∧ nonempty (ia_proofContent b) = true
       ∧ PublicKey_ok (ia_walletAddress b) = true
       ∧ getTask (ia_taskId b) (store w) = Some task
       ∧ task_active task = true
       ∧ (post_applications PublicKey_ok e b w).2
         = with_store w
             (createApplication (uuidv4 e) (Date_now e 0) b (task_title task)
                (ProofType_string (task_proofType task)) (store w)).2).
Proof.
  clear ADMIN_PASSWORD.
  unfold post_applications, isValidWalletAddress.
  destruct (insertApplicationSchema b) as [data|] eqn:Hschema; [|left; reflexivity].
  apply insertApplicationSchema_Some in Hschema as (-> & Hlen & Hproof).
  destruct (PublicKey_ok (ia_walletAddress b)) eqn:Hok; [|left; reflexivity]. simpl.
  destruct (getTask _ _) as [task|] eqn:Htask; [|left; reflexivity].
  destruct (task_active task) eqn:Hactive; [|left; reflexivity]. simpl.
  destruct (match task_maxCompletions task with Some _ => _ | None => _ end);
    [left; reflexivity|].
  right. exists task. auto 10.
Qed.

(** What a request does to the applications: nothing, a submission, or the
    review of a pending one. *)
Lemma handle_applications (e : Env) (r : Request) (w : World) :
  (applications (store (handle e r w).2) = applications (store w))
  ∨ (∃ b task,
       len_between 32 44 (ia_walletAddress b) = true
       ∧ nonempty (ia_proofContent b) = true
       ∧ getTask (ia_taskId b) (store w) = Some task
       ∧ applications (store (handle e r w).2)
         = <[uuidv4 e := (createApplication (uuidv4 e) (Date_now e 0) b
                            (task_title task)
                            (ProofType_string (task_proofType task)) (store w)).1]>
             (applications (store w)))
  ∨ (∃ p id st s a txSignature paidAt,
       r = PUT_admin_application p id st
       ∧ review_status st = Some s
       ∧ getApplication id (store w) = Some a
       ∧ app_status a = pending
       ∧ applications (store (handle e r w).2)
         = <[id := merge_application a
                     (review_updates s (Date_now e 0) txSignature paidAt) id]>
             (applications (store w))).
Proof.
  assert (∀ b, applications (store (post_applications PublicKey_ok e b w).2)
               = applications (store w)
               ∨ (∃ task,
                    len_between 32 44 (ia_walletAddress b) = true
                    ∧ nonempty (ia_proofContent b) = true
                    ∧ getTask (ia_taskId b) (store w) = Some task
                    ∧ applications (store (post_applications PublicKey_ok e b w).2)
                      = <[uuidv4 e := (createApplication (uuidv4 e) (Date_now e 0) b
                                         (task_title task)
                                         (ProofType_string (task_proofType task))
                                         (store w)).1]>
                          (applications (store w)))) as Hpost.
  { intros b. destruct (post_applications_cases e b w)
      as [->|(task & Hlen & Hproof & _ & Htask & _ & ->)]; [left; reflexivity|].
    right. exists task. auto. }
  destruct r as [ | | | b | b | k | k b | k tid | k b | p | p b | p tid b | p tid
                | p | p aid st | p ].
  4: { simpl. destruct (Hpost b) as [H|[task H]]; [left; exact H|].
       right; left. exists b, task. exact H. }
  8: { simpl. unfold agentAuth.
       destruct (negb (truthy_string k)); [left; reflexivity|].
       destruct (getAgentByApiKey _ _) as [agent|]; [|left; reflexivity].
       destruct (negb (agent_active agent)); [left; reflexivity|].
       destruct (Hpost b) as [H|[task H]]; [left; exact H|].
       right; left. exists b, task. exact H. }
  13: { simpl. unfold adminAuth. destruct (decide _); [|left; reflexivity].
        unfold put_admin_application.
        destruct (review_status st) as [s|] eqn:Hst; [|left; reflexivity].
        destruct (getApplication aid (store w)) as [a|] eqn:Ha; [|left; reflexivity].
        destruct (bool_decide (app_status a = pending)) eqn:Hp; [|left; reflexivity].
        apply bool_decide_eq_true in Hp. simpl.
        destruct (bool_decide (s = approved)).
        - destruct (getTask _ _) as [task|] eqn:Htask; [|left; reflexivity].
          destruct (success _); simpl; [|left; reflexivity].
          right; right. exists p, aid, st, s, a. do 2 eexists.
          repeat (split; [first [reflexivity|assumption]|]).
          unfold incrementTaskCompletions, updateApplication, getApplication in *.
          rewrite Htask. simpl. unfold updateTask. rewrite Htask. simpl.
          rewrite Ha. reflexivity.
        - right; right. exists p, aid, st, s, a. do 2 eexists.
          repeat (split; [first [reflexivity|assumption]|]).
          unfold updateApplication. rewrite Ha. reflexivity. }
  all: left; simpl;
    unfold adminAuth, agentAuth, get_task, post_agent_register, post_admin_tasks,
      post_agent_tasks, put_admin_task, delete_admin_task,
      incrementAgentTasksCreated, updateTask, deleteTask;
    repeat (case_match; simplify_eq/=); reflexivity.
Qed.

(** No request removes an application or changes what was submitted (task,
    title and proof type as copied from the task, wallet, proof, time); the
    only change a stored application ever sees is its review, once, from
    pending to another status. *)
Theorem applications_keep_their_submission (e : Env) (r : Request) (w : World)
    (id : string) (a : Application) :
  fresh e w →
  getApplication id (store w) = Some a →
  ∃ a',
    getApplication id (store (handle e r w).2) = Some a'
    ∧ submission a' = submission a
    ∧ (a' = a ∨ app_status a = pending ∧ app_status a' ≠ pending).
Proof.
  intros (_ & Hfresh & _) Ha. unfold getApplication in *.
  destruct (handle_applications e r w)
    as [Happs|[(b & task & _ & _ & _ & Happs)
              |(p & id' & st & s & a0 & sig & paid & _ & Hst & Ha0 & Hp & Happs)]];
    rewrite Happs.
  - exists a. auto.
  - rewrite lookup_insert_ne by congruence. exists a. auto.
  - destruct (decide (id' = id)) as [->|Hne].
    + rewrite lookup_insert_eq. unfold getApplication in Ha0.
      assert (a0 = a) as -> by congruence.
      eexists. split; [reflexivity|]. split; [reflexivity|]. right.
      split; [exact Hp|]. cbn.
      destruct (review_status_cases _ _ Hst) as [-> | ->]; discriminate.
    + rewrite lookup_insert_ne by exact Hne. exists a. auto.
Qed.

(** ** The schemas of the stored records *)



(** ** The counters of creation *)

Lemma Q_succ_le (q : Q) (n : nat) :
  (inject_Z (Z.of_nat n) <= q)%Q → (inject_Z (Z.of_nat (S n)) <= q + 1)%Q.
Proof.
  intros H. rewrite Nat2Z.inj_succ. unfold Z.succ. rewrite inject_Z_plus.
  apply Qplus_le_compat; [exact H|apply Qle_refl].
Qed.

Lemma Q_pred_le (q : Q) (n : nat) :
  (inject_Z (Z.of_nat n) <= q)%Q → (inject_Z (Z.of_nat (Nat.pred n)) <= q)%Q.
Proof.
  intros H. eapply Qle_trans; [|exact H]. rewrite <- Zle_Qle. lia.
Qed.

Lemma counts_balanced_frame (s s' : Store) :
  size (applications s') = size (applications s) →
  size (agents s') = size (agents s) →
  size (tasks s') = size (tasks s) →
  totalApplications (stats s') = totalApplications (stats s) →
  totalAgents (stats s') = totalAgents (stats s) →
  totalTasks (stats s') = totalTasks (stats s) →
  counts_balanced s → counts_balanced s'.
Proof. unfold counts_balanced. intros -> -> -> -> -> ->. auto. Qed.

Lemma effect_counts_balanced (e : Env) (r : Request) (w w' : World) :
  effect PublicKey_ok e r w w' → fresh e w →
  counts_balanced (store w) → counts_balanced (store w').
Proof.
  intros Heff (Hfresh_task & Hfresh_app & Hfresh_agent) Hbal.
  assert (∀ data,
            counts_balanced (createTask (uuidv4 e) (Date_now e 0) data (store w)).2)
    as Hcreated.
  { intros data. destruct Hbal as (Happs & Hagents & Htasks).
    unfold counts_balanced, createTask, incrementStat. cbn.
    rewrite map_size_insert_None by exact Hfresh_task.
    split; [exact Happs|]. split; [exact Hagents|]. apply Q_succ_le. exact Htasks. }
  destruct Heff as
    [ | txSignature fromWallet | toWallet amountSOL result Hfail
    | b data Hschema | b data agentId Hschema | p tid b Hr | p tid Hr
    | data task Htask | data paymentAmount
    | p aid st a Hr Hst Ha Hp | p aid st a task sig Hr Hst Ha Hp Htask Hpay ];
    try exact Hbal.
  - apply Hcreated.
  - cbn. eapply counts_balanced_frame; [..|apply (Hcreated data)];
      unfold incrementAgentTasksCreated;
      destruct (getAgent _ _) as [g|] eqn:Hg; try reflexivity.
    cbn. apply map_size_insert_Some. unfold getAgent in Hg. eauto.
  - cbn. eapply counts_balanced_frame; [..|exact Hbal];
      unfold updateTask; destruct (getTask _ _) as [t|] eqn:Ht; try reflexivity.
    cbn. apply map_size_insert_Some. unfold getTask in Ht. eauto.
  - cbn. unfold deleteTask. destruct (getTask _ _) as [t|] eqn:Ht; [|exact Hbal].
    destruct Hbal as (Happs & Hagents & Htasks). unfold counts_balanced. cbn.
    split; [exact Happs|]. split; [exact Hagents|].
    rewrite map_size_delete_Some by (unfold getTask in Ht; eauto).
    apply Q_pred_le. exact Htasks.
  - destruct Hbal as (Happs & Hagents & Htasks).
    unfold counts_balanced, createApplication, incrementStat. cbn.
    rewrite map_size_insert_None by exact Hfresh_app.
    split; [apply Q_succ; exact Happs|]. split; [exact Hagents|exact Htasks].
  - destruct Hbal as (Happs & Hagents & Htasks).
    unfold counts_balanced, createAgent, incrementStat. cbn.
    rewrite map_size_insert_None by exact Hfresh_agent.
    split; [exact Happs|]. split; [apply Q_succ; exact Hagents|exact Htasks].
  - cbn. rewrite (updateApplication_Some _ _ _ _ Ha).
    eapply counts_balanced_frame; [..|exact Hbal]; try reflexivity.
    cbn. apply map_size_insert_Some. unfold getApplication in Ha. eauto.
  - cbn. rewrite (incrementTaskCompletions_Some _ _ _ Htask).
    erewrite updateApplication_Some by exact Ha.
    eapply counts_balanced_frame; [..|exact Hbal]; try reflexivity; cbn.
    + apply map_size_insert_Some. unfold getApplication in Ha. eauto.
    + apply map_size_insert_Some. unfold getTask in Htask. eauto.
Qed.

(** In every reachable state [totalApplications] is the number of stored
    applications and [totalAgents] the number of stored agents; [totalTasks]
    counts the tasks ever created, so it is at least the number of stored
    tasks. *)
Theorem creation_counters_match_store (w : World) :
  reachable w →
  (totalApplications (getStats (store w))
   == inject_Z (Z.of_nat (size (applications (store w)))))%Q
  ∧ (totalAgents (getStats (store w))
     == inject_Z (Z.of_nat (size (agents (store w)))))%Q
  ∧ (inject_Z (Z.of_nat (size (tasks (store w)))) <= totalTasks (getStats (store w)))%Q.
Proof.
  induction 1 as [|e r w Hreach IH Hfresh].
  - cbn. rewrite !map_size_empty. split; [reflexivity|]. split; [reflexivity|].
    apply Qle_refl.
  - apply (effect_counts_balanced e r w _
             (handle_effect ADMIN_PASSWORD PublicKey_ok e r w) Hfresh IH).
Qed.

(** ** Submitting an application *)

(** A submission is accepted (201) exactly when the body passes the schema,
    the wallet is a valid address, and the task is stored, active and, if it
    declares a non-zero [maxCompletions], not yet at it.  It then stores a
    pending application carrying the title and the proof type the task has at
    that moment, enters it in the three index sets, counts it, and touches
    neither the tasks nor the gateway. *)
Theorem submission_spec (e : Env) (b : InsertApplication) (w : World) :
  let answer := post_applications PublicKey_ok e b w in
  (status answer.1 = 201%nat ↔
     len_between 32 44 (ia_walletAddress b) = true
     ∧ nonempty (ia_proofContent b) = true
     ∧ PublicKey_ok (ia_walletAddress b) = true
     ∧ ∃ task,
         getTask (ia_taskId b) (store w) = Some task
         ∧ task_active task = true
         ∧ ∀ m, task_maxCompletions task = Some m →
                m = 0%Z ∨ (task_totalCompletions task < m)%Z)
  ∧ (status answer.1 = 201%nat →
     ∃ task,
       getTask (ia_taskId b) (store w) = Some task
       ∧ let a :=
           {| app_id := uuidv4 e;
              app_taskId := ia_taskId b;
              app_taskTitle := task_title task;
              app_walletAddress := ia_walletAddress b;
              app_proofType := ProofType_string (task_proofType task);
              app_proofContent := ia_proofContent b;
              app_status := pending;
              app_submittedAt := Date_now e 0;
              app_reviewedAt := None;
              app_paidAt := None;
              app_txSignature := None |} in
         answer.1 = json 201 (JApplication (Some a))
         ∧ getApplication (uuidv4 e) (store answer.2) = Some a
         ∧ uuidv4 e ∈ all_applications (store answer.2)
         ∧ uuidv4 e ∈ pending_applications (store answer.2)
         ∧ uuidv4 e ∈ default ∅ (task_applications (store answer.2) !! ia_taskId b)
         ∧ totalApplications (getStats (store answer.2))
           = (totalApplications (getStats (store w)) + 1)%Q
         ∧ tasks (store answer.2) = tasks (store w)
         ∧ agents (store answer.2) = agents (store w)
         ∧ calls answer.2 = calls w).
Proof using Type.
  clear ADMIN_PASSWORD.
  cbv zeta. unfold post_applications, isValidWalletAddress, insertApplicationSchema.
  destruct (len_between 32 44 (ia_walletAddress b)); simpl;
    [|split; [split; [discriminate|intros (? & _); discriminate]|discriminate]].
  destruct (nonempty (ia_proofContent b)); simpl;
    [|split; [split; [discriminate|intros (_ & ? & _); discriminate]|discriminate]].
  destruct (PublicKey_ok (ia_walletAddress b)); simpl;
    [|split; [split; [discriminate|intros (_ & _ & ? & _); discriminate]|discriminate]].
  destruct (getTask (ia_taskId b) (store w)) as [task|] eqn:Htask;
    [|split; [split; [discriminate|intros (_ & _ & _ & t & ? & _); discriminate]
             |discriminate]].
  destruct (task_active task) eqn:Hactive; simpl;
    [|split; [split; [discriminate|]|discriminate];
      intros (_ & _ & _ & t & [= <-] & ? & _); congruence].
  destruct (task_maxCompletions task) as [m|] eqn:Hmax.
  - destruct (negb (m =? 0)%Z && (m <=? task_totalCompletions task)%Z) eqn:Hfull; simpl.
    + split; [split; [discriminate|]|discriminate].
      intros (_ & _ & _ & t & [= <-] & _ & Hroom).
      apply andb_true_iff in Hfull as [Hm Hle].
      apply negb_true_iff, Z.eqb_neq in Hm. apply Z.leb_le in Hle.
      destruct (Hroom m Hmax); lia.
    + split.
      * split; [intros _|reflexivity]. repeat (split; [reflexivity|]).
        exists task. split; [reflexivity|]. split; [exact Hactive|].
        intros m' Hm'. rewrite Hmax in Hm'. injection Hm' as <-.
        apply andb_false_iff in Hfull as [Hm|Hle].
        -- left. apply negb_false_iff, Z.eqb_eq in Hm. exact Hm.
        -- right. apply Z.leb_gt in Hle. exact Hle.
      * intros _. exists task. split; [reflexivity|].
        unfold getApplication, sadd_task_applications; simpl.
        rewrite !lookup_insert_eq. simpl.
        repeat (split; [first [reflexivity|set_solver]|]). reflexivity.
  - simpl. split.
    + split; [intros _|reflexivity]. repeat (split; [reflexivity|]).
      exists task. split; [reflexivity|]. split; [exact Hactive|].
      intros m' Hm'. rewrite Hmax in Hm'. discriminate.
    + intros _. exists task. split; [reflexivity|].
      unfold getApplication, sadd_task_applications; simpl.
      rewrite !lookup_insert_eq. simpl.
      repeat (split; [first [reflexivity|set_solver]|]). reflexivity.
Qed.

(** ** Reviewing an application *)

(** A review is accepted (200) exactly when the status is [approved] or
    [rejected], the application is stored and still pending and, for an
    approval, its task is still stored and the payment of the task's reward to
    the applicant's wallet succeeds. *)
Theorem review_accepted_iff (e : Env) (id : string) (st : option string)
    (w : World) :
  status (put_admin_application PublicKey_ok e id st w).1 = 200%nat ↔
  ∃ s a,
    review_status st = Some s
    ∧ getApplication id (store w) = Some a
    ∧ app_status a = pending
    ∧ (s = approved →
       ∃ task,
         getTask (app_taskId a) (store w) = Some task
         ∧ success (sendPayment PublicKey_ok e (app_walletAddress a)
                      (task_reward task)) = true).
Proof using Type.
  clear ADMIN_PASSWORD.
  unfold put_admin_application.
  destruct (review_status st) as [s|] eqn:Hst;
    [|split; [discriminate|intros (? & ? & ? & _); discriminate]].
  destruct (review_status_cases st s Hst) as [-> | ->].
  - destruct (getApplication id (store w)) as [a|] eqn:Ha;
      [|split; [discriminate|intros (? & ? & _ & ? & _); discriminate]].
    destruct (decide (app_status a = pending)) as [Hp|Hp].
    + rewrite (bool_decide_eq_true_2 _ Hp). simpl.
      destruct (getTask (app_taskId a) (store w)) as [task|] eqn:Htask.
      * destruct (success (sendPayment PublicKey_ok e (app_walletAddress a)
                             (task_reward task))) eqn:Hpay; simpl.
        -- unfold updateApplication, incrementTaskCompletions.
           rewrite Htask. unfold updateTask. rewrite Htask. simpl.
           unfold getApplication in *. simpl. rewrite Ha. simpl.
           split; [intros _|reflexivity].
           exists approved, a. repeat (split; [done|]). intros _.
           exists task. split; [exact Htask|exact Hpay].
        -- split; [discriminate|].
           intros (s & a' & [= <-] & [= <-] & _ & Hgo).
           destruct (Hgo eq_refl) as (task' & Htask' & Hpay').
           rewrite Htask in Htask'. injection Htask' as <-. congruence.
      * split; [discriminate|].
        intros (s & a' & [= <-] & [= <-] & _ & Hgo).
        destruct (Hgo eq_refl) as (task' & Htask' & _).
        rewrite Htask in Htask'. discriminate.
    + rewrite (bool_decide_eq_false_2 _ Hp). simpl.
      split; [discriminate|]. intros (s & a' & _ & [= <-] & ? & _). done.
  - destruct (getApplication id (store w)) as [a|] eqn:Ha;
      [|split; [discriminate|intros (? & ? & _ & ? & _); discriminate]].
    destruct (decide (app_status a = pending)) as [Hp|Hp].
    + rewrite (bool_decide_eq_true_2 _ Hp). simpl.
      unfold updateApplication. rewrite Ha. simpl.
      split; [intros _|reflexivity].
      exists rejected, a. repeat (split; [done|]). discriminate.
    + rewrite (bool_decide_eq_false_2 _ Hp). simpl.
      split; [discriminate|]. intros (s & a' & _ & [= <-] & ? & _). done.
Qed.

(** Rejecting a pending application answers 200 with the application marked
    [rejected] and reviewed now, keeps its payment fields as they were,
    removes it from the pending set and changes nothing else: no other
    application, no task, no agent, no counter, and no payment is asked of
    the gateway. *)
Theorem rejection_spec (e : Env) (id : string) (st : option string)
    (w : World) (a : Application) :
  review_status st = Some rejected →
  getApplication id (store w) = Some a →
  app_status a = pending →
  let answer := put_admin_application PublicKey_ok e id st w in
  let a' :=
    {| app_id := id;
       app_taskId := app_taskId a;
       app_taskTitle := app_taskTitle a;
       app_walletAddress := app_walletAddress a;
       app_proofType := app_proofType a;
       app_proofContent := app_proofContent a;
       app_status := rejected;
       app_submittedAt := app_submittedAt a;
       app_reviewedAt := Some (Date_now e 0);
       app_paidAt := app_paidAt a;
       app_txSignature := app_txSignature a |} in
  answer.1 = json 200 (JApplication (Some a'))
  ∧ getApplication id (store answer.2) = Some a'
  ∧ (∀ id', id' ≠ id →
            getApplication id' (store answer.2) = getApplication id' (store w))
  ∧ (∀ id', id' ∈ pending_applications (store answer.2) ↔
            id' ∈ pending_applications (store w) ∧ id' ≠ id)
  ∧ all_applications (store answer.2) = all_applications (store w)
  ∧ task_applications (store answer.2) = task_applications (store w)
  ∧ tasks (store answer.2) = tasks (store w)
  ∧ active_tasks (store answer.2) = active_tasks (store w)
  ∧ agents (store answer.2) = agents (store w)
  ∧ getStats (store answer.2) = getStats (store w)
  ∧ calls answer.2 = calls w.
Proof using Type.
  clear ADMIN_PASSWORD.
  intros Hst Ha Hp. cbv zeta. unfold put_admin_application.
  rewrite Hst, Ha. rewrite (bool_decide_eq_true_2 _ Hp). simpl.
  unfold updateApplication. rewrite Ha. simpl.
  unfold getApplication in *. simpl. rewrite lookup_insert_eq.
  destruct a; simpl in *.
  split; [reflexivity|]. split; [reflexivity|].
  split; [intros id' Hid; apply lookup_insert_ne; congruence|].
  split; [intros id'; set_solver|].
  repeat (split; [reflexivity|]). reflexivity.
Qed.


(** ** Registering an agent *)

(** A registration is accepted (201) exactly when the body passes the schema,
    the wallet is a valid address bound to no agent, and the payment of the
    fee from that wallet is verified.  It then stores an active agent with no
    task created, carrying the verified amount, answers with its API key, and
    makes it reachable by id, by API key and by wallet; it counts one more
    agent, asks the gateway for that one verification, and touches neither
    tasks nor applications. *)
Theorem registration_spec (e : Env) (b : RegisterAgent) (w : World) :
  let answer := post_agent_register PublicKey_ok e b w in
  let verification :=
    verifyRegistrationPayment e (ra_txSignature b) (ra_wallet b) in
  (status answer.1 = 201%nat ↔
     nonempty (ra_name b) = true
     ∧ len_between 32 44 (ra_wallet b) = true
     ∧ nonempty (ra_txSignature b) = true
     ∧ PublicKey_ok (ra_wallet b) = true
     ∧ getAgentByWallet (ra_wallet b) (store w) = None
     ∧ valid verification = true)
  ∧ (status answer.1 = 201%nat →
     let g :=
       {| agent_id := uuidv4 e;
          agent_name := ra_name b;
          agent_walletAddress := ra_wallet b;
          agent_apiKey := generateApiKey e;
          agent_paymentTxSignature := ra_txSignature b;
          agent_paymentAmount := default 0%Q (tv_amount verification);
          agent_createdAt := Date_now e 0;
          agent_active := true;
          agent_tasksCreated := 0 |} in
     answer.1 = json 201 (JRegistered (uuidv4 e) (ra_name b) (ra_wallet b)
                            (generateApiKey e) (Date_now e 0))
     ∧ getAgent (uuidv4 e) (store answer.2) = Some g
     ∧ (uuidv4 e ≠ "" →
        getAgentByApiKey (generateApiKey e) (store answer.2) = Some g
        ∧ getAgentByWallet (ra_wallet b) (store answer.2) = Some g)
     ∧ uuidv4 e ∈ all_agents (store answer.2)
     ∧ totalAgents (getStats (store answer.2))
       = (totalAgents (getStats (store w)) + 1)%Q
     ∧ tasks (store answer.2) = tasks (store w)
     ∧ applications (store answer.2) = applications (store w)
     ∧ calls answer.2
       = VerifyTransfer (ra_txSignature b) (ra_wallet b)
           REGISTRATION_WALLET REGISTRATION_FEE :: calls w).
Proof using Type.
  clear ADMIN_PASSWORD.
  cbv zeta. unfold post_agent_register, isValidWalletAddress, registerAgentSchema.
  destruct (nonempty (ra_name b)); simpl;
    [|split; [split; [discriminate|intros (? & _); discriminate]|discriminate]].
  destruct (len_between 32 44 (ra_wallet b)); simpl;
    [|split; [split; [discriminate|intros (_ & ? & _); discriminate]|discriminate]].
  destruct (nonempty (ra_txSignature b)); simpl;
    [|split; [split; [discriminate|intros (_ & _ & ? & _); discriminate]|discriminate]].
  destruct (PublicKey_ok (ra_wallet b)); simpl;
    [|split; [split; [discriminate|intros (_ & _ & _ & ? & _); discriminate]
             |discriminate]].
  destruct (getAgentByWallet (ra_wallet b) (store w)) as [bound|] eqn:Hbound;
    [split; [split; [discriminate|intros (_ & _ & _ & _ & ? & _); discriminate]
            |discriminate]|].
  destruct (valid (verifyRegistrationPayment e (ra_txSignature b) (ra_wallet b)))
    eqn:Hvalid; simpl;
    [|split; [split; [discriminate|intros (_ & _ & _ & _ & _ & ?); discriminate]
             |discriminate]].
  split; [split; [intros _; repeat split; reflexivity|reflexivity]|].
  intros _. unfold getAgentByApiKey, getAgentByWallet, getAgent. simpl.
  rewrite !lookup_insert_eq. simpl.
  split; [reflexivity|]. split; [reflexivity|].
  split.
  { intros Hnamed. apply String.eqb_neq in Hnamed. rewrite Hnamed. simpl.
    split; reflexivity. }
  split; [set_solver|]. repeat (split; [reflexivity|]). reflexivity.
Qed.

(** ** Tasks created by agents *)


(** ** Deleting and deactivating a task *)

(** Deleting a stored task answers 200 and removes the task and its two index
    entries, but none of its applications.  From then on a submission for it
    is answered 404, and so is the approval of one of its pending
    applications, which stays pending, unpaid, with no payment asked of the
    gateway. *)
Theorem deleted_task_strands_applications (e : Env) (id : string) (w : World)
    (t : Task) :
  getTask id (store w) = Some t →
  let answer := delete_admin_task id w in
  answer.1 = json 200 JDeleted
  ∧ getTask id (store answer.2) = None
  ∧ (id ∉ all_tasks (store answer.2))
  ∧ (id ∉ active_tasks (store answer.2))
  ∧ (∀ id', id' ≠ id → getTask id' (store answer.2) = getTask id' (store w))
  ∧ applications (store answer.2) = applications (store w)
  ∧ pending_applications (store answer.2) = pending_applications (store w)
  ∧ task_applications (store answer.2) = task_applications (store w)
  ∧ getStats (store answer.2) = getStats (store w)
  ∧ (∀ b, ia_taskId b = id →
          is_Some (insertApplicationSchema b) →
          PublicKey_ok (ia_walletAddress b) = true →
          post_applications PublicKey_ok e b answer.2
          = (json 404 (JError "Task not found"), answer.2))
  ∧ (∀ aid a, getApplication aid (store w) = Some a →
              app_taskId a = id →
              app_status a = pending →
              put_admin_application PublicKey_ok e aid (Some "approved") answer.2
              = (json 404 (JError "Associated task not found"), answer.2)).
Proof using Type.
  clear ADMIN_PASSWORD.
  intros Ht. cbv zeta. unfold delete_admin_task, deleteTask. rewrite Ht. simpl.
  unfold getTask in *. simpl. rewrite lookup_delete_eq.
  split; [reflexivity|]. split; [reflexivity|].
  split; [set_solver|]. split; [set_solver|].
  split; [intros id' Hid; apply lookup_delete_ne; congruence|].
  repeat (split; [reflexivity|]).
  split.
  - intros b Hb [data Hdata] Hwallet.
    unfold post_applications, isValidWalletAddress. rewrite Hdata.
    destruct (insertApplicationSchema_Some _ _ Hdata) as (-> & _ & _).
    rewrite Hwallet. simpl. unfold getTask. simpl.
    rewrite Hb, lookup_delete_eq. reflexivity.
  - intros aid a Ha Hid Hp.
    unfold put_admin_application. simpl.
    unfold getApplication in *. simpl. rewrite Ha.
    rewrite (bool_decide_eq_true_2 _ Hp). simpl.
    unfold getTask. simpl. rewrite Hid, lookup_delete_eq. reflexivity.
Qed.

(** Setting [active] to false on a stored task answers 200 with the task
    under its own id, whatever id the body carries, and takes it out of the
    active set; from then on a submission for it is answered 400.  An update
    of a task that is not stored is answered 404 and stores nothing. *)
Theorem deactivated_task_refuses_submissions (e : Env) (id : string)
    (b : TaskUpdates) (w : World) :
  let answer := put_admin_task id b w in
  (getTask id (store w) = None →
   answer = (json 404 (JError "Task not found"), w))
  ∧ (∀ t, getTask id (store w) = Some t →
          ∃ t',
            answer.1 = json 200 (JTask (Some t'))
            ∧ getTask id (store answer.2) = Some t'
            ∧ task_id t' = id
            ∧ (∀ id', id' ≠ id →
                      getTask id' (store answer.2) = getTask id' (store w))
            ∧ all_tasks (store answer.2) = all_tasks (store w)
            ∧ applications (store answer.2) = applications (store w)
            ∧ getStats (store answer.2) = getStats (store w)
            ∧ (tu_active b = Some false →
               task_active t' = false
               ∧ (id ∉ active_tasks (store answer.2))
               ∧ ∀ a, ia_taskId a = id →
                      is_Some (insertApplicationSchema a) →
                      PublicKey_ok (ia_walletAddress a) = true →
                      post_applications PublicKey_ok e a answer.2
                      = (json 400 (JError "Task is no longer active"), answer.2))).
Proof using Type.
  clear ADMIN_PASSWORD.
  cbv zeta. unfold put_admin_task. split.
  - intros ->. reflexivity.
  - intros t Ht. rewrite Ht. unfold updateTask. rewrite Ht. simpl.
    exists (merge_task t b id).
    unfold getTask in *. simpl. rewrite lookup_insert_eq.
    split; [reflexivity|]. split; [reflexivity|]. split; [reflexivity|].
    split; [intros id' Hid; apply lookup_insert_ne; congruence|].
    repeat (split; [reflexivity|]).
    intros Hoff. rewrite Hoff. simpl.
    split; [reflexivity|]. split; [set_solver|].
    intros a Ha [data Hdata] Hwallet.
    unfold post_applications, isValidWalletAddress. rewrite Hdata.
    destruct (insertApplicationSchema_Some _ _ Hdata) as (-> & _ & _).
    rewrite Hwallet. simpl. unfold getTask. simpl.
    rewrite Ha, lookup_insert_eq. simpl. rewrite Hoff. reflexivity.
Qed.

(** ** The admin's listing of the agents *)

Lemma length_substring_0 (n : nat) (s : string) :
  String.length (String.substring 0 n s) = Nat.min n (String.length s).
Proof.
  revert s. induction n as [|n IH]; intros [|c s]; simpl; try reflexivity.
  rewrite IH. reflexivity.
Qed.

Lemma length_safeAgent (g : Agent) :
  String.length (agent_apiKey (safeAgent g))
  = (Nat.min 10 (String.length (agent_apiKey g)) + 3)%nat.
Proof.
  unfold safeAgent. cbn [agent_apiKey].
  rewrite length_append, length_substring_0. reflexivity.
Qed.

Lemma prefix_substring_0 (n : nat) (s : string) :
  String.prefix (String.substring 0 n s) s = true.
Proof.
  revert s. induction n as [|n IH]; intros [|c s]; simpl; try reflexivity.
  destruct (Ascii.ascii_dec c c) as [_|Hc]; [apply IH|destruct Hc; reflexivity].
Qed.

(** With the admin password the listing of the agents answers 200 with one
    entry per listed agent, in the same order, and changes nothing.  Each
    entry shows the agent as stored except for its API key: what is shown is
    the first ten characters of the key (the whole key when it is shorter)
    followed by three dots, so that a key of more than thirteen characters,
    as the generated ones are, is never returned in full. *)
Theorem admin_agents_masked (e : Env) (w : World) :
  ∃ l,
    handle e (GET_admin_agents (Some ADMIN_PASSWORD)) w = (json 200 (JAgents l), w)
    ∧ List.length l = List.length (getAllAgents (store w))
    ∧ ∀ (i : nat) (g : Agent),
        getAllAgents (store w) !! i = Some g →
        ∃ g' shown,
          l !! i = Some g'
          ∧ agent_id g' = agent_id g
          ∧ agent_name g' = agent_name g
          ∧ agent_walletAddress g' = agent_walletAddress g
          ∧ agent_paymentTxSignature g' = agent_paymentTxSignature g
          ∧ agent_paymentAmount g' = agent_paymentAmount g
          ∧ agent_createdAt g' = agent_createdAt g
          ∧ agent_active g' = agent_active g
          ∧ agent_tasksCreated g' = agent_tasksCreated g
          ∧ agent_apiKey g' = shown ++ "..."
          ∧ String.prefix shown (agent_apiKey g) = true
          ∧ String.length shown = Nat.min 10 (String.length (agent_apiKey g))
          ∧ ((13 < String.length (agent_apiKey g))%nat →
             agent_apiKey g' ≠ agent_apiKey g).
Proof.
  exists (safeAgent <$> getAllAgents (store w)). simpl. unfold adminAuth.
  rewrite decide_True by reflexivity.
  split; [reflexivity|]. split; [apply length_fmap|].
  intros i g Hg. exists (safeAgent g), (String.substring 0 10 (agent_apiKey g)).
  split; [rewrite list_lookup_fmap, Hg; reflexivity|].
  repeat (split; [reflexivity|]).
  split; [apply prefix_substring_0|]. split; [apply length_substring_0|].
  pose proof (length_safeAgent g) as Hlen.
  intros Hlong Hsame. rewrite Hsame in Hlen. lia.
Qed.

End more_route_properties.

(** ** The properties at work *)

Lemma errors_commit_nothing_witness :
  store (handle0 (env_paying "a9" 9000 0)
           (POST_applications (sample_application "missing")) world_submitted).2
  = store world_submitted.
Proof.
  apply (errors_commit_nothing default_password bs58_PublicKey_ok).
  apply Nat.leb_le. vm_compute. reflexivity.
Defined.

Lemma reads_change_nothing_witness :
  (handle0 (env_paying "a9" 9000 0) (GET_task "t1") world_submitted).2
  = world_submitted.
Proof.
  apply (reads_change_nothing default_password bs58_PublicKey_ok). reflexivity.
Defined.

Lemma task_listings_complete_witness :
  ∃ t, t ∈ getActiveTasks (store world_two_approved)
       ∧ getTask "t1" (store world_two_approved) = Some t.
Proof.
  assert (∃ t, getTask "t1" (store world_two_approved) = Some t
               ∧ task_id t = "t1" ∧ task_active t = true)
    as (t & Ht & Hid & Hactive).
  { eexists. split; [vm_compute; reflexivity|]. split; reflexivity. }
  exists t. split; [|exact Ht].
  apply (proj1 (proj2 (task_listings_complete default_password bs58_PublicKey_ok
                         world_two_approved reachable_world_two_approved))).
  rewrite Hid. split; [exact Ht|exact Hactive].
Defined.

Lemma application_listings_complete_witness :
  ∃ a, a ∈ getApplicationsByTask "t1" (store world_two_approved)
       ∧ getApplication "a2" (store world_two_approved) = Some a.
Proof.
  assert (∃ a, getApplication "a2" (store world_two_approved) = Some a
               ∧ app_id a = "a2" ∧ app_taskId a = "t1")
    as (a & Ha & Hid & Htask).
  { eexists. split; [vm_compute; reflexivity|]. split; reflexivity. }
  exists a. split; [|exact Ha].
  apply (proj1 (proj2 (proj2 (application_listings_complete default_password
                                bs58_PublicKey_ok world_two_approved
                                reachable_world_two_approved)))).
  rewrite Hid. split; [exact Ha|exact Htask].
Defined.

Lemma agents_keep_their_credentials_witness :
  ∃ g g',
    getAgent "g1" (store world_registered) = Some g
    ∧ getAgent "g1"
        (store (handle0 (env_paying "t9" 9000 0)
                  (POST_agent_tasks (Some "mb_g1") (sample_task 0.05 None))
                  world_registered).2) = Some g'
    ∧ credentials g' = credentials g.
Proof.
  assert (∃ g, getAgent "g1" (store world_registered) = Some g) as [g Hg].
  { eexists. vm_compute. reflexivity. }
  assert (fresh (env_paying "t9" 9000 0) world_registered) as Hfresh.
  { vm_compute. tauto. }
  destruct (agents_keep_their_credentials default_password bs58_PublicKey_ok
              (env_paying "t9" 9000 0)
              (POST_agent_tasks (Some "mb_g1") (sample_task 0.05 None))
              world_registered "g1" g Hfresh Hg) as (g' & Hg' & Hcred & _).
  exists g, g'. split; [exact Hg|]. split; [exact Hg'|exact Hcred].
Defined.

Lemma one_agent_per_wallet_witness :
  ∃ g, getAgent "g1" (store world_registered) = Some g
       ∧ getAgentByWallet (agent_walletAddress g) (store world_registered) = Some g.
Proof.
  assert (∃ g, getAgent "g1" (store world_registered) = Some g) as [g Hg].
  { eexists. vm_compute. reflexivity. }
  assert (getAgent "" (store world_registered) = None) as Hnamed.
  { vm_compute. reflexivity. }
  exists g. split; [exact Hg|].
  exact (proj2 (proj1 (proj2 (one_agent_per_wallet default_password
                                bs58_PublicKey_ok world_registered
                                reachable_world_registered Hnamed)) "g1" g Hg)).
Defined.

Lemma applications_keep_their_submission_witness :
  ∃ a a',
    getApplication "a1" (store world_submitted) = Some a
    ∧ getApplication "a1"
        (store (handle0 (env_paying "x1" 4000 0)
                  (PUT_admin_application admin "a1" (Some "approved"))
                  world_submitted).2) = Some a'
    ∧ submission a' = submission a.
Proof.
  assert (∃ a, getApplication "a1" (store world_submitted) = Some a) as [a Ha].
  { eexists. vm_compute. reflexivity. }
  assert (fresh (env_paying "x1" 4000 0) world_submitted) as Hfresh.
  { vm_compute. tauto. }
  destruct (applications_keep_their_submission default_password bs58_PublicKey_ok
              (env_paying "x1" 4000 0)
              (PUT_admin_application admin "a1" (Some "approved"))
              world_submitted "a1" a Hfresh Ha) as (a' & Ha' & Hsub & _).
  exists a, a'. split; [exact Ha|]. split; [exact Ha'|exact Hsub].
Defined.


Lemma creation_counters_match_store_witness :
  (totalApplications (getStats (store world_two_approved))
   == inject_Z (Z.of_nat (size (applications (store world_two_approved)))))%Q.
Proof.
  exact (proj1 (creation_counters_match_store default_password bs58_PublicKey_ok
                  world_two_approved reachable_world_two_approved)).
Defined.

Lemma submission_spec_witness :
  status (post_applications bs58_PublicKey_ok (env_paying "a2" 3000 0)
            (sample_application "t1") world_submitted).1 = 201%nat.
Proof.
  apply (proj1 (submission_spec bs58_PublicKey_ok (env_paying "a2" 3000 0)
                  (sample_application "t1") world_submitted)).
  split; [reflexivity|]. split; [reflexivity|]. split; [vm_compute; reflexivity|].
  eexists. split; [vm_compute; reflexivity|]. split; [reflexivity|].
  intros m [= <-]. right. reflexivity.
Defined.

Lemma review_accepted_iff_witness :
  status (put_admin_application bs58_PublicKey_ok (env_failing "x1" 4000) "a1"
            (Some "approved") world_submitted).1 ≠ 200%nat.
Proof.
  intros Haccepted.
  apply (review_accepted_iff bs58_PublicKey_ok (env_failing "x1" 4000) "a1"
           (Some "approved") world_submitted) in Haccepted
    as (s & a & Hs & Ha & _ & Hpaid).
  injection Hs as <-. destruct (Hpaid eq_refl) as (task & Htask & Hpay).
  vm_compute in Ha. injection Ha as <-.
  vm_compute in Htask. injection Htask as <-.
  vm_compute in Hpay. discriminate.
Defined.

Lemma rejection_spec_witness :
  calls (put_admin_application bs58_PublicKey_ok (env_paying "x1" 4000 0) "a1"
           (Some "rejected") world_submitted).2
  = calls world_submitted.
Proof.
  assert (∃ a, getApplication "a1" (store world_submitted) = Some a
               ∧ app_status a = pending) as (a & Ha & Hp).
  { eexists. split; [vm_compute; reflexivity|reflexivity]. }
  pose proof (rejection_spec bs58_PublicKey_ok (env_paying "x1" 4000 0) "a1"
                (Some "rejected") world_submitted a eq_refl Ha Hp) as Hspec.
  cbv zeta in Hspec.
  destruct Hspec as (_ & _ & _ & _ & _ & _ & _ & _ & _ & _ & Hcalls).
  exact Hcalls.
Defined.


Lemma registration_spec_witness :
  status (post_agent_register bs58_PublicKey_ok (env_paying "g1" 500 100000000)
            sample_registration empty_world).1 = 201%nat.
Proof.
  apply (proj1 (registration_spec bs58_PublicKey_ok
                  (env_paying "g1" 500 100000000) sample_registration
                  empty_world)).
  repeat (split; [vm_compute; reflexivity|]). vm_compute. reflexivity.
Defined.


Lemma deleted_task_strands_applications_witness :
  put_admin_application bs58_PublicKey_ok (env_paying "x1" 4000 0) "a1"
    (Some "approved") (delete_admin_task "t1" world_submitted).2
  = (json 404 (JError "Associated task not found"),
     (delete_admin_task "t1" world_submitted).2).
Proof.
  assert (∃ t, getTask "t1" (store world_submitted) = Some t) as [t Ht].
  { eexists. vm_compute. reflexivity. }
  assert (∃ a, getApplication "a1" (store world_submitted) = Some a
               ∧ app_taskId a = "t1" ∧ app_status a = pending)
    as (a & Ha & Hid & Hp).
  { eexists. split; [vm_compute; reflexivity|]. split; reflexivity. }
  pose proof (deleted_task_strands_applications bs58_PublicKey_ok
                (env_paying "x1" 4000 0) "t1" world_submitted t Ht) as Hspec.
  cbv zeta in Hspec.
  destruct Hspec as (_ & _ & _ & _ & _ & _ & _ & _ & _ & _ & Hstranded).
  exact (Hstranded "a1" a Ha Hid Hp).
Defined.

(** The lamports asked for some amounts in SOL: 1.001 SOL and 1e9 multiply
    to the number just below 1001000000; 2^64 lamports and a negative amount
    are no unsigned 64-bit integer, nor is an amount that reads as
    Infinity. *)
Example lamports_of_samples :
  u64 (lamports_of 0.05) = Some 50000000%Z
  ∧ u64 (lamports_of 1.001) = Some 1000999999%Z
  ∧ u64 (lamports_of 0.29) = Some 290000000%Z
  ∧ u64 (lamports_of 18446744073.709551616) = None
  ∧ u64 (lamports_of (-1)) = None
  ∧ u64 (lamports_of (inject_Z (10 ^ 999))) = None.
Proof. vm_compute. repeat split; reflexivity. Qed.

(** A registration paid with exactly 10^8 lamports is verified, one paid
    with a lamport less is not. *)
Example registration_fee_boundary :
  valid (verifyRegistrationPayment (env_paying "g1" 500 100000000) "sig"
           worker_wallet) = true
  ∧ valid (verifyRegistrationPayment (env_paying "g1" 500 99999999) "sig"
             worker_wallet) = false.
Proof. vm_compute. split; reflexivity. Qed.

Lemma sendPayment_spec_witness :
  success (sendPayment bs58_PublicKey_ok (env_paying "x1" 4000 0) worker_wallet
             1.001) = true
  ∧ BigInt (Math_floor (js_mul (Number 1.001) (Number 1000000000)))
    = Some 1000999999%Z.
Proof.
  split; [|vm_compute; reflexivity].
  apply (proj1 (sendPayment_spec bs58_PublicKey_ok (env_paying "x1" 4000 0)
                  worker_wallet 1.001)).
  exists "PXpVKE42sXTnAqRqbKidaTKgCrkgexFrSNQXdxppJZR", 1000999999%Z, "sig-x1".
  split; [reflexivity|]. split; [vm_compute; reflexivity|].
  split; [vm_compute; reflexivity|]. split; [split; [lia|reflexivity]|].
  split; [reflexivity|]. vm_compute. reflexivity.
Defined.

Lemma verifyTransfer_amount_witness :
  tv_amount (verifyTransfer (env_two_transfers "g1" 500 1070000000 2000000000)
               "sig" worker_wallet REGISTRATION_WALLET 1.07)
  = Some 2%Q.
Proof.
  destruct (verifyTransfer_amount
              (env_two_transfers "g1" 500 1070000000 2000000000) "sig"
              worker_wallet REGISTRATION_WALLET 1.07)
    as (tx & rest & tr & Hfetch & Hfind & Hamount & _);
    [vm_compute; reflexivity|].
  injection Hfetch as <- <-. vm_compute in Hfind. injection Hfind as <-.
  rewrite Hamount. vm_compute. reflexivity.
Defined.
